(** * Aim trainer: target spawning and hit resolution

    A shallow embedding of the target core of the aim trainer:
    - [TargetManager.jsx]: [generateRandomPosition], [handleTargetHit],
      [handleTargetTimeout] and the spawn effect run on mount and on every
      change of [gameMode];
    - [Target.jsx]: the per-frame pulse animation;
    - [Player.jsx]: the intersection filter and the laser end point of
      [handleShoot];
    - [App.jsx]: the score handler [handleTargetHit].

    JavaScript numbers are idealised as real numbers; the ids of the
    targets, which the program adds up in binary64, are also evaluated as the
    program does, in [Binary64].  [Math.random] and
    [Date.now] are read from an explicit environment that every function
    threads, so that each draw of the source is one draw of the model, made
    in the order in which the source makes it. *)

From Stdlib Require Import Reals Lra Lia List ZArith String Bool Sorted.
From Stdlib Require PrimFloat.
Import ListNotations.

Open Scope R_scope.

(** ** The environment: [Math.random], [Date.now] *)

Module JS.

(** [rand] is the sequence of values [Math.random()] returns, [cursor] the
    number of values already consumed, [clock] the value of [Date.now()]. *)
Record Env : Type := mkEnv {
  rand : nat -> R;
  cursor : nat;
  clock : Z
}.

Definition M (A : Type) : Type := Env -> A * Env.

Definition ret {A : Type} (a : A) : M A := fun e => (a, e).

Definition bind {A B : Type} (c : M A) (k : A -> M B) : M B :=
  fun e => let (a, e') := c e in k a e'.

Definition skip (n : nat) (e : Env) : Env :=
  mkEnv (rand e) (cursor e + n) (clock e).

Definition Math_random : M R :=
  fun e => (rand e (cursor e), skip 1 e).

Definition Date_now : M R :=
  fun e => (IZR (clock e), e).

(** [a < b] and [a === b] on numbers, as booleans. *)
Definition ltb (a b : R) : bool := if Rlt_dec a b then true else false.
Definition eqb (a b : R) : bool := if Req_dec_T a b then true else false.

(** Every value of [Math.random()] lies in [0, 1). *)
Definition unit_interval (e : Env) : Prop :=
  forall k, 0 <= rand e k < 1.

End JS.

Declare Scope js_scope.
Delimit Scope js_scope with js.
Notation "x <- c ;; k" := (JS.bind c (fun x => k))
  (at level 61, c at next level, right associativity) : js_scope.
Open Scope js_scope.

(** ** TargetManager.jsx *)

Module TargetManager.
Import JS.

Record Position : Type := mkPos { px : R; py : R; pz : R }.

Record Target : Type := mkTarget { id : R; position : Position }.

Definition MIN_DISTANCE : R := 2.5.
Definition MAX_ATTEMPTS : nat := 20.

Definition distance (candidate p : Position) : R :=
  let dx := px candidate - px p in
  let dy := py candidate - py p in
  let dz := pz candidate - pz p in
  sqrt (dx * dx + dy * dy + dz * dz).

(** The [for ... of existingTargets] loop with its [break]. *)
Fixpoint tooClose (candidate : Position) (existingTargets : list Target) : bool :=
  match existingTargets with
  | [] => false
  | target :: rest =>
      if ltb (distance candidate (position target)) MIN_DISTANCE then true
      else tooClose candidate rest
  end.

(** The candidate literal: two draws, X first. *)
Definition drawCandidate : M Position :=
  rx <- Math_random ;;
  ry <- Math_random ;;
  ret (mkPos (rx * 6 - 3) (ry * 3 + 1.5) 8).

(** The [while (!isValid && attempts < MAX_ATTEMPTS)] loop, [fuel] being
    [MAX_ATTEMPTS - attempts].  The result is the variable [position] when
    the loop ends: [None] for [null], which is also [isValid = false]. *)
Fixpoint search (fuel : nat) (existingTargets : list Target) : M (option Position) :=
  match fuel with
  | O => ret None
  | S fuel' =>
      candidate <- drawCandidate ;;
      if tooClose candidate existingTargets then search fuel' existingTargets
      else ret (Some candidate)
  end.

Definition generateRandomPosition (existingTargets : list Target) : M Position :=
  found <- search MAX_ATTEMPTS existingTargets ;;
  match found with
  | Some p => ret p
  | None => drawCandidate
  end.

(** The candidate the loop draws when the cursor is at [k]. *)
Definition candidateAt (e : Env) (k : nat) : Position :=
  mkPos (rand e k * 6 - 3) (rand e (k + 1) * 3 + 1.5) 8.

(** The [n]-th candidate (from 0) drawn by a call started in [e]. *)
Definition nthCandidate (e : Env) (n : nat) : Position :=
  candidateAt e (cursor e + 2 * n).

(** A call is accepted when its loop ends with a valid candidate, that is
    within the cap of [MAX_ATTEMPTS]. *)
Definition accepted (existingTargets : list Target) (e : Env) : Prop :=
  fst (search MAX_ATTEMPTS existingTargets e) <> None.

(** Every two targets at different places of the list are [MIN_DISTANCE]
    apart or more. *)
Definition separated (l : list Target) : Prop :=
  forall i j a b, i <> j ->
    nth_error l i = Some a -> nth_error l j = Some b ->
    MIN_DISTANCE <= distance (position a) (position b).

(** *** The live collection and its updaters *)

Inductive GameMode : Type := normal | random_size | strafing | pulse.

Definition isPulse (gameMode : GameMode) : bool :=
  match gameMode with pulse => true | _ => false end.

(** [(gameMode === 'random_size' || gameMode === 'pulse') ? 5 : 3] *)
Definition spawnCount (gameMode : GameMode) : nat :=
  match gameMode with
  | random_size | pulse => 5%nat
  | _ => 3%nat
  end.

Definition isLive (targetId : R) (prev : list Target) : bool :=
  existsb (fun target => eqb (id target) targetId) prev.

Definition withoutId (targetId : R) (prev : list Target) : list Target :=
  filter (fun target => negb (eqb (id target) targetId)) prev.

(** The updater passed to [setTargets] by [handleTargetHit]. *)
Definition handleTargetHit (targetId : R) (prev : list Target) : M (list Target) :=
  if isLive targetId prev then
    let remaining := withoutId targetId prev in
    now <- Date_now ;;
    r <- Math_random ;;
    p <- generateRandomPosition remaining ;;
    ret (remaining ++ [mkTarget (now + r) p])
  else ret prev.

(** The updater passed to [setTargets] by [handleTargetTimeout]. *)
Definition handleTargetTimeout (targetId : R) (prev : list Target) : M (list Target) :=
  if isLive targetId prev then
    let remaining := withoutId targetId prev in
    now <- Date_now ;;
    r <- Math_random ;;
    p <- generateRandomPosition remaining ;;
    ret (remaining ++ [mkTarget (now + r) p])
  else ret prev.

(** The updater of [spawnTarget]. *)
Definition spawnTarget (prev : list Target) : M (list Target) :=
  now <- Date_now ;;
  r <- Math_random ;;
  p <- generateRandomPosition prev ;;
  ret (prev ++ [mkTarget (now + r) p]).

(** *** Timers

    A pending [setTimeout] of the spawn effect: the closure keeps its loop
    index [i]; [due] is the time at which the callback runs. *)
Record Timer : Type := mkTimer { due : Z; index : nat }.

Record State : Type := mkState {
  targets : list Target;
  timers : list Timer
}.

(** The timer queue is kept in firing order: by due time, and in order of
    registration among equal due times. *)
Fixpoint enqueue (t : Timer) (queue : list Timer) : list Timer :=
  match queue with
  | [] => [t]
  | t' :: rest =>
      if (due t' <=? due t)%Z then t' :: enqueue t rest else t :: queue
  end.

Definition setTimeout (i : nat) (delay : Z) (queue : list Timer) : M (list Timer) :=
  fun e => (enqueue (mkTimer (clock e + delay) i) queue, e).

(** The callback of the staggered spawn, with [i] from its closure. *)
Definition staggeredSpawn (i : nat) (prev : list Target) : M (list Target) :=
  now <- Date_now ;;
  r <- Math_random ;;
  p <- generateRandomPosition prev ;;
  ret (prev ++ [mkTarget (now + r + INR i) p]).

(** [for (let i = ...; i < spawnCount; i++) setTimeout(..., i * 500)],
    [n] iterations left. *)
Fixpoint scheduleLoop (n i : nat) (queue : list Timer) : M (list Timer) :=
  match n with
  | O => ret queue
  | S n' =>
      queue' <- setTimeout i (Z.of_nat i * 500) queue ;;
      scheduleLoop n' (S i) queue'
  end.

(** The batch loop of the other modes, [n] iterations left. *)
Fixpoint spawnLoop (n i : nat) (initialTargets : list Target) : M (list Target) :=
  match n with
  | O => ret initialTargets
  | S n' =>
      now <- Date_now ;;
      r <- Math_random ;;
      p <- generateRandomPosition initialTargets ;;
      spawnLoop n' (S i) (initialTargets ++ [mkTarget (now + r + INR i) p])
  end.

(** No call of the batch loop ran out of attempts. *)
Fixpoint settled (n i : nat) (initialTargets : list Target) (e : Env) : Prop :=
  match n with
  | O => True
  | S n' =>
      let (now, e1) := Date_now e in
      let (r, e2) := Math_random e1 in
      accepted initialTargets e2 /\
      (let (p, e3) := generateRandomPosition initialTargets e2 in
       settled n' (S i) (initialTargets ++ [mkTarget (now + r + INR i) p]) e3)
  end.

(** The effect run on mount and whenever [gameMode] changes.  It returns no
    cleanup: timers pending from an earlier run stay in the queue. *)
Definition spawnEffect (gameMode : GameMode) (st : State) : M State :=
  if isPulse gameMode then
    queue <- scheduleLoop (spawnCount gameMode) 0 (timers st) ;;
    ret (mkState [] queue)
  else
    initialTargets <- spawnLoop (spawnCount gameMode) 0 [] ;;
    ret (mkState initialTargets (timers st)).

(** *** The event loop, as far as timers go *)

Definition setClock (t : Z) : M unit :=
  fun e => (tt, mkEnv (rand e) (cursor e) (Z.max (clock e) t)).

(** Run, in queue order, the callbacks due at [t] or before. *)
Fixpoint fire (queue : list Timer) (t : Z) (prev : list Target)
  : M (list Target * list Timer) :=
  match queue with
  | [] => ret (prev, [])
  | tm :: rest =>
      if (due tm <=? t)%Z then
        _ <- setClock (due tm) ;;
        prev' <- staggeredSpawn (index tm) prev ;;
        fire rest t prev'
      else ret (prev, queue)
  end.

(** Let time pass until [t], with no other event. *)
Definition advanceTo (t : Z) (st : State) : M State :=
  fired <- fire (timers st) t (targets st) ;;
  _ <- setClock t ;;
  ret (mkState (fst fired) (snd fired)).

(** The live targets at time [t], no other event having occurred. *)
Definition liveAt (t : Z) (st : State) (e : Env) : list Target :=
  targets (fst (advanceTo t st e)).

(** The number of callbacks of [queue] run by time [t]. *)
Fixpoint firedBy (t : Z) (queue : list Timer) : nat :=
  match queue with
  | [] => 0%nat
  | tm :: rest => if (due tm <=? t)%Z then S (firedBy t rest) else 0%nat
  end.

(** The timers the effect of mode pulse registers at time [t0]. *)
Definition staggerQueue (t0 : Z) : list Timer :=
  [mkTimer (t0 + 0) 0; mkTimer (t0 + 500) 1; mkTimer (t0 + 1000) 2;
   mkTimer (t0 + 1500) 3; mkTimer (t0 + 2000) 4].

(** The environment at time [t], no other event having occurred. *)
Definition envAt (t : Z) (st : State) (e : Env) : Env :=
  snd (advanceTo t st e).

(** [c] is nearer than [MIN_DISTANCE] to one of the targets. *)
Definition near (c : Position) (existingTargets : list Target) : Prop :=
  exists t, In t existingTargets /\ distance c (position t) < MIN_DISTANCE.

(** [p] is the position due against [existingTargets] from the draws of [e]:
    the first of the [MAX_ATTEMPTS] candidates that is [MIN_DISTANCE] or more
    away from every one of these targets or, when there is none, the
    candidate drawn after them. *)
Definition firstFit (existingTargets : list Target) (e : Env) (p : Position) : Prop :=
  (exists n, (n < MAX_ATTEMPTS)%nat /\ p = nthCandidate e n /\
             (forall t, In t existingTargets ->
                        MIN_DISTANCE <= distance p (position t)) /\
             forall m, (m < n)%nat -> near (nthCandidate e m) existingTargets)
  \/ ((forall n, (n < MAX_ATTEMPTS)%nat -> near (nthCandidate e n) existingTargets) /\
      p = nthCandidate e MAX_ATTEMPTS).

End TargetManager.

(** ** The ids in binary64

    The ids above are exact sums.  The program adds IEEE 754 binary64
    numbers, and [Date.now()] is of the order of 2^40, where two neighbouring
    numbers are 2^-12 apart: the fraction drawn is rounded away.  This
    module evaluates the id expressions as the program does. *)

Module Binary64.
Import PrimFloat.

(** [Date.now() + Math.random() + i], the id of the target [i] of a batch
    and of a staggered spawn; with [i] at 0 it is the id of a replacement,
    [Date.now() + Math.random()], adding 0 being exact. *)
Definition batchId (now r i : float) : float := (now + r + i)%float.

(** [0 <= r < 1], the range of [Math.random()]. *)
Definition inUnitInterval (r : float) : bool :=
  (leb 0 r && ltb r 1)%bool.

End Binary64.

(** ** three.js: vectors and rays *)

Module Three.

Record Vector3 : Type := mkV { vx : R; vy : R; vz : R }.

Record Ray : Type := mkRay { origin : Vector3; direction : Vector3 }.

(** [ray.at(t, target)]: the origin moved by [t] times the direction. *)
Definition at_ (ray : Ray) (t : R) : Vector3 :=
  mkV (vx (origin ray) + vx (direction ray) * t)
      (vy (origin ray) + vy (direction ray) * t)
      (vz (origin ray) + vz (direction ray) * t).

Definition sub (a b : Vector3) : Vector3 :=
  mkV (vx a - vx b) (vy a - vy b) (vz a - vz b).

Definition length (a : Vector3) : R :=
  sqrt (vx a * vx a + vy a * vy a + vz a * vz a).

End Three.

(** ** Target.jsx *)

Module TargetComponent.
Import JS.

Record Mesh : Type := mkMesh { scale : Three.Vector3; position_x : R }.

Record Props : Type := mkProps {
  position : TargetManager.Position;
  id : R;
  gameMode : TargetManager.GameMode;
  onTargetTimeout : bool          (* is the callback provided? *)
}.

Record MovementParams : Type := mkParams { speed : R; offset : R; amplitude : R }.

(** The values kept by [useMemo]. *)
Record Memo : Type := mkMemo {
  pulseSpeed : R;
  randomScale : R;
  movementParams : option MovementParams;
  initialX : R
}.

Record Refs : Type := mkRefs {
  meshRef : option Mesh;
  lifeRef : R;
  hasTimedOut : bool
}.

Definition usePulseSpeed (gameMode : TargetManager.GameMode) : M R :=
  match gameMode with
  | TargetManager.pulse =>
      let minSpeed := 0.3 in
      let maxSpeed := 0.5 in
      r <- Math_random ;;
      ret (r * (maxSpeed - minSpeed) + minSpeed)
  | _ => ret 1.5
  end.

Definition useRandomScale (gameMode : TargetManager.GameMode) : M R :=
  match gameMode with
  | TargetManager.random_size =>
      r <- Math_random ;;
      ret (r * 1.0 + 0.5)
  | _ => ret 1.0
  end.

Definition useMovementParams (gameMode : TargetManager.GameMode)
  : M (option MovementParams) :=
  match gameMode with
  | TargetManager.strafing =>
      r1 <- Math_random ;;
      r2 <- Math_random ;;
      r3 <- Math_random ;;
      ret (Some (mkParams (r1 * 0.5 + 0.5) (r2 * PI * 2) (r3 * 3 + 2)))
  | _ => ret None
  end.

(** The memoised values of a first render. *)
Definition useMemos (props : Props) : M Memo :=
  ps <- usePulseSpeed (gameMode props) ;;
  rs <- useRandomScale (gameMode props) ;;
  mp <- useMovementParams (gameMode props) ;;
  ret (mkMemo ps rs mp (TargetManager.px (position props))).

Definition setScale (s : R) (m : Mesh) : Mesh :=
  mkMesh (Three.mkV s s s) (position_x m).

(** The effect run after mounting. *)
Definition mountEffect (props : Props) (memo : Memo) (refs : Refs) : Refs :=
  match meshRef refs with
  | None => refs
  | Some m =>
      match gameMode props with
      | TargetManager.random_size =>
          mkRefs (Some (setScale (randomScale memo) m)) (lifeRef refs) (hasTimedOut refs)
      | TargetManager.pulse =>
          mkRefs (Some (setScale 0 m)) 0 false
      | _ =>
          mkRefs (Some (setScale 1 m)) (lifeRef refs) (hasTimedOut refs)
      end
  end.

(** The strafing part of the frame callback. *)
Definition strafe (props : Props) (memo : Memo) (elapsedTime : R) (m : Mesh) : Mesh :=
  match gameMode props, movementParams memo with
  | TargetManager.strafing, Some mp =>
      mkMesh (scale m)
             (initialX memo + sin (elapsedTime * speed mp + offset mp) * amplitude mp)
  | _, _ => m
  end.

(** The callback of [useFrame]: the refs after the frame, and the id passed
    to [onTargetTimeout] when the callback is called. *)
Definition useFrame (props : Props) (memo : Memo) (elapsedTime delta : R)
  (refs : Refs) : Refs * option R :=
  match meshRef refs with
  | None => (refs, None)
  | Some m0 =>
      let m := strafe props memo elapsedTime m0 in
      match gameMode props with
      | TargetManager.pulse =>
          let life := lifeRef refs + delta * pulseSpeed memo in
          let s := sin life * 1.5 in
          let m' := setScale s m in
          if ltb PI life && negb (hasTimedOut refs) then
            (mkRefs (Some m') life true,
             if onTargetTimeout props then Some (id props) else None)
          else (mkRefs (Some m') life (hasTimedOut refs), None)
      | _ => (mkRefs (Some m) (lifeRef refs) (hasTimedOut refs), None)
      end
  end.

(** A run of frames, each given by its [(elapsedTime, delta)]: the refs
    after every frame with the signal of that frame. *)
Fixpoint run (props : Props) (memo : Memo) (frames : list (R * R)) (refs : Refs)
  : list (Refs * option R) :=
  match frames with
  | [] => []
  | (elapsedTime, delta) :: rest =>
      let out := useFrame props memo elapsedTime delta refs in
      out :: run props memo rest (fst out)
  end.

(** The life clock of the specification: the sum of [delta * speed] over
    the frames played so far. *)
Fixpoint lifeClock (speed : R) (frames : list (R * R)) : R :=
  match frames with
  | [] => 0
  | (_, delta) :: rest => delta * speed + lifeClock speed rest
  end.

(** The life clock at frame [k] (from 0), that frame played. *)
Definition lifeAt (speed : R) (frames : list (R * R)) (k : nat) : R :=
  lifeClock speed (firstn (S k) frames).

End TargetComponent.

(** ** Player.jsx: the hit resolver *)

Module Player.

Record Object3D : Type := mkObject {
  name : string;
  type : string;
  isTarget : bool;       (* [userData?.isTarget] *)
  targetId : R;          (* [userData.targetId] *)
  hasParent : bool
}.

Record Intersection : Type := mkHit {
  distance : R;
  point : Three.Vector3;
  object : Object3D
}.

(** The predicate of [intersects.filter]. *)
Definition keep (intersect : Intersection) : bool :=
  let obj := object intersect in
  if isTarget obj then true
  else if (String.eqb (name obj) "floor" || String.eqb (name obj) "back-wall")%bool
       then false
       else true.

Inductive LogLine : Type :=
| HIT_TARGET (targetId : R)
| HIT (objectName : string)
| MISS.

(** What one shot does: the id given to [onTargetHit], the object taken out
    of the scene, the console lines, and the end point of the laser with the
    object it ends on. *)
Record Shot : Type := mkShot {
  notified : option R;
  removed : option Object3D;
  console : list LogLine;
  laserEnd : Three.Vector3;
  hitObject : option Object3D
}.

(** [hitObject.name || hitObject.type || 'Unknown'] *)
Definition objectName (o : Object3D) : string :=
  if negb (String.eqb (name o) "") then name o
  else if negb (String.eqb (type o) "") then type o
  else "Unknown"%string.

(** [handleShoot], from the ray of the camera and the intersections the
    raycaster returns for it (nearest first), camera and scene being there.
    [onTargetHit] tells whether the callback is provided. *)
Definition handleShoot (onTargetHit : bool) (ray : Three.Ray)
  (intersects : list Intersection) : Shot :=
  let filteredIntersects := filter keep intersects in
  match filteredIntersects with
  | firstHit :: _ =>
      if isTarget (object firstHit) then
        mkShot (if onTargetHit then Some (targetId (object firstHit)) else None)
               (if hasParent (object firstHit) then Some (object firstHit) else None)
               [HIT_TARGET (targetId (object firstHit))]
               (point firstHit)
               (Some (object firstHit))
      else
        mkShot None None
               [HIT (objectName (object firstHit))]
               (point firstHit)
               (Some (object firstHit))
  | [] =>
      mkShot None None [MISS] (Three.at_ ray 100) None
  end.

(** The raycaster returns its intersections nearest first. *)
Definition nearestFirst (intersects : list Intersection) : Prop :=
  StronglySorted (fun a b => distance a <= distance b) intersects.

(** The surfaces of GameScene.jsx, by their [name]. *)
Definition surface (n : string) : Object3D := mkObject n "Mesh" false 0 true.

Definition floor : Object3D := surface "floor".
Definition back_wall : Object3D := surface "back-wall".
Definition left_wall : Object3D := surface "left-wall".
Definition right_wall : Object3D := surface "right-wall".
Definition ceiling : Object3D := surface "ceiling".

(** The mesh of Target.jsx for the target [id]. *)
Definition targetSphere (id : R) : Object3D :=
  mkObject "target-sphere" "Mesh" true id true.

End Player.

(** ** App.jsx *)

Module App.
Import JS.

Record State : Type := mkApp {
  score : Z;
  hitSounds : nat;                                         (* calls of [playHitSound] *)
  targetManagerRef : option (list TargetManager.Target)    (* the mounted manager *)
}.

Definition handleTargetHit (targetId : R) (app : State) : M State :=
  let score' := (score app + 1)%Z in
  let sounds' := S (hitSounds app) in
  match targetManagerRef app with
  | Some prev =>
      next <- TargetManager.handleTargetHit targetId prev ;;
      ret (mkApp score' sounds' (Some next))
  | None => ret (mkApp score' sounds' None)
  end.

Definition handleTargetTimeout (targetId : R) (app : State) : M State :=
  match targetManagerRef app with
  | Some prev =>
      next <- TargetManager.handleTargetTimeout targetId prev ;;
      ret (mkApp (score app) (hitSounds app) (Some next))
  | None => ret app
  end.

End App.

(** ** Example data *)

Module Examples.
Import JS TargetManager.

(** [Math.random] returning 1/2 forty times, then 0. *)
Definition crowdedEnv : Env :=
  mkEnv (fun k => if (k <? 40)%nat then 1 / 2 else 0) 0 0.

(** Two live targets, 3 apart, that leave no free place: every point of the
    spawn area is nearer than [MIN_DISTANCE] to one of them. *)
Definition crowd : list Target :=
  [mkTarget 1 (mkPos (-1.5) 3 8); mkTarget 2 (mkPos 1.5 3 8)].

(** [Math.random] returning the values of a list, then 0. *)
Definition envOf (draws : list R) : Env := mkEnv (fun k => nth k draws 0) 0 0.

(** Draws of a batch of three whose first candidates are (-3, 1.5, 8),
    (0, 4, 8) and (2, 1.5, 8): one draw for each id, two for each position. *)
Definition spreadEnv : Env :=
  envOf [0; 0; 0;  0; 1 / 2; 5 / 6;  0; 5 / 6; 0].

Definition emptyState : State := mkState [] [].

(** A ray from the camera of the scene, looking down the z axis. *)
Definition aim : Three.Ray := Three.mkRay (Three.mkV 0 1.5 0) (Three.mkV 0 0 1).

(** A pulse target with id 9, its timeout callback provided. *)
Definition pulseProps : TargetComponent.Props :=
  TargetComponent.mkProps (mkPos 0 3 8) 9 pulse true.

Definition sphere : TargetComponent.Mesh :=
  TargetComponent.mkMesh (Three.mkV 1 1 1) 0.

(** Three frames, given as [(elapsedTime, delta)]. *)
Definition threeFrames : list (R * R) := [(5, 5); (15, 10); (20, 5)].

(** A manager in which one staggered spawn of an earlier pulse run, due at
    1500, is still pending. *)
Definition staleState : State := mkState [] [mkTimer 1500 1].

(** Three live targets of mode normal, with ids 1, 2 and 3. *)
Definition trio : list Target :=
  [mkTarget 1 (mkPos (-3) 1.5 8); mkTarget 2 (mkPos 0 4 8); mkTarget 3 (mkPos 2 1.5 8)].

(** [Date.now()] is 1000, [Math.random()] returns 1/2 for ever. *)
Definition halfEnv : Env := mkEnv (fun _ => 1 / 2) 0 1000.

End Examples.

(** ** three.js: interpolation, and Euler angles *)

Module ThreeMath.

Record Euler : Type := mkEuler { ex : R; ey : R; ez : R }.

(** [a.lerp(v, alpha)] on vectors. *)
Definition lerpV (a v : Three.Vector3) (alpha : R) : Three.Vector3 :=
  Three.mkV (Three.vx a + (Three.vx v - Three.vx a) * alpha)
            (Three.vy a + (Three.vy v - Three.vy a) * alpha)
            (Three.vz a + (Three.vz v - Three.vz a) * alpha).

(** [MathUtils.lerp(x, y, t)] *)
Definition lerp (x y t : R) : R := (1 - t) * x + t * y.

(** [a.distanceTo(v)] *)
Definition distanceTo (a v : Three.Vector3) : R :=
  let dx := Three.vx a - Three.vx v in
  let dy := Three.vy a - Three.vy v in
  let dz := Three.vz a - Three.vz v in
  sqrt (dx * dx + dy * dy + dz * dz).

End ThreeMath.

(** ** Weapon.jsx *)

Module Weapon.
Import ThreeMath.

Definition RECOIL_KICK : R := 0.1.
Definition RECOIL_ROTATION : R := 0.15.
Definition LERP_FACTOR : R := 0.15.

Definition originalPosition : Three.Vector3 := Three.mkV 0.3 (-0.3) (-0.5).
Definition originalRotation : Euler := mkEuler 0 0 0.

(** The group of the weapon in the scene. *)
Record Group : Type := mkGroup { position : Three.Vector3; rotation : Euler }.

(** The refs and the state of the component; [flashTimers] holds the due
    times of the pending timers that put the muzzle flash out. *)
Record State : Type := mkWeapon {
  meshRef : option Group;
  recoilPosition : Three.Vector3;
  recoilRotation : Euler;
  isRecoiling : bool;
  muzzleFlash : bool;
  flashTimers : list Z
}.

(** The component as first rendered, its group mounted or not. *)
Definition initial (mesh : option Group) : State :=
  mkWeapon mesh (Three.mkV 0.3 (-0.3) (-0.5)) (mkEuler 0 0 0) false false [].

(** [handleFire] at time [now]; the boolean tells whether [onFire] is
    called ([onFire] telling whether the callback is provided). *)
Definition handleFire (onFire : bool) (now : Z) (w : State) : State * bool :=
  match meshRef w with
  | None => (w, false)
  | Some _ =>
      (mkWeapon (meshRef w)
                (Three.mkV (Three.vx (recoilPosition w)) (Three.vy (recoilPosition w))
                           (Three.vz originalPosition - RECOIL_KICK))
                (mkEuler (ex originalRotation + RECOIL_ROTATION)
                         (ey (recoilRotation w)) (ez (recoilRotation w)))
                true true (flashTimers w ++ [(now + 50)%Z]),
       onFire)
  end.

(** The callback of [useFrame]. *)
Definition useFrame (w : State) : State :=
  match meshRef w with
  | None => w
  | Some _ =>
      let p := lerpV (recoilPosition w) originalPosition LERP_FACTOR in
      let r := mkEuler (lerp (ex (recoilRotation w)) (ex originalRotation) LERP_FACTOR)
                       (lerp (ey (recoilRotation w)) (ey originalRotation) LERP_FACTOR)
                       (lerp (ez (recoilRotation w)) (ez originalRotation) LERP_FACTOR) in
      let positionDiff := distanceTo p originalPosition in
      let rotationDiff := Rabs (ex r - ex originalRotation) in
      mkWeapon (Some (mkGroup p r)) p r
               (if JS.ltb positionDiff 0.001 && JS.ltb rotationDiff 0.001
                then false else isRecoiling w)
               (muzzleFlash w) (flashTimers w)
  end.

(** The timers due at [t] or before run: each puts the flash out. *)
Definition runTimers (t : Z) (w : State) : State :=
  mkWeapon (meshRef w) (recoilPosition w) (recoilRotation w) (isRecoiling w)
           (if existsb (fun d => (d <=? t)%Z) (flashTimers w) then false
            else muzzleFlash w)
           (filter (fun d => negb (d <=? t)%Z) (flashTimers w)).

(** What happens to the weapon: a fire or a frame, at a time. *)
Inductive Event : Type :=
| Fire (t : Z)
| Frame (t : Z).

Definition time (ev : Event) : Z :=
  match ev with Fire t => t | Frame t => t end.

Definition step (onFire : bool) (w : State) (ev : Event) : State :=
  match ev with
  | Fire t => fst (handleFire onFire t (runTimers t w))
  | Frame t => useFrame (runTimers t w)
  end.

Definition play (onFire : bool) (evs : list Event) (w : State) : State :=
  fold_left (step onFire) evs w.

(** [n] frames in a row, the timers left aside. *)
Fixpoint frames (n : nat) (w : State) : State :=
  match n with
  | O => w
  | S n' => frames n' (useFrame w)
  end.

(** The times of the events never go back, starting from [t0]. *)
Fixpoint inOrder (t0 : Z) (evs : list Event) : Prop :=
  match evs with
  | [] => True
  | ev :: rest => (t0 <= time ev)%Z /\ inOrder (time ev) rest
  end.

(** The recoil is on the z axis and the x angle only, and within the kick. *)
Definition inEnvelope (w : State) : Prop :=
  Three.vx (recoilPosition w) = 0.3 /\
  Three.vy (recoilPosition w) = -0.3 /\
  -0.6 <= Three.vz (recoilPosition w) <= -0.5 /\
  0 <= ex (recoilRotation w) <= 0.15 /\
  ey (recoilRotation w) = 0 /\
  ez (recoilRotation w) = 0.

(** The time of the last event, [t0] when there is none. *)
Fixpoint lastTime (t0 : Z) (evs : list Event) : Z :=
  match evs with
  | [] => t0
  | ev :: rest => lastTime (time ev) rest
  end.

(** The group of the weapon as the scene places it. *)
Definition weaponGroup : Group :=
  mkGroup (Three.mkV 0.3 (-0.3) (-0.5)) (mkEuler 0 0 0).

End Weapon.

(** ** GameScene.jsx and the sphere of Target.jsx: the sizes *)

Module Scene.

Definition roomWidth : R := 20.
Definition roomHeight : R := 10.
Definition roomDepth : R := 20.

(** The x of the left and right walls, from their [position]. *)
Definition leftWallX : R := - roomWidth / 2.
Definition rightWallX : R := roomWidth / 2.

(** [<sphereGeometry args={[0.5, 32, 32]} />] *)
Definition sphereRadius : R := 0.5.

End Scene.

(** The frame time spent when the frame [k] (from 0) has been played: the
    sum of the [delta] of the frames so far. *)
Definition elapsedAt (frames : list (R * R)) (k : nat) : R :=
  TargetComponent.lifeAt 1 frames k.

(** ** SettingsMenu.jsx: the sensitivity inputs *)

Module SettingsMenu.

(** The [onChange] of the number input: [parsed] is what [parseFloat]
    returns for the text typed, [None] for [NaN]; the result is the
    sensitivity afterwards. *)
Definition numberInputChange (parsed : option R) (sensitivity : R) : R :=
  match parsed with
  | None => sensitivity
  | Some value =>
      if negb (JS.ltb value 0.1) && negb (JS.ltb 5.0 value) then value
      else sensitivity
  end.

End SettingsMenu.

(** ** Player.jsx: mouse look, mouse down, lasers *)

Module Controls.
Import ThreeMath.

Definition PI_2 : R := PI / 2.
Definition SENSITIVITY_MULTIPLIER : R := 0.0022.

(** [handleMouseMove], the camera being there.  [fromQuaternion] is what
    [euler.setFromQuaternion(camera.quaternion)] reads; the result is the
    Euler given to [camera.quaternion.setFromEuler], [None] when the handler
    returns before. *)
Definition handleMouseMove (isLocked isMenuOpen : bool)
  (sensitivity movementX movementY : R) (fromQuaternion : Euler) : option Euler :=
  if negb isLocked || isMenuOpen then None
  else
    let rotationX := movementY * sensitivity * SENSITIVITY_MULTIPLIER in
    let rotationY := movementX * sensitivity * SENSITIVITY_MULTIPLIER in
    let y := ey fromQuaternion - rotationY in
    let x := ex fromQuaternion - rotationX in
    let x := Rmax (- PI_2) (Rmin PI_2 x) in
    Some (mkEuler x y (ez fromQuaternion)).

(** [handleCanvasClick]: is the pointer lock requested? *)
Definition handleCanvasClick (isMenuOpen isLocked canvas : bool) : bool :=
  if isMenuOpen then false else negb isLocked && canvas.

(** What a mouse down does: the weapon afterwards and the shot resolved,
    if any. *)
Record Outcome : Type := mkOutcome {
  weaponRef : option Weapon.State;
  shot : option Player.Shot
}.

(** [handleMouseDown] at time [now], followed through [weaponRef.current.fire],
    which is [handleFire] of the weapon with [handleShoot] for [onFire].
    [weapon] is the handle of the mounted weapon, [None] before. *)
Definition handleMouseDown (isMenuOpen isLocked : bool) (button : Z) (now : Z)
  (weapon : option Weapon.State) (onTargetHit : bool) (ray : Three.Ray)
  (intersects : list Player.Intersection) : Outcome :=
  if isMenuOpen then mkOutcome weapon None
  else if negb (button =? 0)%Z then mkOutcome weapon None
  else if isLocked then
    match weapon with
    | Some w =>
        let fired := Weapon.handleFire true now w in
        mkOutcome (Some (fst fired))
                  (if snd fired
                   then Some (Player.handleShoot onTargetHit ray intersects)
                   else None)
    | None => mkOutcome None None
    end
  else mkOutcome weapon None.

(** *** The lasers *)

Record LaserBeam : Type := mkLaser {
  id : Z;                     (* [Date.now()] of the shot *)
  start : Three.Vector3;
  end_ : Three.Vector3
}.

(** The state [lasers] and the pending timers of [handleShoot], each with
    its due time and the [laserId] of its closure. *)
Record Lasers : Type := mkLasers {
  lasers : list LaserBeam;
  laserTimers : list (Z * Z)
}.

(** [prev.filter(laser => laser.id !== laserId)] *)
Definition removeLaser (laserId : Z) (prev : list LaserBeam) : list LaserBeam :=
  filter (fun laser => negb (id laser =? laserId)%Z) prev.

(** The end of [handleShoot] at time [now]: the laser is added and its
    removal set for 100 later. *)
Definition addLaser (now : Z) (laserStart laserEnd : Three.Vector3) (s : Lasers)
  : Lasers :=
  mkLasers (lasers s ++ [mkLaser now laserStart laserEnd])
           (laserTimers s ++ [((now + 100)%Z, now)]).

(** The timers due at [t] or before run, in order. *)
Fixpoint runLaserTimers (t : Z) (timers : list (Z * Z)) (prev : list LaserBeam)
  : list LaserBeam * list (Z * Z) :=
  match timers with
  | [] => (prev, [])
  | (due, laserId) :: rest =>
      if (due <=? t)%Z then runLaserTimers t rest (removeLaser laserId prev)
      else
        let later := runLaserTimers t rest prev in
        (fst later, (due, laserId) :: snd later)
  end.

Definition advanceLasers (t : Z) (s : Lasers) : Lasers :=
  mkLasers (fst (runLaserTimers t (laserTimers s) (lasers s)))
           (snd (runLaserTimers t (laserTimers s) (lasers s))).

(** Shots at the given times, each with the start and the end of its
    laser. *)
Fixpoint shoot (shots : list (Z * (Three.Vector3 * Three.Vector3))) (s : Lasers)
  : Lasers :=
  match shots with
  | [] => s
  | (t, (a, b)) :: rest => shoot rest (addLaser t a b (advanceLasers t s))
  end.

Fixpoint shotsInOrder (t0 : Z) (shots : list (Z * (Three.Vector3 * Three.Vector3)))
  : Prop :=
  match shots with
  | [] => True
  | (t, _) :: rest => (t0 <= t)%Z /\ shotsInOrder t rest
  end.

Fixpoint lastShot (t0 : Z) (shots : list (Z * (Three.Vector3 * Three.Vector3))) : Z :=
  match shots with
  | [] => t0
  | (t, _) :: rest => lastShot t rest
  end.

End Controls.

(** ** Laser.jsx *)

Module Laser.

Definition duration : R := 100.

(** The callback of [useFrame] at time [now] for a laser mounted at
    [startTime]: the opacity written to the material, if any, and whether
    [onComplete] is called.  [material] tells whether the material is
    mounted, [onComplete] whether the callback is provided. *)
Definition useFrame (material onComplete : bool) (startTime now : Z)
  : option R * bool :=
  if negb material then (None, false)
  else
    let elapsed := IZR (now - startTime) in
    let progress := elapsed / duration in
    if negb (JS.ltb progress 1.0) then (None, onComplete)
    else (Some (1.0 - progress), false).

End Laser.

(** ** The wiring of App.jsx: from a mouse down to the score *)

Module Game.
Import JS.

(** Does a mouse down fire?  Menu closed, left button, pointer locked, and
    the weapon there with its group mounted. *)
Definition canFire (isMenuOpen isLocked : bool) (button : Z)
  (weapon : option Weapon.State) : bool :=
  negb isMenuOpen && (button =? 0)%Z && isLocked &&
  match weapon with
  | Some w => match Weapon.meshRef w with Some _ => true | None => false end
  | None => false
  end.

(** Is the first intersection the filter keeps on a target? *)
Definition hitsTarget (intersects : list Player.Intersection) : bool :=
  match filter Player.keep intersects with
  | firstHit :: _ => Player.isTarget (Player.object firstHit)
  | [] => false
  end.

(** A mouse down with the components wired as App.jsx and Player.jsx wire
    them: [onFire] of the weapon is [handleShoot], [onTargetHit] of the
    player is [handleTargetHit] of the application. *)
Definition click (isMenuOpen isLocked : bool) (button : Z) (now : Z)
  (weapon : option Weapon.State) (ray : Three.Ray)
  (intersects : list Player.Intersection) (app : App.State)
  : M (App.State * Controls.Outcome) :=
  let o := Controls.handleMouseDown isMenuOpen isLocked button now weapon true
                                    ray intersects in
  match Controls.shot o with
  | Some s =>
      match Player.notified s with
      | Some targetId =>
          app' <- App.handleTargetHit targetId app ;;
          ret (app', o)
      | None => ret (app, o)
      end
  | None => ret (app, o)
  end.

End Game.

(** ** App.jsx: the two menus and the pointer lock *)

Module Menus.

Record State : Type := mkMenus {
  isMenuOpen : bool;
  isGameMenuOpen : bool;
  ignoreNextUnlock : bool;
  gameMode : TargetManager.GameMode
}.

(** The state of the first render. *)
Definition initial : State := mkMenus false false false TargetManager.normal.

(** What a handler asks of the browser. *)
Inductive Call : Type :=
| preventDefault
| requestPointerLock
| exitPointerLock
| blur.

(** The page when an event is handled: is [document.pointerLockElement]
    set, is there a canvas, is an element focused. *)
Record Page : Type := mkPage {
  pointerLocked : bool;
  canvas : bool;
  focused : bool
}.

Definition lockCanvas (page : Page) : list Call :=
  if canvas page then [requestPointerLock] else [].

Definition unlock (page : Page) : list Call :=
  if pointerLocked page then [exitPointerLock] else [].

Definition blurActive (page : Page) : list Call :=
  if focused page then [blur] else [].

(** The [keydown] listener of the settings menu. *)
Definition escapeKeyDown (key : string) (page : Page) (s : State)
  : State * list Call :=
  if (String.eqb key "Escape" && negb (isGameMenuOpen s))%bool then
    if isMenuOpen s then
      (mkMenus false (isGameMenuOpen s) true (gameMode s),
       preventDefault :: lockCanvas page)
    else
      (mkMenus true (isGameMenuOpen s) (ignoreNextUnlock s) (gameMode s),
       [preventDefault])
  else (s, []).

(** The [keydown] listener of the game menu. *)
Definition tabKeyDown (key : string) (page : Page) (s : State)
  : State * list Call :=
  if (String.eqb key "Tab" && negb (isMenuOpen s))%bool then
    let willOpen := negb (isGameMenuOpen s) in
    (mkMenus (isMenuOpen s) willOpen true (gameMode s),
     preventDefault :: (if willOpen then unlock page else lockCanvas page))
  else (s, []).

(** The [pointerlockchange] listener. *)
Definition handlePointerLockChange (page : Page) (s : State) : State * list Call :=
  if ignoreNextUnlock s then
    (mkMenus (isMenuOpen s) (isGameMenuOpen s) false (gameMode s), [])
  else if (negb (pointerLocked page) && negb (isMenuOpen s)
           && negb (isGameMenuOpen s))%bool then
    (mkMenus true (isGameMenuOpen s) (ignoreNextUnlock s) (gameMode s), [])
  else (s, []).

(** [handleResume] of SettingsMenu.jsx: [onResume()] then [onClose()], which
    are [handleResume] and [handleMenuClose] of the application. *)
Definition resumeClicked (page : Page) (s : State) : State * list Call :=
  (mkMenus false (isGameMenuOpen s) (ignoreNextUnlock s) (gameMode s),
   blurActive page ++ lockCanvas page ++ blurActive page).

(** [handleModeSelect] of GameMenu.jsx: [setGameMode(modeId)], [onClose()],
    [onResume()], as the application passes them. *)
Definition modeSelected (mode : TargetManager.GameMode) (page : Page) (s : State)
  : State * list Call :=
  (mkMenus (isMenuOpen s) false true mode,
   blurActive page ++ blurActive page ++ lockCanvas page).

(** The effects that follow a render: the one on [isMenuOpen] and the one
    on [isGameMenuOpen], each run when its value has changed. *)
Definition afterRender (page : Page) (before after : State) : State * list Call :=
  let menuCalls :=
    if (negb (Bool.eqb (isMenuOpen before) (isMenuOpen after)) && isMenuOpen after)%bool
    then unlock page else [] in
  if (negb (Bool.eqb (isGameMenuOpen before) (isGameMenuOpen after))
      && isGameMenuOpen after)%bool
  then (mkMenus (isMenuOpen after) (isGameMenuOpen after) true (gameMode after),
        menuCalls ++ unlock page)
  else (after, menuCalls).

Inductive Event : Type :=
| KeyDown (key : string)
| PointerLockChange
| ResumeClicked
| ModeSelected (mode : TargetManager.GameMode).

(** The handler of an event; a key goes to both [keydown] listeners. *)
Definition handle (page : Page) (s : State) (ev : Event) : State * list Call :=
  match ev with
  | KeyDown key =>
      let esc := escapeKeyDown key page s in
      let tab := tabKeyDown key page s in
      (mkMenus (isMenuOpen (fst esc)) (isGameMenuOpen (fst tab))
               (ignoreNextUnlock (fst esc) || ignoreNextUnlock (fst tab))
               (gameMode s),
       snd esc ++ snd tab)
  | PointerLockChange => handlePointerLockChange page s
  | ResumeClicked => resumeClicked page s
  | ModeSelected mode => modeSelected mode page s
  end.

(** An event: its handler, then the effects of the render that follows. *)
Definition step (s : State) (pev : Page * Event) : State :=
  let handled := handle (fst pev) s (snd pev) in
  fst (afterRender (fst pev) s (fst handled)).

Definition play (evs : list (Page * Event)) (s : State) : State :=
  fold_left step evs s.

(** The mode selected last, [mode] when none was. *)
Fixpoint lastMode (mode : TargetManager.GameMode) (evs : list (Page * Event))
  : TargetManager.GameMode :=
  match evs with
  | [] => mode
  | (_, ModeSelected m) :: rest => lastMode m rest
  | _ :: rest => lastMode mode rest
  end.

End Menus.

(** ** AudioSynth.js *)

Module AudioSynth.

(** A scheduled change of an audio parameter. *)
Inductive Automation : Type :=
| setValueAtTime (value time : R)
| linearRampToValueAtTime (value time : R)
| exponentialRampToValueAtTime (value time : R).

(** An oscillator with its gain node, as scheduled. *)
Record Voice : Type := mkVoice {
  wave : string;
  frequency : list Automation;
  gain : list Automation;
  startAt : R;
  stopAt : R
}.

(** The module variable [audioContext] (is it set?), with what the module
    has done so far: contexts constructed, warnings logged, calls of
    [resume], voices scheduled. *)
Record Audio : Type := mkAudio {
  audioContext : bool;
  constructed : nat;
  warnings : nat;
  resumed : nat;
  voices : list Voice
}.

Definition initial : Audio := mkAudio false 0 0 0 [].

(** The browser at a call: does the constructor succeed, is the context
    suspended, what is its [currentTime]. *)
Record Browser : Type := mkBrowser {
  supported : bool;
  suspended : bool;
  currentTime : R
}.

Definition resumeIfSuspended (b : Browser) (a : Audio) : Audio :=
  if suspended b
  then mkAudio (audioContext a) (constructed a) (warnings a) (S (resumed a)) (voices a)
  else a.

(** [getAudioContext]: the state afterwards and whether a context is
    returned. *)
Definition getAudioContext (b : Browser) (a : Audio) : Audio * bool :=
  if audioContext a then (resumeIfSuspended b a, true)
  else if supported b then
    (resumeIfSuspended b
       (mkAudio true (S (constructed a)) (warnings a) (resumed a) (voices a)),
     true)
  else
    (mkAudio false (constructed a) (S (warnings a)) (resumed a) (voices a), false).

Definition schedule (v : Voice) (a : Audio) : Audio :=
  mkAudio (audioContext a) (constructed a) (warnings a) (resumed a) (voices a ++ [v]).

Definition playShootSound (b : Browser) (a : Audio) : Audio :=
  let (a1, ctx) := getAudioContext b a in
  if ctx then
    let now := currentTime b in
    schedule (mkVoice "square"
                      [setValueAtTime 2000 (currentTime b)]
                      [setValueAtTime 0 now;
                       linearRampToValueAtTime 0.1 (now + 0.001);
                       exponentialRampToValueAtTime 0.01 (now + 0.02);
                       linearRampToValueAtTime 0 (now + 0.05)]
                      now (now + 0.05))
             a1
  else a1.

Definition playHitSound (b : Browser) (a : Audio) : Audio :=
  let (a1, ctx) := getAudioContext b a in
  if ctx then
    let now := currentTime b in
    schedule (mkVoice "square"
                      [setValueAtTime 3000 now]
                      [setValueAtTime 0 now;
                       linearRampToValueAtTime 0.15 (now + 0.0005);
                       exponentialRampToValueAtTime 0.01 (now + 0.01);
                       linearRampToValueAtTime 0 (now + 0.02)]
                      now (now + 0.02))
      (schedule (mkVoice "sine"
                         [setValueAtTime 1200 now;
                          exponentialRampToValueAtTime 150 (now + 0.03)]
                         [setValueAtTime 0 now;
                          linearRampToValueAtTime 0.5 (now + 0.001);
                          exponentialRampToValueAtTime 0.01 (now + 0.03);
                          linearRampToValueAtTime 0 (now + 0.05)]
                         now (now + 0.05))
                a1)
  else a1.

Inductive Sound : Type := Shoot | Hit.

Definition play1 (a : Audio) (call : Browser * Sound) : Audio :=
  match snd call with
  | Shoot => playShootSound (fst call) a
  | Hit => playHitSound (fst call) a
  end.

Definition play (calls : list (Browser * Sound)) (a : Audio) : Audio :=
  fold_left play1 calls a.

Definition time (au : Automation) : R :=
  match au with
  | setValueAtTime _ t => t
  | linearRampToValueAtTime _ t => t
  | exponentialRampToValueAtTime _ t => t
  end.

Definition value (au : Automation) : R :=
  match au with
  | setValueAtTime v _ => v
  | linearRampToValueAtTime v _ => v
  | exponentialRampToValueAtTime v _ => v
  end.

(** The voices that calls schedule when a context is there: one for a
    shot, two for a hit. *)
Fixpoint voiceCount (calls : list (Browser * Sound)) : nat :=
  match calls with
  | [] => 0%nat
  | (_, Shoot) :: rest => S (voiceCount rest)
  | (_, Hit) :: rest => S (S (voiceCount rest))
  end.

(** An exponential ramp needs a target above 0. *)
Definition rampIsValid (au : Automation) : Prop :=
  match au with
  | exponentialRampToValueAtTime v _ => 0 < v
  | _ => True
  end.

(** The envelope of a voice: silent when it starts and when it stops, never
    above 0.5, scheduled between the start and the stop, which is 50 ms
    later at most, with valid ramps. *)
Definition wellFormed (v : Voice) : Prop :=
  (exists rest, gain v = setValueAtTime 0 (startAt v) :: rest) /\
  (exists before, gain v = before ++ [linearRampToValueAtTime 0 (stopAt v)]) /\
  Forall (fun au => startAt v <= time au <= stopAt v /\ 0 <= value au <= 0.5
                    /\ rampIsValid au)
         (gain v) /\
  Forall rampIsValid (frequency v) /\
  startAt v < stopAt v <= startAt v + 0.05.

End AudioSynth.

(** Further example data. *)

Module MoreExamples.
Import TargetManager.

(** A strafing target spawned at (1, 2, 8), and a target of mode normal. *)
Definition strafingProps : TargetComponent.Props :=
  TargetComponent.mkProps (mkPos 1 2 8) 5 strafing true.

Definition normalProps : TargetComponent.Props :=
  TargetComponent.mkProps (mkPos 1 2 8) 6 normal true.

(** Refs with the mesh mounted, and refs with no mesh. *)
Definition mounted : TargetComponent.Refs :=
  TargetComponent.mkRefs (Some Examples.sphere) 0 false.

Definition unmounted : TargetComponent.Refs :=
  TargetComponent.mkRefs None 0 false.

(** The page in play: pointer locked, canvas there, nothing focused. *)
Definition inPlay : Menus.Page := Menus.mkPage true true false.

(** The page with the pointer free. *)
Definition pointerFree : Menus.Page := Menus.mkPage false true false.

(** Three live targets two of which share the id 1. *)
Definition twins : list Target :=
  [mkTarget 1 (mkPos (-3) 1.5 8); mkTarget 1 (mkPos 0 4 8); mkTarget 2 (mkPos 2 1.5 8)].

(** The idle manager 100 after the mode was set to pulse, at time 1000: one
    staggered spawn has run, four are pending. *)
Definition pulseStarted : State * JS.Env :=
  let a := spawnEffect pulse Examples.emptyState Examples.halfEnv in
  advanceTo 1100 (fst a) (snd a).

(** The same manager once the mode has been set to normal, at time 1100,
    and 100 more have passed. *)
Definition normalAgain : State * JS.Env :=
  let c := spawnEffect normal (fst pulseStarted) (snd pulseStarted) in
  advanceTo 1200 (fst c) (snd c).

End MoreExamples.

Module FloatExamples.
Import PrimFloat.

(** [Date.now()] in November 2023, and two values of [Math.random()],
    1 - 2^-14 and 2^-14. *)
Definition someNow : float := 1700000000000%float.
Definition highDraw : float := 0.99993896484375%float.
Definition lowDraw : float := 0.00006103515625%float.

End FloatExamples.

(** * Properties *)

(** ** Numbers and the environment *)

Lemma ltb_true (a b : R) : JS.ltb a b = true <-> a < b.
Proof.
  unfold JS.ltb. destruct (Rlt_dec a b); split; intros; auto; discriminate.
Qed.

Lemma ltb_false (a b : R) : JS.ltb a b = false <-> b <= a.
Proof.
  unfold JS.ltb. destruct (Rlt_dec a b); split; intros; auto; try lra; discriminate.
Qed.

Lemma eqb_true (a b : R) : JS.eqb a b = true <-> a = b.
Proof.
  unfold JS.eqb. destruct (Req_dec_T a b); split; intros; auto; discriminate.
Qed.

Lemma eqb_false (a b : R) : JS.eqb a b = false <-> a <> b.
Proof.
  unfold JS.eqb. destruct (Req_dec_T a b); split; intros; auto; try discriminate.
  contradiction.
Qed.

Lemma eqb_refl (a : R) : JS.eqb a a = true.
Proof. now apply eqb_true. Qed.

Lemma skip_skip (n m : nat) (e : JS.Env) :
  JS.skip n (JS.skip m e) = JS.skip (m + n) e.
Proof. unfold JS.skip; cbn. f_equal. lia. Qed.

Lemma skip_0 (e : JS.Env) : JS.skip 0 e = e.
Proof. destruct e; unfold JS.skip; cbn. f_equal. lia. Qed.

(** ** The position generator *)

Section Generator.
Import JS TargetManager.

Lemma drawCandidate_eq (e : Env) :
  drawCandidate e = (candidateAt e (cursor e), skip 2 e).
Proof.
  unfold drawCandidate, bind, Math_random, ret, candidateAt; cbn.
  now rewrite skip_skip.
Qed.

Lemma search_step (fuel : nat) (existing : list Target) (e : Env) :
  search (S fuel) existing e =
  if tooClose (candidateAt e (cursor e)) existing
  then search fuel existing (skip 2 e)
  else (Some (candidateAt e (cursor e)), skip 2 e).
Proof.
  cbn [search]. unfold bind at 1. rewrite drawCandidate_eq.
  destruct (tooClose _ _); reflexivity.
Qed.

Lemma tooClose_false (c : Position) (existing : list Target) :
  tooClose c existing = false <->
  forall t, In t existing -> MIN_DISTANCE <= distance c (position t).
Proof.
  induction existing as [|t0 rest IH]; cbn [tooClose].
  - split; [intros _ t []|reflexivity].
  - destruct (ltb (distance c (position t0)) MIN_DISTANCE) eqn:E.
    + split; [discriminate|]. intros H.
      apply ltb_true in E. specialize (H t0 (or_introl eq_refl)). lra.
    + apply ltb_false in E. rewrite IH. split.
      * intros H t [<-|Hin]; auto.
      * intros H t Hin. apply H. now right.
Qed.

(** A loop that ends with a candidate ends with one that is not too close. *)
Lemma search_Some (fuel : nat) (existing : list Target) :
  forall e p e', search fuel existing e = (Some p, e') ->
                 tooClose p existing = false.
Proof.
  induction fuel as [|fuel IH]; intros e p e' H.
  - discriminate.
  - rewrite search_step in H.
    destruct (tooClose (candidateAt e (cursor e)) existing) eqn:E.
    + eauto.
    + now inversion H; subst.
Qed.

(** A loop all of whose candidates are too close draws two numbers for each
    and ends with no position. *)
Lemma search_exhausted (fuel : nat) (existing : list Target) :
  forall e,
    (forall n, (n < fuel)%nat -> tooClose (nthCandidate e n) existing = true) ->
    search fuel existing e = (None, skip (2 * fuel) e).
Proof.
  induction fuel as [|fuel IH]; intros e H.
  - cbn. now rewrite skip_0.
  - rewrite search_step.
    pose proof (H 0%nat ltac:(lia)) as H0. unfold nthCandidate in H0.
    replace (cursor e + 2 * 0)%nat with (cursor e) in H0 by lia.
    rewrite H0, IH.
    + rewrite skip_skip. f_equal. f_equal. lia.
    + intros n Hn. specialize (H (S n) ltac:(lia)).
      unfold nthCandidate in *. cbn [skip cursor rand] in *.
      unfold candidateAt in *. cbn [rand skip] in *.
      replace (cursor e + 2 + 2 * n)%nat with (cursor e + 2 * S n)%nat by lia.
      exact H.
Qed.

(** When the loop runs out of attempts, the function draws one candidate
    more and returns it unchecked. *)
Lemma generateRandomPosition_exhausted (existing : list Target) (e : Env) :
  (forall n, (n < MAX_ATTEMPTS)%nat ->
             tooClose (nthCandidate e n) existing = true) ->
  generateRandomPosition existing e =
  (nthCandidate e MAX_ATTEMPTS, skip (2 * MAX_ATTEMPTS + 2) e).
Proof.
  intros H. unfold generateRandomPosition, bind.
  rewrite (search_exhausted _ _ _ H), drawCandidate_eq, skip_skip.
  reflexivity.
Qed.

Lemma generateRandomPosition_accepted (existing : list Target) (e : Env) p e' :
  search MAX_ATTEMPTS existing e = (Some p, e') ->
  generateRandomPosition existing e = (p, e').
Proof.
  intros H. unfold generateRandomPosition, bind. now rewrite H.
Qed.

Lemma tooClose_true (c : Position) (existing : list Target) :
  tooClose c existing = true <-> near c existing.
Proof.
  unfold near. induction existing as [|t0 rest IH]; cbn [tooClose].
  - split; [discriminate|]. intros (t & [] & _).
  - destruct (ltb (distance c (position t0)) MIN_DISTANCE) eqn:E.
    + split; [|reflexivity]. intros _. exists t0. apply ltb_true in E.
      split; [now left|exact E].
    + apply ltb_false in E. rewrite IH. split; intros (t & Hin & Hd).
      * exists t. split; [now right|exact Hd].
      * destruct Hin as [<-|Hin]; [lra|]. exists t. now split.
Qed.

Lemma nthCandidate_0 (e : Env) : nthCandidate e 0 = candidateAt e (cursor e).
Proof. unfold nthCandidate. f_equal. lia. Qed.

Lemma nthCandidate_skip (e : Env) (n : nat) :
  nthCandidate (skip 2 e) n = nthCandidate e (S n).
Proof.
  unfold nthCandidate, candidateAt. cbn [skip cursor rand].
  replace (cursor e + 2 + 2 * n)%nat with (cursor e + 2 * S n)%nat by lia.
  reflexivity.
Qed.

(** The loop returns the first candidate that is not too close. *)
Lemma search_first (fuel : nat) (existing : list Target) :
  forall e,
    match fst (search fuel existing e) with
    | Some p =>
        exists n, (n < fuel)%nat /\ p = nthCandidate e n /\
                  tooClose p existing = false /\
                  forall m, (m < n)%nat -> tooClose (nthCandidate e m) existing = true
    | None =>
        forall n, (n < fuel)%nat -> tooClose (nthCandidate e n) existing = true
    end.
Proof.
  induction fuel as [|fuel IH]; intros e.
  - cbn. intros n Hn. lia.
  - rewrite search_step.
    destruct (tooClose (candidateAt e (cursor e)) existing) eqn:E.
    + specialize (IH (skip 2 e)).
      destruct (fst (search fuel existing (skip 2 e))) as [p|].
      * destruct IH as (n & Hn & Hp & Hfar & Hbefore).
        exists (S n). split; [lia|]. split; [now rewrite <- nthCandidate_skip|].
        split; [exact Hfar|]. intros [|m] Hm.
        -- now rewrite nthCandidate_0.
        -- rewrite <- nthCandidate_skip. apply Hbefore. lia.
      * intros [|n] Hn.
        -- now rewrite nthCandidate_0.
        -- rewrite <- nthCandidate_skip. apply IH. lia.
    + cbn [fst]. exists 0%nat. split; [lia|]. split; [now rewrite nthCandidate_0|].
      split; [exact E|]. intros m Hm. lia.
Qed.

Lemma generateRandomPosition_firstFit (existing : list Target) (e : Env) :
  firstFit existing e (fst (generateRandomPosition existing e)).
Proof.
  pose proof (search_first MAX_ATTEMPTS existing e) as H.
  destruct (search MAX_ATTEMPTS existing e) as [[p|] e1] eqn:E; cbn [fst] in H.
  - rewrite (generateRandomPosition_accepted _ _ _ _ E). cbn [fst]. left.
    destruct H as (n & Hn & Hp & Hfar & Hbefore).
    exists n. split; [exact Hn|]. split; [exact Hp|].
    split; [now apply tooClose_false|].
    intros m Hm. apply tooClose_true. now apply Hbefore.
  - rewrite (generateRandomPosition_exhausted _ _ H). cbn [fst]. right.
    split; [|reflexivity]. intros n Hn. apply tooClose_true. now apply H.
Qed.

Lemma search_env (fuel : nat) (existing : list Target) :
  forall e, exists k, snd (search fuel existing e) = skip k e.
Proof.
  induction fuel as [|fuel IH]; intros e.
  - exists 0%nat. cbn. now rewrite skip_0.
  - rewrite search_step. destruct (tooClose _ _).
    + destruct (IH (skip 2 e)) as [k Hk]. exists (2 + k)%nat.
      now rewrite Hk, skip_skip.
    + exists 2%nat. reflexivity.
Qed.

(** A call reads random numbers and nothing else. *)
Lemma generateRandomPosition_env (existing : list Target) (e : Env) :
  exists k, snd (generateRandomPosition existing e) = skip k e.
Proof.
  unfold generateRandomPosition, bind.
  destruct (search_env MAX_ATTEMPTS existing e) as [k Hk].
  destruct (search MAX_ATTEMPTS existing e) as [[p|] e']; cbn [snd] in *; subst e'.
  - now exists k.
  - rewrite drawCandidate_eq. cbn [snd]. exists (k + 2)%nat. apply skip_skip.
Qed.

Lemma skip_unit_interval (k : nat) (e : Env) :
  unit_interval e -> unit_interval (skip k e).
Proof. intros H j. apply H. Qed.

End Generator.

Section GeneratorCrowded.
Import JS TargetManager Examples.

Lemma sqrt_lt_MIN_DISTANCE (s : R) : 0 <= s < 6.25 -> sqrt s < MIN_DISTANCE.
Proof.
  intros H. unfold MIN_DISTANCE.
  replace 2.5 with (sqrt (2.5 * 2.5)) by (apply sqrt_square; lra).
  apply sqrt_lt_1_alt. lra.
Qed.

Lemma square_bound (d : R) : -1.5 <= d <= 1.5 -> 0 <= d * d <= 2.25.
Proof.
  intros H. split; [apply Rle_0_sqr|].
  assert (0 <= (1.5 - d) * (d + 1.5)) by (apply Rmult_le_pos; lra). lra.
Qed.

Lemma sqrt_ge_MIN_DISTANCE (s : R) : 6.25 <= s -> MIN_DISTANCE <= sqrt s.
Proof.
  intros H. unfold MIN_DISTANCE.
  replace 2.5 with (sqrt (2.5 * 2.5)) by (apply sqrt_square; lra).
  apply sqrt_le_1_alt. lra.
Qed.

Lemma near_is_tooClose (dx dy dz : R) :
  -1.5 <= dx <= 1.5 -> -1.5 <= dy <= 1.5 -> dz = 0 ->
  sqrt (dx * dx + dy * dy + dz * dz) < MIN_DISTANCE.
Proof.
  intros Hx Hy ->. apply sqrt_lt_MIN_DISTANCE.
  pose proof (square_bound dx Hx). pose proof (square_bound dy Hy). lra.
Qed.

(** Whatever [Math.random] returns, the candidate is too close to [crowd]. *)
Lemma crowd_covers (rx ry : R) :
  0 <= rx < 1 -> 0 <= ry < 1 ->
  tooClose (mkPos (rx * 6 - 3) (ry * 3 + 1.5) 8) crowd = true.
Proof.
  intros Hx Hy. unfold crowd. cbn [tooClose position].
  assert (Hdy : -1.5 <= ry * 3 + 1.5 - 3 <= 1.5) by lra.
  assert (Hdz : 8 - 8 = 0) by lra.
  destruct (Rlt_dec rx (1 / 2)) as [Hlt|Hge].
  - assert (Hdx : -1.5 <= rx * 6 - 3 - -1.5 <= 1.5) by lra.
    pose proof (near_is_tooClose _ _ _ Hdx Hdy Hdz) as H.
    apply ltb_true in H. unfold distance; cbn [px py pz]. now rewrite H.
  - apply Rnot_lt_le in Hge.
    assert (Hdx : -1.5 <= rx * 6 - 3 - 1.5 <= 1.5) by lra.
    pose proof (near_is_tooClose _ _ _ Hdx Hdy Hdz) as H.
    apply ltb_true in H. unfold distance; cbn [px py pz]. rewrite H.
    match goal with |- (if ?c then _ else _) = _ => destruct c end; reflexivity.
Qed.

Lemma crowdedEnv_unit_interval : unit_interval crowdedEnv.
Proof.
  intros k. unfold crowdedEnv; cbn [rand]. destruct (k <? 40)%nat; lra.
Qed.

Lemma crowded_candidate (n : nat) :
  (n < MAX_ATTEMPTS)%nat -> nthCandidate crowdedEnv n = mkPos 0 3 8.
Proof.
  unfold MAX_ATTEMPTS. intros Hn.
  unfold nthCandidate, candidateAt, crowdedEnv; cbn [rand cursor].
  assert (H1 : (0 + 2 * n <? 40)%nat = true) by (apply Nat.ltb_lt; lia).
  assert (H2 : (0 + 2 * n + 1 <? 40)%nat = true) by (apply Nat.ltb_lt; lia).
  rewrite H1, H2. f_equal; lra.
Qed.

Lemma crowded_last_candidate :
  nthCandidate crowdedEnv MAX_ATTEMPTS = mkPos (-3) 1.5 8.
Proof.
  unfold nthCandidate, candidateAt, crowdedEnv, MAX_ATTEMPTS; cbn [rand cursor].
  replace (0 + 2 * 20 <? 40)%nat with false by reflexivity.
  replace (0 + 2 * 20 + 1 <? 40)%nat with false by reflexivity.
  f_equal; lra.
Qed.

(** C1, on the code: with the two targets of [crowd] live, whatever values
    [Math.random] returns, each of the twenty candidates of the loop is too
    close; the function then reads two more random numbers, the 41st and the
    42nd of the call, and returns the candidate made of them, a 21st one,
    where the comment in the source has it use the last position generated. *)
Theorem generateRandomPosition_draws_a_21st_candidate (e : Env) :
  unit_interval e ->
  Forall (fun n => tooClose (nthCandidate e n) crowd = true) (seq 0 MAX_ATTEMPTS) /\
  generateRandomPosition crowd e = (nthCandidate e 20, skip 42 e).
Proof.
  intros He.
  assert (Hall : forall n, tooClose (nthCandidate e n) crowd = true).
  { intros n. unfold nthCandidate, candidateAt. apply crowd_covers; apply He. }
  split.
  - apply Forall_forall. intros n _. apply Hall.
  - now rewrite generateRandomPosition_exhausted by (intros; apply Hall).
Qed.

(** The same at [crowdedEnv]: the twentieth candidate is (0, 3, 8), the
    position returned is (-3, 1.5, 8). *)
Lemma generateRandomPosition_draws_a_21st_candidate_witness :
  unit_interval crowdedEnv /\
  nthCandidate crowdedEnv 19 = mkPos 0 3 8 /\
  generateRandomPosition crowd crowdedEnv = (mkPos (-3) 1.5 8, skip 42 crowdedEnv) /\
  px (fst (generateRandomPosition crowd crowdedEnv)) <> px (nthCandidate crowdedEnv 19).
Proof.
  pose proof (generateRandomPosition_draws_a_21st_candidate
                crowdedEnv crowdedEnv_unit_interval) as [_ Hgen].
  assert (H19 : nthCandidate crowdedEnv 19 = mkPos 0 3 8)
    by (apply crowded_candidate; unfold MAX_ATTEMPTS; lia).
  assert (H20 : nthCandidate crowdedEnv 20 = mkPos (-3) 1.5 8)
    by apply crowded_last_candidate.
  rewrite Hgen, H19, H20. cbn [fst px].
  repeat split; try apply crowdedEnv_unit_interval; lra.
Defined.

End GeneratorCrowded.

(** ** Separation of what the generator accepts *)

Section Separation.
Import JS TargetManager.

Lemma distance_sym (a b : Position) : distance a b = distance b a.
Proof. unfold distance. f_equal. ring. Qed.

Lemma accepted_inv (existing : list Target) (e : Env) :
  accepted existing e ->
  exists p e', search MAX_ATTEMPTS existing e = (Some p, e') /\
               generateRandomPosition existing e = (p, e') /\
               tooClose p existing = false.
Proof.
  unfold accepted. intros H.
  destruct (search MAX_ATTEMPTS existing e) as [[p|] e'] eqn:E; [|now elim H].
  exists p, e'. repeat split.
  - now apply generateRandomPosition_accepted.
  - eapply search_Some; eauto.
Qed.

Lemma separated_nil : separated [].
Proof. intros [|i] j a b _ H; discriminate. Qed.

(** A target that keeps its distance from all the others can join them. *)
Lemma separated_snoc (l : list Target) (t : Target) :
  separated l ->
  (forall t', In t' l -> MIN_DISTANCE <= distance (position t) (position t')) ->
  separated (l ++ [t]).
Proof.
  intros Hl Ht i j a b Hij Ha Hb.
  destruct (Nat.lt_ge_cases i (List.length l)) as [Hi|Hi];
    destruct (Nat.lt_ge_cases j (List.length l)) as [Hj|Hj].
  - rewrite nth_error_app1 in Ha, Hb by assumption. eauto.
  - rewrite nth_error_app1 in Ha by assumption.
    rewrite nth_error_app2 in Hb by assumption.
    destruct (j - List.length l)%nat as [|k]; [|destruct k; discriminate].
    inversion Hb; subst b. rewrite distance_sym.
    apply Ht. eapply nth_error_In; eauto.
  - rewrite nth_error_app2 in Ha by assumption.
    rewrite nth_error_app1 in Hb by assumption.
    destruct (i - List.length l)%nat as [|k]; [|destruct k; discriminate].
    inversion Ha; subst a. apply Ht. eapply nth_error_In; eauto.
  - rewrite nth_error_app2 in Ha, Hb by assumption.
    destruct (i - List.length l)%nat as [|k] eqn:Ei; [|destruct k; discriminate].
    destruct (j - List.length l)%nat as [|k] eqn:Ej; [|destruct k; discriminate].
    lia.
Qed.

Lemma spawnLoop_separated (n : nat) :
  forall i initialTargets e,
    separated initialTargets ->
    settled n i initialTargets e ->
    separated (fst (spawnLoop n i initialTargets e)).
Proof.
  induction n as [|n IH]; intros i l e Hsep Hset.
  - exact Hsep.
  - cbn [spawnLoop settled] in *.
    unfold bind, Date_now, Math_random in *. cbn [fst snd] in *.
    destruct Hset as [Hacc Hset].
    destruct (accepted_inv _ _ Hacc) as (p & e' & _ & Hgen & Hfar).
    rewrite Hgen in *. apply IH; [|exact Hset].
    apply separated_snoc; [exact Hsep|].
    now apply tooClose_false.
Qed.

(** C5: a position accepted within the cap of 20 attempts is at distance
    2.5 or more from every existing target; and in a batch spawned by the
    effect of a mode other than pulse in which no call ran out of attempts,
    every two distinct targets are at distance 2.5 or more. *)
Theorem accepted_positions_are_separated
  (existing : list Target) (gameMode : GameMode) (st : State) (e : Env) :
  (accepted existing e ->
   Forall (fun t => MIN_DISTANCE
                    <= distance (fst (generateRandomPosition existing e)) (position t))
          existing) /\
  (isPulse gameMode = false ->
   settled (spawnCount gameMode) 0 [] e ->
   separated (targets (fst (spawnEffect gameMode st e)))).
Proof.
  split.
  - intros Hacc. destruct (accepted_inv _ _ Hacc) as (p & e' & _ & Hgen & Hfar).
    rewrite Hgen. cbn [fst]. apply Forall_forall. now apply tooClose_false.
  - intros Hmode Hset. unfold spawnEffect. rewrite Hmode. unfold bind.
    pose proof (spawnLoop_separated _ _ _ _ separated_nil Hset) as H.
    destruct (spawnLoop (spawnCount gameMode) 0 [] e) as [l e'].
    exact H.
Qed.

End Separation.

Section SeparationExample.
Import JS TargetManager Examples.

Lemma search_first_try (existing : list Target) (e : Env) :
  tooClose (candidateAt e (cursor e)) existing = false ->
  search MAX_ATTEMPTS existing e = (Some (candidateAt e (cursor e)), skip 2 e).
Proof.
  intros H. unfold MAX_ATTEMPTS. now rewrite search_step, H.
Qed.

Lemma spread_candidate_1 :
  candidateAt spreadEnv 1 = mkPos (-3) 1.5 8.
Proof. unfold candidateAt, spreadEnv, envOf; cbn [rand nth Nat.add]. f_equal; lra. Qed.

Lemma spread_candidate_2 :
  candidateAt spreadEnv 4 = mkPos 0 4 8.
Proof. unfold candidateAt, spreadEnv, envOf; cbn [rand nth Nat.add]. f_equal; lra. Qed.

Lemma spread_candidate_3 :
  candidateAt spreadEnv 7 = mkPos 2 1.5 8.
Proof. unfold candidateAt, spreadEnv, envOf; cbn [rand nth Nat.add]. f_equal; lra. Qed.

Lemma far_is_not_tooClose (c : Position) (existing : list Target) :
  Forall (fun t => 6.25 <= (px c - px (position t)) * (px c - px (position t))
                           + (py c - py (position t)) * (py c - py (position t))
                           + (pz c - pz (position t)) * (pz c - pz (position t)))
         existing ->
  tooClose c existing = false.
Proof.
  intros H. apply tooClose_false. intros t Hin.
  rewrite Forall_forall in H. apply sqrt_ge_MIN_DISTANCE. now apply H.
Qed.

Lemma spread_step_1 :
  search MAX_ATTEMPTS [] (skip 1 spreadEnv) = (Some (mkPos (-3) 1.5 8), skip 3 spreadEnv).
Proof.
  rewrite search_first_try by reflexivity.
  cbn [cursor skip spreadEnv envOf Nat.add]. rewrite skip_skip.
  f_equal. f_equal. apply spread_candidate_1.
Qed.

Lemma spread_step_2 (i1 : R) :
  search MAX_ATTEMPTS [mkTarget i1 (mkPos (-3) 1.5 8)] (skip 1 (skip 3 spreadEnv))
  = (Some (mkPos 0 4 8), skip 6 spreadEnv).
Proof.
  assert (E : candidateAt (skip 1 (skip 3 spreadEnv)) (cursor (skip 1 (skip 3 spreadEnv)))
              = mkPos 0 4 8) by apply spread_candidate_2.
  rewrite search_first_try; rewrite E.
  - rewrite !skip_skip. reflexivity.
  - apply far_is_not_tooClose. repeat constructor. cbn [px py pz position]. lra.
Qed.

Lemma spread_step_3 (i1 i2 : R) :
  search MAX_ATTEMPTS
         [mkTarget i1 (mkPos (-3) 1.5 8); mkTarget i2 (mkPos 0 4 8)]
         (skip 1 (skip 6 spreadEnv))
  = (Some (mkPos 2 1.5 8), skip 9 spreadEnv).
Proof.
  assert (E : candidateAt (skip 1 (skip 6 spreadEnv)) (cursor (skip 1 (skip 6 spreadEnv)))
              = mkPos 2 1.5 8) by apply spread_candidate_3.
  rewrite search_first_try; rewrite E.
  - rewrite !skip_skip. reflexivity.
  - apply far_is_not_tooClose. repeat constructor; cbn [px py pz position]; lra.
Qed.

Lemma spread_settled : settled 3 0 [] spreadEnv.
Proof.
  cbn [settled]. unfold Date_now, Math_random, accepted.
  rewrite (generateRandomPosition_accepted _ _ _ _ spread_step_1), spread_step_1.
  split; [discriminate|]. cbn [app].
  rewrite (generateRandomPosition_accepted _ _ _ _ (spread_step_2 _)), spread_step_2.
  split; [discriminate|]. cbn [app].
  rewrite (generateRandomPosition_accepted _ _ _ _ (spread_step_3 _ _)), spread_step_3.
  split; [discriminate|]. exact I.
Qed.

(** At [spreadEnv]: a candidate accepted next to one target, and a settled
    batch of three in mode normal. *)
Lemma accepted_positions_are_separated_witness :
  accepted [mkTarget 0 (mkPos (-3) 1.5 8)] (skip 4 spreadEnv) /\
  Forall (fun t => MIN_DISTANCE
                   <= distance (fst (generateRandomPosition
                                       [mkTarget 0 (mkPos (-3) 1.5 8)]
                                       (skip 4 spreadEnv)))
                               (position t))
         [mkTarget 0 (mkPos (-3) 1.5 8)] /\
  settled (spawnCount normal) 0 [] spreadEnv /\
  separated (targets (fst (spawnEffect normal emptyState spreadEnv))).
Proof.
  assert (Hacc : accepted [mkTarget 0 (mkPos (-3) 1.5 8)] (skip 4 spreadEnv)).
  { unfold accepted.
    replace (skip 4 spreadEnv) with (skip 1 (skip 3 spreadEnv))
      by (now rewrite skip_skip).
    rewrite spread_step_2. discriminate. }
  pose proof (accepted_positions_are_separated
                [mkTarget 0 (mkPos (-3) 1.5 8)] normal emptyState
                (skip 4 spreadEnv)) as [H1 _].
  pose proof (accepted_positions_are_separated
                [] normal emptyState spreadEnv) as [_ H2].
  split; [exact Hacc|].
  split; [exact (H1 Hacc)|].
  split; [exact spread_settled|].
  exact (H2 eq_refl spread_settled).
Defined.

End SeparationExample.

(** ** Hit and timeout: one-for-one replacement *)

Section Replacement.
Import JS TargetManager.

Lemma handleTargetTimeout_eq (targetId : R) (prev : list Target) :
  handleTargetTimeout targetId prev = handleTargetHit targetId prev.
Proof. reflexivity. Qed.

Lemma isLive_true (targetId : R) (prev : list Target) :
  isLive targetId prev = true <-> In targetId (map id prev).
Proof.
  unfold isLive. rewrite existsb_exists, in_map_iff.
  split; intros (t & H1 & H2).
  - exists t. split; [now apply eqb_true|assumption].
  - exists t. split; [assumption|now apply eqb_true].
Qed.

Lemma isLive_false (targetId : R) (prev : list Target) :
  isLive targetId prev = false <-> ~ In targetId (map id prev).
Proof.
  rewrite <- isLive_true. destruct (isLive targetId prev); split; intros H;
    try discriminate; try reflexivity; try (now elim H); now intros.
Qed.






(** What a call on a live id returns. *)
Lemma handleTargetHit_live (targetId : R) (prev : list Target) (e : Env) :
  isLive targetId prev = true ->
  handleTargetHit targetId prev e =
  (withoutId targetId prev
     ++ [mkTarget (IZR (clock e) + rand e (cursor e))
                  (fst (generateRandomPosition (withoutId targetId prev) (skip 1 e)))],
   snd (generateRandomPosition (withoutId targetId prev) (skip 1 e))).
Proof.
  intros H. unfold handleTargetHit. rewrite H.
  unfold bind, Date_now, Math_random, ret.
  now destruct (generateRandomPosition _ _).
Qed.

Lemma handleTargetHit_stale (targetId : R) (prev : list Target) (e : Env) :
  isLive targetId prev = false ->
  handleTargetHit targetId prev e = (prev, e).
Proof. intros H. unfold handleTargetHit. now rewrite H. Qed.



End Replacement.

Section ReplacementExample.
Import JS TargetManager Examples.



Lemma trio_stale_7 : isLive 7 trio = false.
Proof.
  apply isLive_false. unfold trio; cbn [map id In].
  intros H; repeat (destruct H as [H|H]; [lra|]); exact H.
Qed.





End ReplacementExample.

(** ** The score handler of the application *)

Section Score.
Import JS.

(** C10: [handleTargetHit] of the application adds 1 to the score whatever
    the id, mounted manager or not; when the id is not live in the manager,
    the live collection is left as it is while the score has still gone up
    by 1. *)
Theorem score_increments_unconditionally
  (app : App.State) (targetId : R) (e : Env) :
  App.score (fst (App.handleTargetHit targetId app e)) = (App.score app + 1)%Z /\
  (forall prev,
     App.targetManagerRef app = Some prev ->
     TargetManager.isLive targetId prev = false ->
     App.targetManagerRef (fst (App.handleTargetHit targetId app e)) = Some prev /\
     App.score (fst (App.handleTargetHit targetId app e)) = (App.score app + 1)%Z).
Proof.
  assert (Hscore : App.score (fst (App.handleTargetHit targetId app e))
                   = (App.score app + 1)%Z).
  { unfold App.handleTargetHit.
    destruct (App.targetManagerRef app) as [prev|]; [|reflexivity].
    unfold bind. now destruct (TargetManager.handleTargetHit targetId prev e). }
  split; [exact Hscore|].
  intros prev Href Hstale. split; [|exact Hscore].
  unfold App.handleTargetHit. rewrite Href. unfold bind.
  now rewrite (handleTargetHit_stale _ _ _ Hstale).
Qed.

(** A hit reported for the id 7, which is not live in [trio], at score 4. *)
Lemma score_increments_unconditionally_witness :
  TargetManager.isLive 7 Examples.trio = false /\
  App.targetManagerRef
    (fst (App.handleTargetHit 7 (App.mkApp 4 0 (Some Examples.trio)) Examples.halfEnv))
  = Some Examples.trio /\
  App.score
    (fst (App.handleTargetHit 7 (App.mkApp 4 0 (Some Examples.trio)) Examples.halfEnv))
  = 5%Z.
Proof.
  destruct (score_increments_unconditionally
              (App.mkApp 4 0 (Some Examples.trio)) 7 Examples.halfEnv) as [_ H].
  split; [exact trio_stale_7|].
  exact (H Examples.trio eq_refl trio_stale_7).
Defined.

End Score.

(** ** The hit resolver *)

Section HitResolver.
Import Player.

Lemma keep_target (i : Intersection) : isTarget (object i) = true -> keep i = true.
Proof. unfold keep. now intros ->. Qed.

(** C2, on the code: a shot that meets the left wall, or the right wall,
    and nothing else ends on that wall, which is the object reported
    ([HIT left-wall]), where the floor and the back wall, which the filter
    names, are dropped and the same shot is a miss. *)
Theorem side_walls_are_reported
  (onTargetHit : bool) (ray : Three.Ray) (d : R) (p : Three.Vector3) :
  handleShoot onTargetHit ray [mkHit d p left_wall]
  = mkShot None None [HIT "left-wall"] p (Some left_wall) /\
  handleShoot onTargetHit ray [mkHit d p right_wall]
  = mkShot None None [HIT "right-wall"] p (Some right_wall) /\
  handleShoot onTargetHit ray [mkHit d p floor]
  = mkShot None None [MISS] (Three.at_ ray 100) None /\
  handleShoot onTargetHit ray [mkHit d p back_wall]
  = mkShot None None [MISS] (Three.at_ ray 100) None.
Proof. repeat split. Qed.

Lemma nearestFirst_filter (f : Intersection -> bool) (l : list Intersection) :
  nearestFirst l -> nearestFirst (filter f l).
Proof.
  unfold nearestFirst. induction 1 as [|a l Hl IH Ha]; cbn [filter].
  - constructor.
  - destruct (f a); [|exact IH]. constructor; [exact IH|].
    rewrite Forall_forall in *. intros x Hx. apply filter_In in Hx. now apply Ha.
Qed.

Lemma at_length (ray : Three.Ray) (t : R) :
  0 <= t -> Three.length (Three.direction ray) = 1 ->
  Three.length (Three.sub (Three.at_ ray t) (Three.origin ray)) = t.
Proof.
  intros Ht. unfold Three.length, Three.sub, Three.at_. cbn [Three.vx Three.vy Three.vz].
  set (dx := Three.vx (Three.direction ray)).
  set (dy := Three.vy (Three.direction ray)).
  set (dz := Three.vz (Three.direction ray)).
  set (ox := Three.vx (Three.origin ray)).
  set (oy := Three.vy (Three.origin ray)).
  set (oz := Three.vz (Three.origin ray)).
  intros Hunit.
  replace ((ox + dx * t - ox) * (ox + dx * t - ox)
           + (oy + dy * t - oy) * (oy + dy * t - oy)
           + (oz + dz * t - oz) * (oz + dz * t - oz))
    with ((t * t) * (dx * dx + dy * dy + dz * dz)) by ring.
  rewrite sqrt_mult_alt by (apply Rle_0_sqr).
  rewrite Hunit, sqrt_square by assumption. ring.
Qed.

(** C9: when the filter retains no intersection, the shot is a miss, nothing
    is reported hit, and the laser ends at [ray.at(100)], the origin moved by
    100 times the direction, which is 100 away from the origin for a
    direction of length 1; when the first retained intersection is not a
    target, it is the nearest retained one, the laser ends at its point and
    no target hit is reported. *)
Theorem miss_and_environment_end_points
  (onTargetHit : bool) (ray : Three.Ray) (intersects : list Intersection) :
  (filter keep intersects = [] ->
   handleShoot onTargetHit ray intersects
   = mkShot None None [MISS] (Three.at_ ray 100) None /\
   Three.at_ ray 100
   = Three.mkV (Three.vx (Three.origin ray) + Three.vx (Three.direction ray) * 100)
               (Three.vy (Three.origin ray) + Three.vy (Three.direction ray) * 100)
               (Three.vz (Three.origin ray) + Three.vz (Three.direction ray) * 100) /\
   (Three.length (Three.direction ray) = 1 ->
    Three.length (Three.sub (laserEnd (handleShoot onTargetHit ray intersects))
                            (Three.origin ray)) = 100)) /\
  (forall firstHit rest,
     nearestFirst intersects ->
     filter keep intersects = firstHit :: rest ->
     isTarget (object firstHit) = false ->
     Forall (fun c => distance firstHit <= distance c) rest /\
     handleShoot onTargetHit ray intersects
     = mkShot None None [HIT (objectName (object firstHit))]
              (point firstHit) (Some (object firstHit))).
Proof.
  split.
  - intros Hnone.
    assert (Hshot : handleShoot onTargetHit ray intersects
                    = mkShot None None [MISS] (Three.at_ ray 100) None)
      by (unfold handleShoot; now rewrite Hnone).
    repeat split; [exact Hshot|].
    intros Hunit. rewrite Hshot. cbn [laserEnd]. apply at_length; [lra|exact Hunit].
  - intros firstHit rest Hsorted Hfirst Hnot. split.
    + apply (nearestFirst_filter keep) in Hsorted. rewrite Hfirst in Hsorted.
      now apply StronglySorted_inv in Hsorted.
    + unfold handleShoot. now rewrite Hfirst, Hnot.
Qed.

End HitResolver.

Section HitResolverExample.
Import Player Examples.

Lemma aim_unit : Three.length (Three.direction aim) = 1.
Proof.
  unfold Three.length, aim; cbn [Three.direction Three.vx Three.vy Three.vz].
  replace (0 * 0 + 0 * 0 + 1 * 1) with 1 by ring. apply sqrt_1.
Qed.

(** A shot that meets only the floor, and a shot that meets the ceiling in
    front of a target. *)
Lemma miss_and_environment_end_points_witness :
  filter keep [mkHit 20 (Three.mkV 0 0 20) floor] = [] /\
  Three.length (Three.direction aim) = 1 /\
  handleShoot true aim [mkHit 20 (Three.mkV 0 0 20) floor]
  = mkShot None None [MISS] (Three.at_ aim 100) None /\
  Three.length
    (Three.sub (laserEnd (handleShoot true aim [mkHit 20 (Three.mkV 0 0 20) floor]))
               (Three.origin aim)) = 100 /\
  nearestFirst [mkHit 5 (Three.mkV 0 10 5) ceiling;
                mkHit 9 (Three.mkV 0 3 8) (targetSphere 1)] /\
  handleShoot true aim [mkHit 5 (Three.mkV 0 10 5) ceiling;
                        mkHit 9 (Three.mkV 0 3 8) (targetSphere 1)]
  = mkShot None None [HIT "ceiling"] (Three.mkV 0 10 5) (Some ceiling).
Proof.
  assert (Hsorted : nearestFirst [mkHit 5 (Three.mkV 0 10 5) ceiling;
                                  mkHit 9 (Three.mkV 0 3 8) (targetSphere 1)]).
  { unfold nearestFirst. repeat constructor. cbn [distance]. lra. }
  destruct (miss_and_environment_end_points
              true aim [mkHit 20 (Three.mkV 0 0 20) floor]) as [Hmiss _].
  destruct (Hmiss eq_refl) as (Hshot & _ & Hlen).
  destruct (miss_and_environment_end_points
              true aim [mkHit 5 (Three.mkV 0 10 5) ceiling;
                        mkHit 9 (Three.mkV 0 3 8) (targetSphere 1)]) as [_ Henv].
  destruct (Henv _ _ Hsorted eq_refl eq_refl) as [_ Hceiling].
  split; [reflexivity|]. split; [exact aim_unit|]. split; [exact Hshot|].
  split; [exact (Hlen aim_unit)|]. split; [exact Hsorted|]. exact Hceiling.
Defined.

End HitResolverExample.

(** ** The pulse animation *)

Section Pulse.
Import JS TargetComponent.

Variable props : Props.
Variable memo : Memo.
Hypothesis Hpulse : gameMode props = TargetManager.pulse.

Let speed : R := pulseSpeed memo.

Lemma useFrame_pulse (t d : R) (m : Mesh) (l : R) (h : bool) :
  useFrame props memo t d (mkRefs (Some m) l h) =
  (mkRefs (Some (setScale (sin (l + d * speed) * 1.5) m))
          (l + d * speed) (h || ltb PI (l + d * speed)),
   if ltb PI (l + d * speed) && negb h && onTargetTimeout props
   then Some (id props) else None).
Proof.
  unfold useFrame, strafe. cbn [meshRef lifeRef hasTimedOut]. rewrite Hpulse.
  fold speed. destruct (ltb PI (l + d * speed)), h, (onTargetTimeout props);
    reflexivity.
Qed.

Lemma lifeAt_0 (t d : R) (rest : list (R * R)) :
  lifeAt speed ((t, d) :: rest) 0 = d * speed.
Proof. unfold lifeAt. cbn [firstn lifeClock]. ring. Qed.

Lemma lifeAt_S (t d : R) (rest : list (R * R)) (k : nat) :
  lifeAt speed ((t, d) :: rest) (S k) = d * speed + lifeAt speed rest k.
Proof. reflexivity. Qed.

Lemma run_length (frames : list (R * R)) :
  forall refs, List.length (run props memo frames refs) = List.length frames.
Proof.
  induction frames as [|[t d] rest IH]; intros refs; cbn [run List.length].
  - reflexivity.
  - now rewrite IH.
Qed.

(** A run started with the life clock at [l] and the flag at [h]. *)
Lemma run_pulse (frames : list (R * R)) :
  forall (m : Mesh) (l : R) (h : bool) (k : nat) (out : Refs * option R),
    nth_error (run props memo frames (mkRefs (Some m) l h)) k = Some out ->
    lifeRef (fst out) = l + lifeAt speed frames k /\
    meshRef (fst out) = Some (setScale (sin (l + lifeAt speed frames k) * 1.5) m) /\
    (snd out = None \/ snd out = Some (id props)) /\
    (h = true -> snd out = None) /\
    (h = false ->
     (snd out <> None <->
      onTargetTimeout props = true /\
      PI < l + lifeAt speed frames k /\
      forall j, (j < k)%nat -> ~ PI < l + lifeAt speed frames j)).
Proof.
  induction frames as [|[t d] rest IH]; intros m l h k out Hk.
  - destruct k; discriminate.
  - cbn [run] in Hk. rewrite useFrame_pulse in Hk. cbn [fst] in Hk.
    destruct k as [|k]; cbn [nth_error] in Hk.
    + inversion Hk; subst out; clear Hk. cbn [fst snd lifeRef meshRef].
      rewrite lifeAt_0.
      split; [reflexivity|]. split; [reflexivity|].
      destruct (ltb PI (l + d * speed)) eqn:E; destruct h;
        destruct (onTargetTimeout props); cbn [andb negb];
        (split; [first [left; reflexivity | right; reflexivity]|]);
        (split; [intros Hh; first [reflexivity | discriminate Hh]|]);
        intros Hh; try discriminate Hh;
        (split; [intros Hs | intros (Ht & Hlt & _)]);
        try congruence;
        try (apply ltb_false in E; lra).
      apply ltb_true in E. repeat split; [exact E|]. intros j Hj. lia.
    + destruct (IH _ _ _ _ _ Hk) as (Hlife & Hmesh & Hsig & Hset & Hunset).
      rewrite lifeAt_S.
      replace (l + (d * speed + lifeAt speed rest k))
        with (l + d * speed + lifeAt speed rest k) by ring.
      split; [exact Hlife|]. split; [exact Hmesh|]. split; [exact Hsig|].
      split.
      * intros ->. apply Hset. reflexivity.
      * intros ->. cbn [orb] in Hset, Hunset.
        destruct (ltb PI (l + d * speed)) eqn:E.
        -- apply ltb_true in E. rewrite (Hset eq_refl). split; [intros Hs; now elim Hs|].
           intros (_ & _ & Hfirst). exfalso.
           apply (Hfirst 0%nat); [lia|]. now rewrite lifeAt_0.
        -- apply ltb_false in E. rewrite (Hunset eq_refl). clear Hset Hunset.
           split; intros (Ht & Hlt & Hfirst); (split; [exact Ht|]);
             (split; [exact Hlt|]); intros j Hj.
           ++ destruct j as [|j]; [rewrite lifeAt_0; lra|].
              rewrite lifeAt_S.
              replace (l + (d * speed + lifeAt speed rest j))
                with (l + d * speed + lifeAt speed rest j) by ring.
              apply Hfirst. lia.
           ++ specialize (Hfirst (S j) ltac:(lia)). rewrite lifeAt_S in Hfirst.
              replace (l + (d * speed + lifeAt speed rest j))
                with (l + d * speed + lifeAt speed rest j) in Hfirst by ring.
              exact Hfirst.
Qed.

(** The flag is set from the first frame on at which the life clock is
    above pi. *)
Lemma run_pulse_flag (frames : list (R * R)) :
  forall (m : Mesh) (l : R) (h : bool) (k : nat) (out : Refs * option R),
    nth_error (run props memo frames (mkRefs (Some m) l h)) k = Some out ->
    (hasTimedOut (fst out) = true <->
     h = true \/ exists j, (j <= k)%nat /\ PI < l + lifeAt speed frames j).
Proof.
  induction frames as [|[t d] rest IH]; intros m l h k out Hk.
  - destruct k; discriminate.
  - cbn [run] in Hk. rewrite useFrame_pulse in Hk. cbn [fst] in Hk.
    destruct k as [|k]; cbn [nth_error] in Hk.
    + inversion Hk; subst out; clear Hk. cbn [fst hasTimedOut].
      rewrite orb_true_iff, ltb_true. split; intros [H|H]; auto.
      * right. exists 0%nat. rewrite lifeAt_0. auto.
      * destruct H as (j & Hj & H). replace j with 0%nat in H by lia.
        rewrite lifeAt_0 in H. auto.
    + rewrite (IH _ _ _ _ _ Hk), orb_true_iff, ltb_true. clear IH Hk.
      split.
      * intros [[H|H]|(j & Hj & H)]; auto.
        -- right. exists 0%nat. rewrite lifeAt_0. split; [lia|exact H].
        -- right. exists (S j). rewrite lifeAt_S. split; [lia|lra].
      * intros [H|(j & Hj & H)]; auto.
        destruct j as [|j].
        -- rewrite lifeAt_0 in H. auto.
        -- rewrite lifeAt_S in H. right. exists j. split; [lia|lra].
Qed.

End Pulse.

Section PulseTarget.
Import JS TargetComponent.

Lemma useMemos_pulseSpeed (props : Props) (e : Env) :
  gameMode props = TargetManager.pulse ->
  pulseSpeed (fst (useMemos props e)) = rand e (cursor e) * (0.5 - 0.3) + 0.3.
Proof.
  intros H. unfold useMemos. rewrite H. reflexivity.
Qed.


End PulseTarget.

Section PulseExample.
Import JS TargetComponent Examples.

Lemma halfEnv_unit_interval : unit_interval halfEnv.
Proof. intros k. unfold halfEnv; cbn [rand]. lra. Qed.


Lemma PI_above_3 : 3 < PI.
Proof. pose proof PI2_3_2. lra. Qed.


End PulseExample.

(** ** The spawn effect and its timers *)

Section Timers.
Import JS TargetManager.

Lemma enqueue_length (t : Timer) (queue : list Timer) :
  List.length (enqueue t queue) = S (List.length queue).
Proof.
  induction queue as [|t' rest IH]; cbn [enqueue List.length]; [reflexivity|].
  destruct (due t' <=? due t)%Z; cbn [List.length]; [now rewrite IH|reflexivity].
Qed.

Lemma enqueue_last (t : Timer) (queue : list Timer) :
  Forall (fun t' => (due t' <= due t)%Z) queue -> enqueue t queue = queue ++ [t].
Proof.
  induction 1 as [|t' rest Ht' _ IH]; cbn [enqueue app]; [reflexivity|].
  apply Z.leb_le in Ht'. now rewrite Ht', IH.
Qed.

Lemma scheduleLoop_env (n : nat) :
  forall i queue e, snd (scheduleLoop n i queue e) = e.
Proof.
  induction n as [|n IH]; intros i queue e; cbn [scheduleLoop]; [reflexivity|].
  unfold bind, setTimeout. apply IH.
Qed.

Lemma scheduleLoop_length (n : nat) :
  forall i queue e,
    List.length (fst (scheduleLoop n i queue e)) = (List.length queue + n)%nat.
Proof.
  induction n as [|n IH]; intros i queue e; cbn [scheduleLoop].
  - cbn [ret fst]. lia.
  - unfold bind, setTimeout. rewrite IH, enqueue_length. lia.
Qed.

Lemma scheduleLoop_stagger (e : Env) :
  fst (scheduleLoop 5 0 [] e) = staggerQueue (clock e).
Proof.
  cbn [scheduleLoop]. unfold bind, setTimeout, ret. cbn [fst].
  change (Z.of_nat 0 * 500)%Z with 0%Z. change (Z.of_nat 1 * 500)%Z with 500%Z.
  change (Z.of_nat 2 * 500)%Z with 1000%Z. change (Z.of_nat 3 * 500)%Z with 1500%Z.
  change (Z.of_nat 4 * 500)%Z with 2000%Z.
  rewrite (enqueue_last _ []) by constructor. cbn [app].
  rewrite (enqueue_last _ [_]) by (repeat constructor; cbn [due]; lia). cbn [app].
  rewrite (enqueue_last _ [_; _]) by (repeat constructor; cbn [due]; lia). cbn [app].
  rewrite (enqueue_last _ [_; _; _]) by (repeat constructor; cbn [due]; lia). cbn [app].
  rewrite (enqueue_last _ [_; _; _; _]) by (repeat constructor; cbn [due]; lia).
  reflexivity.
Qed.

Lemma spawnLoop_length (n : nat) :
  forall i initialTargets e,
    List.length (fst (spawnLoop n i initialTargets e))
    = (List.length initialTargets + n)%nat.
Proof.
  induction n as [|n IH]; intros i l e; cbn [spawnLoop].
  - cbn [ret fst]. lia.
  - unfold bind, Date_now, Math_random.
    destruct (generateRandomPosition l _) as [p e'].
    rewrite IH, length_app. cbn [List.length]. lia.
Qed.

(** The callback of a timer adds one target at the end, its position
    generated against the targets already there. *)
Lemma staggeredSpawn_eq (i : nat) (prev : list Target) (e : Env) :
  staggeredSpawn i prev e =
  (prev ++ [mkTarget (IZR (clock e) + rand e (cursor e) + INR i)
                     (fst (generateRandomPosition prev (skip 1 e)))],
   snd (generateRandomPosition prev (skip 1 e))).
Proof.
  unfold staggeredSpawn, bind, Date_now, Math_random, ret.
  now destruct (generateRandomPosition prev (skip 1 e)).
Qed.

Lemma fire_due (tm : Timer) (rest : list Timer) (t : Z) (prev : list Target) (e : Env) :
  (due tm <= t)%Z ->
  fire (tm :: rest) t prev e =
  fire rest t (fst (staggeredSpawn (index tm) prev (snd (setClock (due tm) e))))
              (snd (staggeredSpawn (index tm) prev (snd (setClock (due tm) e)))).
Proof.
  intros H. apply Z.leb_le in H. cbn [fire]. rewrite H. unfold bind.
  cbn [setClock snd]. now destruct (staggeredSpawn _ _ _).
Qed.

Lemma fire_not_due (tm : Timer) (rest : list Timer) (t : Z) (prev : list Target) (e : Env) :
  (t < due tm)%Z -> fire (tm :: rest) t prev e = ((prev, tm :: rest), e).
Proof.
  intros H. apply Z.leb_gt in H. cbn [fire]. now rewrite H.
Qed.

Lemma fire_count (queue : list Timer) (t : Z) :
  forall prev e,
    List.length (fst (fst (fire queue t prev e)))
    = (List.length prev + firedBy t queue)%nat /\
    snd (fst (fire queue t prev e)) = skipn (firedBy t queue) queue.
Proof.
  induction queue as [|tm rest IH]; intros prev e.
  - cbn. split; [lia|reflexivity].
  - cbn [firedBy]. destruct (Z.leb_spec (due tm) t) as [H|H].
    + rewrite (fire_due _ _ _ _ _ H). destruct (IH
        (fst (staggeredSpawn (index tm) prev (snd (setClock (due tm) e))))
        (snd (staggeredSpawn (index tm) prev (snd (setClock (due tm) e)))))
        as [Hlen Hq].
      rewrite Hlen, Hq, staggeredSpawn_eq. cbn [fst skipn].
      rewrite length_app. cbn [List.length]. split; [lia|reflexivity].
    + rewrite (fire_not_due _ _ _ _ _ H). cbn [fst snd skipn]. split; [lia|reflexivity].
Qed.

(** Time passes in steps: advancing to [t'] is advancing to [t] first. *)
Lemma fire_compose (queue : list Timer) (t t' : Z) :
  (t <= t')%Z ->
  forall prev e,
    fire queue t' prev e =
    fire (snd (fst (fire queue t prev e))) t'
         (fst (fst (fire queue t prev e))) (snd (fire queue t prev e)).
Proof.
  intros Ht. induction queue as [|tm rest IH]; intros prev e.
  - reflexivity.
  - destruct (Z.leb_spec (due tm) t) as [H|H].
    + assert (H' : (due tm <= t')%Z) by lia.
      rewrite (fire_due _ _ t _ _ H), (fire_due _ _ t' _ _ H'). apply IH.
    + now rewrite (fire_not_due _ _ t _ _ H).
Qed.

Lemma firedBy_all (t : Z) (queue : list Timer) :
  Forall (fun tm => (due tm <= t)%Z) queue -> firedBy t queue = List.length queue.
Proof.
  induction 1 as [|tm rest H _ IH]; cbn [firedBy List.length]; [reflexivity|].
  apply Z.leb_le in H. now rewrite H, IH.
Qed.

Lemma firedBy_mono (queue : list Timer) (t t' : Z) :
  (t <= t')%Z -> (firedBy t queue <= firedBy t' queue)%nat.
Proof.
  intros Ht. induction queue as [|tm rest IH]; cbn [firedBy]; [lia|].
  destruct (Z.leb_spec (due tm) t); destruct (Z.leb_spec (due tm) t'); lia.
Qed.

Lemma liveAt_length (t : Z) (st : State) (e : Env) :
  List.length (liveAt t st e)
  = (List.length (targets st) + firedBy t (timers st))%nat.
Proof.
  unfold liveAt, advanceTo, bind.
  pose proof (fire_count (timers st) t (targets st) e) as [H _].
  destruct (fire (timers st) t (targets st) e) as [[l q] e'].
  cbn [setClock ret fst targets] in *. exact H.
Qed.

Lemma liveAt_fire (t : Z) (st : State) (e : Env) :
  liveAt t st e = fst (fst (fire (timers st) t (targets st) e)).
Proof.
  unfold liveAt, advanceTo, bind.
  destruct (fire (timers st) t (targets st) e) as [[l q] e'].
  reflexivity.
Qed.

Lemma fire_none (queue : list Timer) (t : Z) (prev : list Target) (e : Env) :
  firedBy t queue = 0%nat -> fire queue t prev e = ((prev, queue), e).
Proof.
  destruct queue as [|tm rest]; [reflexivity|]. cbn [firedBy fire].
  destruct (due tm <=? t)%Z; [discriminate|reflexivity].
Qed.

Lemma envAt_fire (t : Z) (st : State) (e : Env) :
  envAt t st e = snd (setClock t (snd (fire (timers st) t (targets st) e))).
Proof.
  unfold envAt, advanceTo, bind.
  destruct (fire (timers st) t (targets st) e) as [[l q] e'].
  reflexivity.
Qed.

Lemma advanceTo_timers (t : Z) (st : State) (e : Env) :
  timers (fst (advanceTo t st e)) = skipn (firedBy t (timers st)) (timers st).
Proof.
  unfold advanceTo, bind.
  pose proof (fire_count (timers st) t (targets st) e) as [_ H].
  destruct (fire (timers st) t (targets st) e) as [[l q] e'].
  cbn [setClock ret fst snd timers] in *. exact H.
Qed.

Lemma spawnEffect_batch (gameMode : GameMode) (st : State) (e : Env) :
  isPulse gameMode = false ->
  List.length (targets (fst (spawnEffect gameMode st e))) = spawnCount gameMode /\
  timers (fst (spawnEffect gameMode st e)) = timers st.
Proof.
  intros Hmode. unfold spawnEffect. rewrite Hmode. unfold bind.
  pose proof (spawnLoop_length (spawnCount gameMode) 0 [] e) as H.
  destruct (spawnLoop _ _ _ _) as [l e1]. cbn [fst targets timers] in *.
  now split.
Qed.

(** A callback reads random numbers and leaves the clock as it is. *)
Lemma staggeredSpawn_env (i : nat) (prev : list Target) (e : Env) :
  exists k, snd (staggeredSpawn i prev e) = skip k e.
Proof.
  rewrite staggeredSpawn_eq. cbn [snd].
  destruct (generateRandomPosition_env prev (skip 1 e)) as [k Hk].
  exists (1 + k)%nat. now rewrite Hk, skip_skip.
Qed.

Lemma fire_clock (queue : list Timer) (t : Z) :
  forall prev e,
    (clock e <= clock (snd (fire queue t prev e)) <= Z.max (clock e) t)%Z.
Proof.
  induction queue as [|tm rest IH]; intros prev e.
  - cbn. lia.
  - destruct (Z.leb_spec (due tm) t) as [H|H].
    + rewrite (fire_due _ _ _ _ _ H).
      destruct (staggeredSpawn_env (index tm) prev (snd (setClock (due tm) e)))
        as [k Hk].
      rewrite Hk.
      specialize (IH (fst (staggeredSpawn (index tm) prev (snd (setClock (due tm) e))))
                     (skip k (snd (setClock (due tm) e)))).
      cbn [skip clock setClock snd] in IH |- *. lia.
    + rewrite (fire_not_due _ _ _ _ _ H). cbn [snd]. lia.
Qed.

Lemma advanceTo_clock (t : Z) (st : State) (e : Env) :
  clock (snd (advanceTo t st e)) = Z.max (clock e) t.
Proof.
  fold (envAt t st e). rewrite envAt_fire.
  pose proof (fire_clock (timers st) t (targets st) e) as H.
  cbn [setClock snd clock]. lia.
Qed.

Lemma spawnLoop_env (n : nat) :
  forall i initialTargets e, exists k, snd (spawnLoop n i initialTargets e) = skip k e.
Proof.
  induction n as [|n IH]; intros i l e.
  - exists 0%nat. cbn. now rewrite skip_0.
  - cbn [spawnLoop]. unfold bind, Date_now, Math_random.
    destruct (generateRandomPosition_env l (skip 1 e)) as [k Hk].
    destruct (generateRandomPosition l (skip 1 e)) as [p e1]. cbn [snd] in Hk.
    subst e1.
    destruct (IH (S i) (l ++ [mkTarget (IZR (clock e) + rand e (cursor e) + INR i) p])
                 (skip k (skip 1 e))) as [k' Hk'].
    exists (1 + k + k')%nat. now rewrite Hk', !skip_skip.
Qed.

(** The effect leaves the clock as it is. *)
Lemma spawnEffect_clock (gameMode : GameMode) (st : State) (e : Env) :
  clock (snd (spawnEffect gameMode st e)) = clock e.
Proof.
  unfold spawnEffect. destruct (isPulse gameMode); unfold bind.
  - pose proof (scheduleLoop_env (spawnCount gameMode) 0 (timers st) e) as H.
    destruct (scheduleLoop _ _ _ _) as [q e1]. cbn [snd ret] in *. now subst.
  - destruct (spawnLoop_env (spawnCount gameMode) 0 [] e) as [k Hk].
    destruct (spawnLoop _ _ _ _) as [l e1]. cbn [snd ret] in *. now subst.
Qed.

Lemma enqueue_Forall (P : Timer -> Prop) (t : Timer) (queue : list Timer) :
  P t -> Forall P queue -> Forall P (enqueue t queue).
Proof.
  intros Ht. induction 1 as [|t' rest Ht' Hrest IH]; cbn [enqueue].
  - now constructor.
  - destruct (due t' <=? due t)%Z; repeat constructor; auto.
Qed.

(** The timers the loop registers are due 500 times their index after the
    clock. *)
Lemma scheduleLoop_due (n : nat) (t : Z) :
  forall i queue e,
    Forall (fun tm => (due tm <= t)%Z) queue ->
    (forall j, (i <= j < i + n)%nat -> (clock e + Z.of_nat j * 500 <= t)%Z) ->
    Forall (fun tm => (due tm <= t)%Z) (fst (scheduleLoop n i queue e)).
Proof.
  induction n as [|n IH]; intros i queue e Hq Hnew; cbn [scheduleLoop].
  - exact Hq.
  - unfold bind, setTimeout. apply IH.
    + apply enqueue_Forall; [|exact Hq]. cbn [due]. apply Hnew. lia.
    + intros j Hj. apply Hnew. lia.
Qed.

(** The step from [t] to the due time of the next timer: the callback runs
    on the targets live at [t], in the environment of [t] with the clock
    at the due time. *)
Lemma fire_next (st : State) (t t' : Z) (e : Env) (tm : Timer) (rest : list Timer) :
  skipn (firedBy t (timers st)) (timers st) = tm :: rest ->
  (t < due tm <= t')%Z ->
  firedBy t' rest = 0%nat ->
  liveAt t' st e
  = fst (staggeredSpawn (index tm) (liveAt t st e)
                        (snd (setClock (due tm) (envAt t st e)))).
Proof.
  intros Hq Hdue Hrest.
  rewrite !liveAt_fire, envAt_fire.
  rewrite (fire_compose (timers st) t t') by lia.
  destruct (fire_count (timers st) t (targets st) e) as [_ Hq1]. rewrite Hq in Hq1.
  destruct (fire (timers st) t (targets st) e) as [[l q1] e1].
  cbn [fst snd] in *. subst q1.
  rewrite fire_due by lia. rewrite (fire_none _ _ _ _ Hrest). cbn [fst].
  f_equal. f_equal. cbn [setClock snd rand cursor clock]. f_equal. lia.
Qed.

End Timers.

Section ModeChange.
Import JS TargetManager.

Ltac decide_due :=
  repeat match goal with
         | |- context [(?a <=? ?b)%Z] => destruct (Z.leb_spec a b); try lia
         end.

Lemma spawnEffect_pulse (st : State) (e : Env) :
  timers st = [] ->
  spawnEffect pulse st e = (mkState [] (staggerQueue (clock e)), e).
Proof.
  intros Hq. unfold spawnEffect. cbn [isPulse spawnCount]. unfold bind.
  pose proof (scheduleLoop_stagger e) as H1.
  pose proof (scheduleLoop_env 5 0 [] e) as H2.
  rewrite Hq. destruct (scheduleLoop 5 0 [] e) as [q e']. cbn [fst snd] in *.
  now subst.
Qed.

(** C8, on the code: the effect of a mode change drops the live targets,
    whatever they are, and spawns as many targets as the mode has (3 for
    normal, 3 for strafing, 5 for random_size and 5 for pulse): at once for
    the modes other than pulse, and through as many timers for pulse.  It
    cancels no timer: once every timer has run, the live targets are those
    of this change and one more for each staggered spawn that was still
    pending from an earlier change to pulse, which is more than the count of
    the mode whenever there is one. *)
Theorem mode_change_respawns (gameMode : GameMode) (st : State) (e : Env) :
  let st' := fst (spawnEffect gameMode st e) in
  let e' := snd (spawnEffect gameMode st e) in
  (spawnCount normal = 3 /\ spawnCount strafing = 3 /\
   spawnCount random_size = 5 /\ spawnCount pulse = 5)%nat /\
  spawnEffect gameMode st e = spawnEffect gameMode (mkState [] (timers st)) e /\
  (if isPulse gameMode
   then targets st' = [] /\
        List.length (timers st') = (List.length (timers st) + spawnCount gameMode)%nat
   else List.length (targets st') = spawnCount gameMode /\
        timers st' = timers st) /\
  (forall t,
     Forall (fun tm => (due tm <= t)%Z) (timers st') ->
     List.length (liveAt t st' e')
     = (spawnCount gameMode + List.length (timers st))%nat).
Proof.
  intros st' e'.
  assert (Hshape :
            if isPulse gameMode
            then targets st' = [] /\
                 List.length (timers st')
                 = (List.length (timers st) + spawnCount gameMode)%nat
            else List.length (targets st') = spawnCount gameMode /\
                 timers st' = timers st).
  { unfold st', spawnEffect. destruct (isPulse gameMode); unfold bind.
    - pose proof (scheduleLoop_length (spawnCount gameMode) 0 (timers st) e) as H.
      destruct (scheduleLoop _ _ _ _) as [q e1]. cbn [fst targets timers] in *.
      now split.
    - pose proof (spawnLoop_length (spawnCount gameMode) 0 [] e) as H.
      destruct (spawnLoop _ _ _ _) as [l e1]. cbn [fst targets timers] in *.
      now split. }
  split; [repeat split|]. split; [reflexivity|]. split; [exact Hshape|].
  intros t Hall. rewrite liveAt_length, (firedBy_all _ _ Hall).
  destruct (isPulse gameMode); destruct Hshape as [H1 H2]; rewrite H1, H2;
    cbn [List.length]; lia.
Qed.

Lemma spawnEffect_pulse_eq (st : State) (e : Env) :
  spawnEffect pulse st e = (mkState [] (fst (scheduleLoop 5 0 (timers st) e)), e).
Proof.
  unfold spawnEffect. cbn [isPulse spawnCount]. unfold bind.
  pose proof (scheduleLoop_env 5 0 (timers st) e) as H.
  destruct (scheduleLoop 5 0 (timers st) e) as [q e1]. cbn [fst snd ret] in *.
  now subst.
Qed.

Ltac stagger_step tm rest :=
  apply (fire_next _ _ _ _ tm rest);
  [ unfold staggerQueue; cbn [timers firedBy due]; decide_due; cbn [skipn]; reflexivity
  | cbn [due]; lia
  | cbn [firedBy due]; decide_due; reflexivity ].

(** C7, on the code: set to pulse, the manager empties the collection and
    registers five timers, cancelling none; the size of the collection never
    goes down; and once every timer has run, the live targets are 5 and one
    more for each staggered spawn that was still pending from an earlier
    change to pulse.  With no such spawn pending, the five timers are due 0,
    500, 1000, 1500 and 2000 after the change; the collection is empty before
    the first, holds [k + 1] targets from the timer [k] until the next, and 5
    from the last on; and the timer [k] adds one target to the [k] targets
    that were live just before: its id is [Date.now() + Math.random() + k]
    with the clock at the due time, and its position is generated from the
    draws that follow against these [k] targets and no other, being the
    first of the 20 candidates that is 2.5 or more away from each of them,
    or the candidate drawn next when there is none. *)
Theorem pulse_stagger (st : State) (e : Env) :
  let st' := fst (spawnEffect pulse st e) in
  let e' := snd (spawnEffect pulse st e) in
  let t0 := clock e in
  targets st' = [] /\
  List.length (timers st') = (List.length (timers st) + 5)%nat /\
  (forall t t',
     (t <= t')%Z ->
     (List.length (liveAt t st' e') <= List.length (liveAt t' st' e'))%nat) /\
  (forall t,
     Forall (fun tm => (due tm <= t)%Z) (timers st) ->
     (t0 + 2000 <= t)%Z ->
     List.length (liveAt t st' e') = (5 + List.length (timers st))%nat) /\
  (timers st = [] ->
   timers st' = staggerQueue t0 /\
   (forall t, (t < t0)%Z -> liveAt t st' e' = []) /\
   (forall k t,
      (k <= 4)%nat ->
      (t0 + 500 * Z.of_nat k <= t < t0 + 500 * (Z.of_nat k + 1))%Z ->
      List.length (liveAt t st' e') = S k) /\
   (forall t, (t0 + 2000 <= t)%Z -> List.length (liveAt t st' e') = 5%nat) /\
   (forall k,
      (k <= 4)%nat ->
      let tk := (t0 + 500 * Z.of_nat k)%Z in
      let prev := liveAt (tk - 1) st' e' in
      let env := snd (setClock tk (envAt (tk - 1) st' e')) in
      List.length prev = k /\
      liveAt tk st' e' = fst (staggeredSpawn k prev env) /\
      clock env = tk /\
      exists x,
        liveAt tk st' e' = prev ++ [x] /\
        id x = IZR tk + rand env (cursor env) + INR k /\
        position x = fst (generateRandomPosition prev (skip 1 env)) /\
        firstFit prev (skip 1 env) (position x))).
Proof.
  intros st' e' t0. unfold st', e'. rewrite spawnEffect_pulse_eq.
  cbn [fst snd]. clear st' e'.
  split; [reflexivity|].
  split; [cbn [timers]; apply scheduleLoop_length|].
  split.
  { intros t t' Ht. rewrite !liveAt_length. cbn [targets timers List.length].
    apply firedBy_mono. exact Ht. }
  split.
  { intros t Hold Ht. rewrite liveAt_length. cbn [targets timers List.length].
    rewrite firedBy_all.
    - rewrite scheduleLoop_length. lia.
    - apply scheduleLoop_due; [exact Hold|]. intros j Hj. fold t0. lia. }
  intros Hq. rewrite Hq, scheduleLoop_stagger. fold t0.
  split; [reflexivity|].
  split.
  { intros t Ht. rewrite liveAt_fire. cbn [timers targets]. unfold staggerQueue.
    rewrite fire_not_due by (cbn [due]; lia). reflexivity. }
  split.
  { intros k t Hk Ht. rewrite liveAt_length. cbn [targets timers List.length].
    unfold staggerQueue. cbn [firedBy due].
    destruct k as [|[|[|[|[|k]]]]]; [| | | | |lia];
      cbn [Z.of_nat Pos.of_succ_nat Pos.succ] in Ht; decide_due; try reflexivity. }
  split.
  { intros t Ht. rewrite liveAt_length. cbn [targets timers List.length].
    unfold staggerQueue. cbn [firedBy due]. decide_due; try reflexivity. }
  intros k Hk. cbv zeta.
  set (st0 := mkState [] (staggerQueue t0)).
  set (tk := (t0 + 500 * Z.of_nat k)%Z).
  assert (Hcase :
            List.length (liveAt (tk - 1) st0 e) = k /\
            liveAt tk st0 e
            = fst (staggeredSpawn k (liveAt (tk - 1) st0 e)
                                  (snd (setClock tk (envAt (tk - 1) st0 e))))).
  { unfold tk, st0.
    destruct k as [|[|[|[|[|k]]]]]; [| | | | |lia];
      cbn [Z.of_nat Pos.of_succ_nat Pos.succ];
      (split;
       [ rewrite liveAt_length; unfold staggerQueue;
         cbn [targets timers List.length firedBy due]; decide_due; reflexivity |]).
    - stagger_step (mkTimer (t0 + 0) 0)
        [mkTimer (t0 + 500) 1; mkTimer (t0 + 1000) 2; mkTimer (t0 + 1500) 3;
         mkTimer (t0 + 2000) 4].
    - stagger_step (mkTimer (t0 + 500) 1)
        [mkTimer (t0 + 1000) 2; mkTimer (t0 + 1500) 3; mkTimer (t0 + 2000) 4].
    - stagger_step (mkTimer (t0 + 1000) 2)
        [mkTimer (t0 + 1500) 3; mkTimer (t0 + 2000) 4].
    - stagger_step (mkTimer (t0 + 1500) 3) [mkTimer (t0 + 2000) 4].
    - stagger_step (mkTimer (t0 + 2000) 4) (@nil Timer). }
  destruct Hcase as [Hlen Hnext].
  set (prev := liveAt (tk - 1) st0 e) in *.
  set (env := snd (setClock tk (envAt (tk - 1) st0 e))) in *.
  assert (Hclock : clock env = tk).
  { unfold env, envAt. cbn [setClock snd clock]. rewrite advanceTo_clock.
    fold t0. unfold tk. lia. }
  split; [exact Hlen|]. split; [exact Hnext|]. split; [exact Hclock|].
  rewrite staggeredSpawn_eq in Hnext. cbn [fst] in Hnext.
  eexists. split; [exact Hnext|]. cbn [id position].
  split; [now rewrite Hclock|]. split; [reflexivity|].
  apply generateRandomPosition_firstFit.
Qed.

End ModeChange.

Section ModeChangeExample.
Import JS TargetManager Examples.

(** The manager of [MoreExamples.pulseStarted]: four staggered spawns are
    pending, and the clock is at 1100. *)
Lemma pulseStarted_pending :
  timers (fst MoreExamples.pulseStarted)
  = [mkTimer 1500 1; mkTimer 2000 2; mkTimer 2500 3; mkTimer 3000 4] /\
  clock (snd MoreExamples.pulseStarted) = 1100%Z.
Proof.
  unfold MoreExamples.pulseStarted. cbv zeta.
  rewrite (spawnEffect_pulse emptyState halfEnv eq_refl). cbn [fst snd].
  split.
  - rewrite advanceTo_timers. reflexivity.
  - rewrite advanceTo_clock. reflexivity.
Qed.

(** The same spawns are still pending in [MoreExamples.normalAgain], where
    the clock is at 1200. *)
Lemma normalAgain_pending :
  timers (fst MoreExamples.normalAgain)
  = [mkTimer 1500 1; mkTimer 2000 2; mkTimer 2500 3; mkTimer 3000 4] /\
  clock (snd MoreExamples.normalAgain) = 1200%Z.
Proof.
  destruct pulseStarted_pending as [Hq Hc].
  destruct (spawnEffect_batch normal (fst MoreExamples.pulseStarted)
                              (snd MoreExamples.pulseStarted) eq_refl) as [_ Hkept].
  unfold MoreExamples.normalAgain. cbv zeta. split.
  - rewrite advanceTo_timers, Hkept, Hq. reflexivity.
  - rewrite advanceTo_clock, spawnEffect_clock, Hc. reflexivity.
Qed.

(** Mode normal set on the three targets of [trio]; mode pulse set at time
    1000 and left to run until 3000; mode normal set while a timer of mode
    pulse is pending; and mode normal set at time 1100, 100 after mode pulse
    was set on the idle manager: seven targets at time 3000. *)
Lemma mode_change_respawns_witness :
  List.length (targets (fst (spawnEffect normal (mkState trio []) halfEnv))) = 3%nat /\
  Forall (fun tm => (due tm <= 3000)%Z)
         (timers (fst (spawnEffect pulse emptyState halfEnv))) /\
  List.length (liveAt 3000 (fst (spawnEffect pulse emptyState halfEnv))
                      (snd (spawnEffect pulse emptyState halfEnv))) = 5%nat /\
  Forall (fun tm => (due tm <= 2000)%Z)
         (timers (fst (spawnEffect normal staleState halfEnv))) /\
  List.length (liveAt 2000 (fst (spawnEffect normal staleState halfEnv))
                      (snd (spawnEffect normal staleState halfEnv))) = 4%nat /\
  List.length
    (targets (fst (spawnEffect normal (fst MoreExamples.pulseStarted)
                               (snd MoreExamples.pulseStarted)))) = 3%nat /\
  List.length
    (liveAt 3000
       (fst (spawnEffect normal (fst MoreExamples.pulseStarted)
                         (snd MoreExamples.pulseStarted)))
       (snd (spawnEffect normal (fst MoreExamples.pulseStarted)
                         (snd MoreExamples.pulseStarted)))) = 7%nat.
Proof.
  destruct (mode_change_respawns normal (mkState trio []) halfEnv)
    as (_ & _ & [Hn _] & _).
  destruct (mode_change_respawns pulse emptyState halfEnv) as (_ & _ & _ & Hp).
  destruct (mode_change_respawns normal staleState halfEnv)
    as (_ & _ & [_ Hq] & Hs).
  destruct (mode_change_respawns normal (fst MoreExamples.pulseStarted)
                                 (snd MoreExamples.pulseStarted))
    as (_ & _ & [Hn' Hq'] & Hs').
  destruct pulseStarted_pending as [Hpending _].
  assert (H1 : Forall (fun tm => (due tm <= 3000)%Z)
                      (timers (fst (spawnEffect pulse emptyState halfEnv)))).
  { rewrite spawnEffect_pulse by reflexivity. cbn [fst timers].
    unfold staggerQueue, halfEnv; cbn [clock]. repeat constructor; cbn [due]; lia. }
  assert (H2 : Forall (fun tm => (due tm <= 2000)%Z)
                      (timers (fst (spawnEffect normal staleState halfEnv)))).
  { rewrite Hq. unfold staleState; cbn [timers].
    repeat constructor; cbn [due]; lia. }
  assert (H3 : Forall (fun tm => (due tm <= 3000)%Z)
                      (timers (fst (spawnEffect normal (fst MoreExamples.pulseStarted)
                                                (snd MoreExamples.pulseStarted))))).
  { rewrite Hq', Hpending. repeat constructor; cbn [due]; lia. }
  split; [exact Hn|]. split; [exact H1|]. split; [exact (Hp 3000%Z H1)|].
  split; [exact H2|]. split; [exact (Hs 2000%Z H2)|]. split; [exact Hn'|].
  rewrite (Hs' 3000%Z H3), Hpending. reflexivity.
Defined.

(** Mode pulse set at time 1000 on an idle manager: the five timers, the
    size of the collection as they run, and the second target, added at 1500
    to the one that was live; and mode pulse set at time 1200 on the manager
    of [MoreExamples.normalAgain], in which four staggered spawns of an
    earlier change are pending: nine targets at time 3200. *)
Lemma pulse_stagger_witness :
  timers emptyState = [] /\
  timers (fst (spawnEffect pulse emptyState halfEnv)) = staggerQueue 1000 /\
  liveAt 999 (fst (spawnEffect pulse emptyState halfEnv))
             (snd (spawnEffect pulse emptyState halfEnv)) = [] /\
  List.length (liveAt 1000 (fst (spawnEffect pulse emptyState halfEnv))
                      (snd (spawnEffect pulse emptyState halfEnv))) = 1%nat /\
  List.length (liveAt 2499 (fst (spawnEffect pulse emptyState halfEnv))
                      (snd (spawnEffect pulse emptyState halfEnv))) = 3%nat /\
  List.length (liveAt 3000 (fst (spawnEffect pulse emptyState halfEnv))
                      (snd (spawnEffect pulse emptyState halfEnv))) = 5%nat /\
  (exists x,
     liveAt 1500 (fst (spawnEffect pulse emptyState halfEnv))
                 (snd (spawnEffect pulse emptyState halfEnv))
     = liveAt 1499 (fst (spawnEffect pulse emptyState halfEnv))
                   (snd (spawnEffect pulse emptyState halfEnv)) ++ [x] /\
     firstFit
       (liveAt 1499 (fst (spawnEffect pulse emptyState halfEnv))
                    (snd (spawnEffect pulse emptyState halfEnv)))
       (skip 1 (snd (setClock 1500
                       (envAt 1499 (fst (spawnEffect pulse emptyState halfEnv))
                              (snd (spawnEffect pulse emptyState halfEnv))))))
       (position x)) /\
  Forall (fun tm => (due tm <= 3200)%Z) (timers (fst MoreExamples.normalAgain)) /\
  (clock (snd MoreExamples.normalAgain) + 2000 <= 3200)%Z /\
  List.length (timers (fst MoreExamples.normalAgain)) = 4%nat /\
  List.length
    (liveAt 3200
       (fst (spawnEffect pulse (fst MoreExamples.normalAgain)
                         (snd MoreExamples.normalAgain)))
       (snd (spawnEffect pulse (fst MoreExamples.normalAgain)
                         (snd MoreExamples.normalAgain)))) = 9%nat.
Proof.
  destruct (pulse_stagger emptyState halfEnv) as (_ & _ & _ & _ & Hidle).
  destruct (Hidle eq_refl) as (Hq & Hbefore & Hstep & Hlast & Hspawn).
  destruct (Hspawn 1%nat ltac:(lia)) as (_ & _ & _ & x & Hx & _ & _ & Hfit).
  destruct (pulse_stagger (fst MoreExamples.normalAgain) (snd MoreExamples.normalAgain))
    as (_ & _ & _ & Hall & _).
  destruct normalAgain_pending as [Hpending Hclock].
  assert (H1 : Forall (fun tm => (due tm <= 3200)%Z)
                      (timers (fst MoreExamples.normalAgain))).
  { rewrite Hpending. repeat constructor; cbn [due]; lia. }
  assert (H2 : (clock (snd MoreExamples.normalAgain) + 2000 <= 3200)%Z).
  { rewrite Hclock. lia. }
  split; [reflexivity|]. split; [exact Hq|].
  split; [apply Hbefore; cbn [clock halfEnv]; lia|].
  split; [apply (Hstep 0%nat); cbn [clock halfEnv]; lia|].
  split; [apply (Hstep 2%nat); cbn [clock halfEnv]; lia|].
  split; [apply Hlast; cbn [clock halfEnv]; lia|].
  split; [exists x; split; [exact Hx|exact Hfit]|].
  split; [exact H1|]. split; [exact H2|].
  split; [now rewrite Hpending|].
  rewrite (Hall 3200%Z H1 H2), Hpending. reflexivity.
Defined.

End ModeChangeExample.

(** ** Targets and the filter of the hit resolver *)

Section TargetsKept.
Import Player.

Lemma keep_false (i : Intersection) :
  keep i = false <->
  isTarget (object i) = false /\
  (name (object i) = "floor"%string \/ name (object i) = "back-wall"%string).
Proof.
  unfold keep. destruct (isTarget (object i)).
  - split; [discriminate|]. now intros [H _].
  - destruct (String.eqb_spec (name (object i)) "floor") as [Hf|Hf];
      destruct (String.eqb_spec (name (object i)) "back-wall") as [Hb|Hb];
      cbn [orb]; split; auto; try discriminate.
    intros [_ [H|H]]; contradiction.
Qed.

Lemma filter_dropped (before rest : list Intersection) :
  Forall (fun i => keep i = false) before ->
  filter keep (before ++ rest) = filter keep rest.
Proof.
  induction 1 as [|i before Hi _ IH]; cbn [app filter]; [reflexivity|].
  now rewrite Hi.
Qed.

(** A target is always retained by the filter, and the intersections the
    filter drops (floor, back wall) never hide it: a target met first, or
    met behind dropped intersections only, is the hit that is reported, with
    its id, and the laser ends on it. *)
Theorem targets_are_never_filtered
  (onTargetHit : bool) (ray : Three.Ray)
  (before after : list Intersection) (t : Intersection) :
  isTarget (object t) = true ->
  Forall (fun i => keep i = false) before ->
  keep t = true /\
  handleShoot onTargetHit ray (before ++ t :: after)
  = mkShot (if onTargetHit then Some (targetId (object t)) else None)
           (if hasParent (object t) then Some (object t) else None)
           [HIT_TARGET (targetId (object t))]
           (point t)
           (Some (object t)).
Proof.
  intros Ht Hbefore. pose proof (keep_target t Ht) as Hkeep.
  split; [exact Hkeep|].
  unfold handleShoot. rewrite (filter_dropped _ _ Hbefore).
  cbn [filter]. now rewrite Hkeep, Ht.
Qed.

(** A target at distance 5 with the floor at distance 20 behind it, and the
    same target behind the floor met at distance 3. *)
Lemma targets_are_never_filtered_witness :
  handleShoot true Examples.aim
              [mkHit 5 (Three.mkV 0 1.5 5) (targetSphere 1);
               mkHit 20 (Three.mkV 0 0 20) floor]
  = mkShot (Some 1) (Some (targetSphere 1)) [HIT_TARGET 1]
           (Three.mkV 0 1.5 5) (Some (targetSphere 1)) /\
  handleShoot true Examples.aim
              [mkHit 3 (Three.mkV 0 0 3) floor;
               mkHit 5 (Three.mkV 0 1.5 5) (targetSphere 1)]
  = mkShot (Some 1) (Some (targetSphere 1)) [HIT_TARGET 1]
           (Three.mkV 0 1.5 5) (Some (targetSphere 1)).
Proof.
  assert (Hfloor : Forall (fun i => keep i = false) [mkHit 3 (Three.mkV 0 0 3) floor])
    by (repeat constructor).
  destruct (targets_are_never_filtered
              true Examples.aim [] [mkHit 20 (Three.mkV 0 0 20) floor]
              (mkHit 5 (Three.mkV 0 1.5 5) (targetSphere 1))
              eq_refl (Forall_nil _)) as [_ H1].
  destruct (targets_are_never_filtered
              true Examples.aim [mkHit 3 (Three.mkV 0 0 3) floor] []
              (mkHit 5 (Three.mkV 0 1.5 5) (targetSphere 1))
              eq_refl Hfloor) as [_ H2].
  split; [exact H1|exact H2].
Defined.

End TargetsKept.

(** ** The ids of a batch *)

Section BatchIds.
Import PrimFloat Binary64 FloatExamples.

(** The ids of a batch are not always different.  In binary64, with
    [Date.now()] at 1700000000000, where neighbouring numbers are 2^-12
    apart, the draw 1 - 2^-14 gives the target 0 of a batch the id
    [Date.now() + 1], which is not below [Date.now() + 1], and the draw
    2^-14 gives the target 1 the same id: the two draws differ, both are
    values of [0, 1), and the two ids are [===]. *)
Theorem batch_ids_can_collide :
  inUnitInterval highDraw = true /\
  inUnitInterval lowDraw = true /\
  eqb highDraw lowDraw = false /\
  batchId someNow highDraw 0 = (someNow + 1)%float /\
  batchId someNow lowDraw 1 = (someNow + 1)%float /\
  eqb (batchId someNow highDraw 0) (batchId someNow lowDraw 1) = true.
Proof. vm_compute. repeat split. Qed.

End BatchIds.

(** ** Spawns pending across a change of mode *)

Section PendingSpawns.
Import JS TargetManager.

(** The mode is set to pulse with no timer pending and, less than 500 later,
    to a mode other than pulse: the second change spawns the batch of its
    mode, and the four staggered spawns of the first that were still pending
    are not cancelled; once they have run, the live targets are four more
    than the mode spawns. *)
Theorem pending_spawns_survive_mode_change
  (gameMode : GameMode) (st : State) (e : Env) (t1 : Z) :
  timers st = [] ->
  isPulse gameMode = false ->
  (clock e <= t1 < clock e + 500)%Z ->
  let afterPulse := spawnEffect pulse st e in
  let later := advanceTo t1 (fst afterPulse) (snd afterPulse) in
  let afterChange := spawnEffect gameMode (fst later) (snd later) in
  List.length (targets (fst later)) = 1%nat /\
  List.length (targets (fst afterChange)) = spawnCount gameMode /\
  List.length (liveAt (clock e + 2000) (fst afterChange) (snd afterChange))
  = (spawnCount gameMode + 4)%nat.
Proof.
  intros Hq Hmode Ht1. cbv zeta. rewrite (spawnEffect_pulse _ _ Hq). cbn [fst snd].
  set (later := advanceTo t1 (mkState [] (staggerQueue (clock e))) e).
  set (afterChange := spawnEffect gameMode (fst later) (snd later)).
  assert (Hfired : firedBy t1 (staggerQueue (clock e)) = 1%nat).
  { unfold staggerQueue. cbn [firedBy due].
    repeat match goal with
           | |- context [(?a <=? ?b)%Z] => destruct (Z.leb_spec a b); try lia
           end. }
  assert (Hlater : List.length (targets (fst later)) = 1%nat).
  { pose proof (liveAt_length t1 (mkState [] (staggerQueue (clock e))) e) as H.
    cbn [targets timers List.length] in H. rewrite Hfired in H. exact H. }
  assert (Hpending : timers (fst later)
                     = [mkTimer (clock e + 500) 1; mkTimer (clock e + 1000) 2;
                        mkTimer (clock e + 1500) 3; mkTimer (clock e + 2000) 4]).
  { unfold later. rewrite advanceTo_timers. cbn [timers]. now rewrite Hfired. }
  destruct (spawnEffect_batch gameMode (fst later) (snd later) Hmode) as [Hn Hkept].
  fold afterChange in Hn, Hkept.
  split; [exact Hlater|]. split; [exact Hn|].
  rewrite liveAt_length, Hn, Hkept, Hpending. rewrite firedBy_all.
  - reflexivity.
  - repeat constructor; cbn [due]; lia.
Qed.

(** Mode pulse set at time 1000, mode normal at time 1100: seven targets
    at time 3000. *)
Lemma pending_spawns_survive_mode_change_witness :
  timers Examples.emptyState = [] /\
  (clock Examples.halfEnv <= 1100 < clock Examples.halfEnv + 500)%Z /\
  List.length
    (liveAt 3000
       (fst (spawnEffect normal
               (fst (advanceTo 1100
                       (fst (spawnEffect pulse Examples.emptyState Examples.halfEnv))
                       (snd (spawnEffect pulse Examples.emptyState Examples.halfEnv))))
               (snd (advanceTo 1100
                       (fst (spawnEffect pulse Examples.emptyState Examples.halfEnv))
                       (snd (spawnEffect pulse Examples.emptyState Examples.halfEnv))))))
       (snd (spawnEffect normal
               (fst (advanceTo 1100
                       (fst (spawnEffect pulse Examples.emptyState Examples.halfEnv))
                       (snd (spawnEffect pulse Examples.emptyState Examples.halfEnv))))
               (snd (advanceTo 1100
                       (fst (spawnEffect pulse Examples.emptyState Examples.halfEnv))
                       (snd (spawnEffect pulse Examples.emptyState Examples.halfEnv)))))))
  = 7%nat.
Proof.
  assert (Ht : (clock Examples.halfEnv <= 1100 < clock Examples.halfEnv + 500)%Z)
    by (cbn [clock Examples.halfEnv]; lia).
  split; [reflexivity|]. split; [exact Ht|].
  exact (proj2 (proj2 (pending_spawns_survive_mode_change
                         normal Examples.emptyState Examples.halfEnv 1100
                         eq_refl eq_refl Ht))).
Defined.

End PendingSpawns.

(** ** The recoil of the weapon *)

Section Recoil.
Import ThreeMath Weapon.

Lemma initial_inEnvelope (mesh : option Group) : inEnvelope (initial mesh).
Proof. unfold inEnvelope, initial; cbn [recoilPosition recoilRotation Three.vx Three.vy Three.vz ex ey ez]. lra. Qed.

Lemma runTimers_recoil (t : Z) (w : State) :
  meshRef (runTimers t w) = meshRef w /\
  recoilPosition (runTimers t w) = recoilPosition w /\
  recoilRotation (runTimers t w) = recoilRotation w /\
  isRecoiling (runTimers t w) = isRecoiling w.
Proof. repeat split. Qed.

Lemma handleFire_inEnvelope (onFire : bool) (t : Z) (w : State) :
  inEnvelope w -> inEnvelope (fst (handleFire onFire t w)).
Proof.
  unfold inEnvelope, handleFire. intros H. destruct (meshRef w); [|exact H].
  cbn [fst recoilPosition recoilRotation Three.vx Three.vy Three.vz ex ey ez].
  unfold originalPosition, originalRotation, RECOIL_KICK, RECOIL_ROTATION.
  cbn [Three.vz ex]. lra.
Qed.

(** One frame: the offsets of the recoil are multiplied by 0.85. *)
Lemma useFrame_recoil (w : State) (g : Group) :
  meshRef w = Some g ->
  Three.vx (recoilPosition w) = 0.3 -> Three.vy (recoilPosition w) = -0.3 ->
  ey (recoilRotation w) = 0 -> ez (recoilRotation w) = 0 ->
  meshRef (useFrame w)
  = Some (mkGroup (recoilPosition (useFrame w)) (recoilRotation (useFrame w))) /\
  Three.vx (recoilPosition (useFrame w)) = 0.3 /\
  Three.vy (recoilPosition (useFrame w)) = -0.3 /\
  Three.vz (recoilPosition (useFrame w))
  = -0.5 + (Three.vz (recoilPosition w) + 0.5) * 0.85 /\
  ex (recoilRotation (useFrame w)) = ex (recoilRotation w) * 0.85 /\
  ey (recoilRotation (useFrame w)) = 0 /\
  ez (recoilRotation (useFrame w)) = 0 /\
  isRecoiling (useFrame w)
  = (if JS.ltb (Rabs ((Three.vz (recoilPosition w) + 0.5) * 0.85)) 0.001
        && JS.ltb (Rabs (ex (recoilRotation w) * 0.85)) 0.001
     then false else isRecoiling w).
Proof.
  intros Hm Hx Hy Hry Hrz. unfold useFrame. rewrite Hm.
  cbn [meshRef recoilPosition recoilRotation isRecoiling].
  unfold lerpV, lerp, originalPosition, originalRotation, LERP_FACTOR, distanceTo.
  cbn [Three.vx Three.vy Three.vz ex ey ez]. rewrite Hx, Hy, Hry, Hrz.
  split; [reflexivity|]. split; [lra|]. split; [lra|]. split; [lra|].
  split; [lra|]. split; [lra|]. split; [lra|].
  set (z := Three.vz (recoilPosition w)). set (r := ex (recoilRotation w)).
  replace ((0.3 + (0.3 - 0.3) * 0.15 - 0.3) * (0.3 + (0.3 - 0.3) * 0.15 - 0.3)
           + (-0.3 + (-0.3 - -0.3) * 0.15 - -0.3) * (-0.3 + (-0.3 - -0.3) * 0.15 - -0.3)
           + (z + (-0.5 - z) * 0.15 - -0.5) * (z + (-0.5 - z) * 0.15 - -0.5))
    with (Rsqr ((z + 0.5) * 0.85)) by (unfold Rsqr; lra).
  rewrite sqrt_Rsqr_abs.
  replace ((1 - 0.15) * r + 0.15 * 0 - 0) with (r * 0.85) by lra.
  reflexivity.
Qed.

Lemma useFrame_inEnvelope (w : State) : inEnvelope w -> inEnvelope (useFrame w).
Proof.
  intros H. destruct (meshRef w) as [g|] eqn:Hm.
  - destruct H as (Hx & Hy & Hz & Hr & Hry & Hrz).
    destruct (useFrame_recoil w g Hm Hx Hy Hry Hrz)
      as (_ & Hx' & Hy' & Hz' & Hr' & Hry' & Hrz' & _).
    unfold inEnvelope. rewrite Hx', Hy', Hz', Hr', Hry', Hrz'. lra.
  - unfold useFrame. now rewrite Hm.
Qed.

Lemma step_inEnvelope (onFire : bool) (w : State) (ev : Event) :
  inEnvelope w -> inEnvelope (step onFire w ev).
Proof.
  intros H. destruct ev as [t|t]; cbn [step].
  - apply handleFire_inEnvelope. exact H.
  - apply useFrame_inEnvelope. exact H.
Qed.

Lemma play_inEnvelope (onFire : bool) (evs : list Event) :
  forall w, inEnvelope w -> inEnvelope (play onFire evs w).
Proof.
  unfold play. induction evs as [|ev rest IH]; intros w H; cbn [fold_left].
  - exact H.
  - apply IH, step_inEnvelope, H.
Qed.

(** The recoil does not add up: whatever fires and frames the weapon has
    gone through, at whatever pace, the recoil stays on the z axis and on
    the x angle, between the rest pose (z = -0.5, angle 0) and one kick
    (z = -0.6, angle 0.15); and a fire with the group mounted puts it at one
    kick exactly, wherever it was. *)
Theorem recoil_never_accumulates
  (onFire : bool) (evs : list Event) (mesh : option Group) (t : Z) :
  let w := play onFire evs (initial mesh) in
  (Three.vx (recoilPosition w) = 0.3 /\
   Three.vy (recoilPosition w) = -0.3 /\
   -0.6 <= Three.vz (recoilPosition w) <= -0.5 /\
   0 <= ex (recoilRotation w) <= 0.15 /\
   ey (recoilRotation w) = 0 /\
   ez (recoilRotation w) = 0) /\
  (meshRef w <> None ->
   recoilPosition (fst (handleFire onFire t w)) = Three.mkV 0.3 (-0.3) (-0.5 - 0.1) /\
   recoilRotation (fst (handleFire onFire t w)) = mkEuler (0 + 0.15) 0 0).
Proof.
  intros w.
  pose proof (play_inEnvelope onFire evs _ (initial_inEnvelope mesh)) as H.
  fold w in H. split; [exact H|].
  destruct H as (Hx & Hy & _ & _ & Hry & Hrz).
  intros Hm. unfold handleFire. destruct (meshRef w); [|now elim Hm].
  cbn [fst recoilPosition recoilRotation]. rewrite Hx, Hy, Hry, Hrz.
  split; reflexivity.
Qed.

End Recoil.

Section RecoilDecay.
Import ThreeMath Weapon.

Lemma step_mounted (onFire : bool) (w : State) (ev : Event) :
  meshRef w <> None -> meshRef (step onFire w ev) <> None.
Proof.
  intros H. destruct ev as [t|t]; cbn [step].
  - unfold handleFire. cbn [runTimers meshRef].
    destruct (meshRef w) eqn:E; [|now elim H]. cbn [fst meshRef]. discriminate.
  - unfold useFrame. cbn [runTimers meshRef].
    destruct (meshRef w) eqn:E; [|now elim H]. discriminate.
Qed.

Lemma play_mounted (onFire : bool) (evs : list Event) :
  forall w, meshRef w <> None -> meshRef (play onFire evs w) <> None.
Proof.
  unfold play. induction evs as [|ev rest IH]; intros w H; cbn [fold_left].
  - exact H.
  - apply IH, step_mounted, H.
Qed.

(** Two fires 4 ms apart with one frame in between. *)
Lemma recoil_never_accumulates_witness :
  meshRef (play true [Fire 0; Frame 2; Fire 4] (initial (Some weaponGroup))) <> None /\
  recoilPosition
    (fst (handleFire true 9
            (play true [Fire 0; Frame 2; Fire 4] (initial (Some weaponGroup)))))
  = Three.mkV 0.3 (-0.3) (-0.5 - 0.1) /\
  recoilRotation
    (fst (handleFire true 9
            (play true [Fire 0; Frame 2; Fire 4] (initial (Some weaponGroup)))))
  = mkEuler (0 + 0.15) 0 0.
Proof.
  assert (Hm : meshRef (play true [Fire 0; Frame 2; Fire 4] (initial (Some weaponGroup)))
               <> None) by (apply play_mounted; discriminate).
  split; [exact Hm|].
  exact (proj2 (recoil_never_accumulates
                  true [Fire 0; Frame 2; Fire 4] (Some weaponGroup) 9) Hm).
Defined.

Lemma frames_S (n : nat) : forall w, frames (S n) w = useFrame (frames n w).
Proof.
  induction n as [|n IH]; intros w; [reflexivity|].
  change (frames (S (S n)) w) with (frames (S n) (useFrame w)).
  rewrite IH. reflexivity.
Qed.

Lemma pow_085_le (m k : nat) : (m <= k)%nat -> 0.85 ^ k <= 0.85 ^ m.
Proof.
  induction 1 as [|k _ IH]; [lra|].
  cbn [pow]. assert (0 <= 0.85 ^ k) by (apply pow_le; lra). nra.
Qed.

(** The state [n] frames after a fire. *)
Lemma frames_after_fire (onFire : bool) (t : Z) (w : State) (n : nat) :
  meshRef w <> None ->
  Three.vx (recoilPosition w) = 0.3 -> Three.vy (recoilPosition w) = -0.3 ->
  ey (recoilRotation w) = 0 -> ez (recoilRotation w) = 0 ->
  let w' := frames n (fst (handleFire onFire t w)) in
  meshRef w' <> None /\
  Three.vx (recoilPosition w') = 0.3 /\ Three.vy (recoilPosition w') = -0.3 /\
  Three.vz (recoilPosition w') = -0.5 - 0.1 * 0.85 ^ n /\
  ex (recoilRotation w') = 0.15 * 0.85 ^ n /\
  ey (recoilRotation w') = 0 /\ ez (recoilRotation w') = 0 /\
  (isRecoiling w' = true <-> (n <= 30)%nat).
Proof.
  intros Hm Hx Hy Hry Hrz. induction n as [|n IH].
  - cbn [frames]. unfold handleFire. destruct (meshRef w) as [g|] eqn:E; [|now elim Hm].
    cbn [fst meshRef recoilPosition recoilRotation isRecoiling
             Three.vx Three.vy Three.vz ex ey ez].
    unfold originalPosition, originalRotation, RECOIL_KICK, RECOIL_ROTATION.
    cbn [Three.vz ex pow].
    repeat split; try assumption; try lra; try discriminate. intros _. lia.
  - cbv zeta in IH |- *. rewrite frames_S.
    set (w0 := frames n (fst (handleFire onFire t w))) in *.
    destruct IH as (Hm0 & Hx0 & Hy0 & Hz0 & Hr0 & Hry0 & Hrz0 & Hrec0).
    destruct (meshRef w0) as [g|] eqn:E; [|now elim Hm0].
    destruct (useFrame_recoil w0 g E Hx0 Hy0 Hry0 Hrz0)
      as (Hm' & Hx' & Hy' & Hz' & Hr' & Hry' & Hrz' & Hrec').
    split; [rewrite Hm'; discriminate|].
    split; [exact Hx'|]. split; [exact Hy'|].
    split; [rewrite Hz', Hz0; cbn [pow]; lra|].
    split; [rewrite Hr', Hr0; cbn [pow]; lra|].
    split; [exact Hry'|]. split; [exact Hrz'|].
    rewrite Hrec', Hz0, Hr0.
    replace ((-0.5 - 0.1 * 0.85 ^ n + 0.5) * 0.85) with (- (0.1 * 0.85 ^ S n))
      by (cbn [pow]; lra).
    replace (0.15 * 0.85 ^ n * 0.85) with (0.15 * 0.85 ^ S n) by (cbn [pow]; lra).
    assert (Hpos : 0 <= 0.85 ^ S n) by (apply pow_le; lra).
    rewrite Rabs_Ropp, !Rabs_pos_eq by nra.
    destruct (Nat.le_gt_cases (S n) 30) as [Hle|Hgt].
    + pose proof (pow_085_le (S n) 30 Hle) as Hp.
      assert (E2 : JS.ltb (0.15 * 0.85 ^ S n) 0.001 = false)
        by (apply ltb_false; assert (0.001 <= 0.15 * 0.85 ^ 30) by lra; lra).
      rewrite E2, andb_false_r, Hrec0. split; intros; lia.
    + pose proof (pow_085_le 31 (S n) Hgt) as Hp.
      assert (E1 : JS.ltb (0.1 * 0.85 ^ S n) 0.001 = true)
        by (apply ltb_true; assert (0.1 * 0.85 ^ 31 < 0.001) by lra; lra).
      assert (E2 : JS.ltb (0.15 * 0.85 ^ S n) 0.001 = true)
        by (apply ltb_true; assert (0.15 * 0.85 ^ 31 < 0.001) by lra; lra).
      rewrite E1, E2. cbn [andb]. split; [discriminate|lia].
Qed.

(** After a fire the weapon comes back to rest geometrically: [n] frames
    later the kick on z is 0.1 * 0.85^n and the angle 0.15 * 0.85^n, never
    past the rest pose; the weapon counts as recoiling for the 30 frames that
    follow the fire and no longer from the 31st, when both offsets are under
    0.001. *)
Theorem recoil_decays_in_31_frames
  (onFire : bool) (evs : list Event) (t : Z) (n : nat) (g : Group) :
  let w := frames n (fst (handleFire onFire t (play onFire evs (initial (Some g))))) in
  Three.vx (recoilPosition w) = 0.3 /\
  Three.vy (recoilPosition w) = -0.3 /\
  Three.vz (recoilPosition w) = -0.5 - 0.1 * 0.85 ^ n /\
  ex (recoilRotation w) = 0.15 * 0.85 ^ n /\
  (isRecoiling w = true <-> (n <= 30)%nat).
Proof.
  intros w.
  pose proof (play_inEnvelope onFire evs _ (initial_inEnvelope (Some g)))
    as (Hx & Hy & _ & _ & Hry & Hrz).
  assert (Hm : meshRef (play onFire evs (initial (Some g))) <> None)
    by (apply play_mounted; discriminate).
  destruct (frames_after_fire onFire t _ n Hm Hx Hy Hry Hrz)
    as (_ & Hx' & Hy' & Hz' & Hr' & _ & _ & Hrec).
  fold w in Hx', Hy', Hz', Hr', Hrec.
  repeat split; try assumption; apply Hrec.
Qed.

End RecoilDecay.

(** ** The muzzle flash *)

Section MuzzleFlash.
Import Weapon.

(** At time [now]: every pending timer is due within 50, and a flash that
    is on has a timer pending. *)
Let flashInv (now : Z) (w : State) : Prop :=
  Forall (fun d => (now < d <= now + 50)%Z) (flashTimers w) /\
  (muzzleFlash w = true -> flashTimers w <> []).

Lemma runTimers_flashInv (now t : Z) (w : State) :
  (now <= t)%Z -> flashInv now w -> flashInv t (runTimers t w).
Proof.
  intros Ht [Hall Hon]. unfold flashInv, runTimers. cbn [flashTimers muzzleFlash].
  split.
  - rewrite Forall_forall in *. intros d Hd. apply filter_In in Hd.
    destruct Hd as [Hd Hlate]. specialize (Hall d Hd).
    apply negb_true_iff, Z.leb_gt in Hlate. lia.
  - destruct (existsb (fun d => (d <=? t)%Z) (flashTimers w)) eqn:E; [discriminate|].
    intros Hflash. specialize (Hon Hflash).
    assert (Hsame : filter (fun d => negb (d <=? t)%Z) (flashTimers w) = flashTimers w).
    { rewrite <- (forallb_filter_id (fun d => negb (d <=? t)%Z) (flashTimers w)) at 2.
      - reflexivity.
      - apply forallb_forall. intros d Hd.
        destruct (d <=? t)%Z eqn:Ed; [|reflexivity].
        assert (existsb (fun d => (d <=? t)%Z) (flashTimers w) = true)
          by (apply existsb_exists; eauto).
        congruence. }
    now rewrite Hsame.
Qed.

Lemma step_flashInv (onFire : bool) (now : Z) (w : State) (ev : Event) :
  (now <= time ev)%Z -> flashInv now w -> flashInv (time ev) (step onFire w ev).
Proof.
  intros Ht H. destruct ev as [t|t]; cbn [step time] in *;
    pose proof (runTimers_flashInv now t w Ht H) as [Hall Hon].
  - unfold handleFire. destruct (meshRef (runTimers t w)); cbn [fst]; [|now split].
    split; cbn [flashTimers muzzleFlash].
    + apply Forall_app. split; [exact Hall|]. repeat constructor; lia.
    + intros _ Hnil. now apply app_eq_nil in Hnil.
  - unfold useFrame. destruct (meshRef (runTimers t w)); [|now split].
    now split.
Qed.

Lemma play_flashInv (onFire : bool) (evs : list Event) :
  forall now w,
    inOrder now evs -> flashInv now w ->
    flashInv (lastTime now evs) (play onFire evs w).
Proof.
  unfold play. induction evs as [|ev rest IH]; intros now w Hord H;
    cbn [fold_left lastTime].
  - exact H.
  - destruct Hord as [Ht Hrest]. apply (IH (time ev)); [exact Hrest|].
    apply (step_flashInv onFire now); assumption.
Qed.

(** The muzzle flash does not stay on: after any fires and frames, taken
    in the order of their times, every pending timer is due within 50 of the
    last event, a flash that is on has a timer pending, and 50 after the last
    event the flash is out and no timer is left. *)
Theorem muzzle_flash_goes_out
  (onFire : bool) (evs : list Event) (mesh : option Group) (t0 : Z) :
  inOrder t0 evs ->
  let w := play onFire evs (initial mesh) in
  let now := lastTime t0 evs in
  Forall (fun d => (now < d <= now + 50)%Z) (flashTimers w) /\
  (muzzleFlash w = true -> flashTimers w <> []) /\
  (forall t, (now + 50 <= t)%Z ->
             muzzleFlash (runTimers t w) = false /\ flashTimers (runTimers t w) = []).
Proof.
  intros Hord w now.
  assert (H0 : flashInv t0 (initial mesh)).
  { split; cbn [initial flashTimers muzzleFlash]; [constructor|discriminate]. }
  pose proof (play_flashInv onFire evs t0 _ Hord H0) as [Hall Hon].
  fold w now in Hall, Hon.
  split; [exact Hall|]. split; [exact Hon|].
  intros t Ht. unfold runTimers. cbn [muzzleFlash flashTimers].
  assert (Hnone : filter (fun d => negb (d <=? t)%Z) (flashTimers w) = []).
  { destruct (filter _ _) as [|d rest] eqn:E; [reflexivity|].
    assert (Hd : In d (filter (fun d => negb (d <=? t)%Z) (flashTimers w)))
      by (rewrite E; now left).
    apply filter_In in Hd. destruct Hd as [Hd Hlate].
    rewrite Forall_forall in Hall. specialize (Hall d Hd).
    apply negb_true_iff, Z.leb_gt in Hlate. lia. }
  split; [|exact Hnone].
  destruct (existsb (fun d => (d <=? t)%Z) (flashTimers w)) eqn:E; [reflexivity|].
  destruct (muzzleFlash w) eqn:Hflash; [|reflexivity].
  exfalso. apply (Hon eq_refl).
  destruct (flashTimers w) as [|d rest]; [reflexivity|].
  cbn [existsb filter] in E, Hnone. apply orb_false_iff in E. destruct E as [E _].
  rewrite E in Hnone. discriminate.
Qed.

(** Two fires 40 ms apart: the timer of the first puts the flash of the
    second out after 10 ms, and at 90 nothing is left. *)
Lemma muzzle_flash_goes_out_witness :
  inOrder 0 [Fire 0; Fire 40; Frame 50] /\
  muzzleFlash (play true [Fire 0; Fire 40] (initial (Some weaponGroup))) = true /\
  muzzleFlash (play true [Fire 0; Fire 40; Frame 50] (initial (Some weaponGroup))) = false /\
  muzzleFlash (runTimers 100 (play true [Fire 0; Fire 40; Frame 50]
                                   (initial (Some weaponGroup)))) = false /\
  flashTimers (runTimers 100 (play true [Fire 0; Fire 40; Frame 50]
                                   (initial (Some weaponGroup)))) = [].
Proof.
  assert (Hord : inOrder 0 [Fire 0; Fire 40; Frame 50])
    by (cbn [inOrder time]; lia).
  destruct (muzzle_flash_goes_out true [Fire 0; Fire 40; Frame 50]
                                  (Some weaponGroup) 0 Hord) as (_ & _ & Hout).
  destruct (Hout 100%Z ltac:(cbn [lastTime time]; lia)) as [H1 H2].
  split; [exact Hord|]. split; [reflexivity|]. split; [reflexivity|].
  split; [exact H1|exact H2].
Defined.

End MuzzleFlash.

(** ** Where targets are *)

Section SpawnArea.
Import JS TargetManager.

Lemma candidateAt_range (e : Env) (k : nat) :
  unit_interval e ->
  -3 <= px (candidateAt e k) < 3 /\
  1.5 <= py (candidateAt e k) < 4.5 /\
  pz (candidateAt e k) = 8.
Proof.
  intros He. unfold candidateAt; cbn [px py pz].
  pose proof (He k). pose proof (He (k + 1)%nat). repeat split; lra.
Qed.

Lemma search_is_candidate (fuel : nat) (existing : list Target) :
  forall e p e', search fuel existing e = (Some p, e') ->
                 exists k, p = candidateAt e k.
Proof.
  induction fuel as [|fuel IH]; intros e p e' H; [discriminate|].
  rewrite search_step in H. destruct (tooClose _ _).
  - destruct (IH _ _ _ H) as [k Hk]. exists k. exact Hk.
  - inversion H. now exists (cursor e).
Qed.

Lemma generateRandomPosition_is_candidate (existing : list Target) (e : Env) :
  exists k, fst (generateRandomPosition existing e) = candidateAt e k.
Proof.
  unfold generateRandomPosition, bind.
  destruct (search MAX_ATTEMPTS existing e) as [[p|] e'] eqn:E.
  - destruct (search_is_candidate _ _ _ _ _ E) as [k Hk]. now exists k.
  - rewrite drawCandidate_eq. cbn [fst].
    destruct (search_env MAX_ATTEMPTS existing e) as [j Hj].
    rewrite E in Hj. cbn [snd] in Hj. subst e'. now exists (cursor (skip j e)).
Qed.

(** Whatever targets exist, and whether the call is accepted or runs out of
    attempts, the position returned lies in the spawn area: x in [-3, 3),
    y in [1.5, 4.5), z = 8, [Math.random] returning values of [0, 1). *)
Theorem generated_position_is_in_the_spawn_area (existing : list Target) (e : Env) :
  unit_interval e ->
  -3 <= px (fst (generateRandomPosition existing e)) < 3 /\
  1.5 <= py (fst (generateRandomPosition existing e)) < 4.5 /\
  pz (fst (generateRandomPosition existing e)) = 8.
Proof.
  intros He. destruct (generateRandomPosition_is_candidate existing e) as [k ->].
  now apply candidateAt_range.
Qed.

(** With [crowd] live the call runs out of attempts, and its position is
    still in the area. *)
Lemma generated_position_is_in_the_spawn_area_witness :
  unit_interval Examples.crowdedEnv /\
  -3 <= px (fst (generateRandomPosition Examples.crowd Examples.crowdedEnv)) < 3 /\
  1.5 <= py (fst (generateRandomPosition Examples.crowd Examples.crowdedEnv)) < 4.5 /\
  pz (fst (generateRandomPosition Examples.crowd Examples.crowdedEnv)) = 8.
Proof.
  split; [exact crowdedEnv_unit_interval|].
  exact (generated_position_is_in_the_spawn_area
           Examples.crowd Examples.crowdedEnv crowdedEnv_unit_interval).
Defined.

End SpawnArea.

(** ** Targets of the other modes, and the life of a pulse target *)

Section TargetModes.
Import JS TargetComponent.

Lemma strafe_scale (props : Props) (memo : Memo) (t : R) (m : Mesh) :
  scale (strafe props memo t m) = scale m.
Proof.
  unfold strafe. destruct (gameMode props); try reflexivity.
  destruct (movementParams memo); reflexivity.
Qed.

Lemma useFrame_not_pulse (props : Props) (memo : Memo) (t d : R) (refs : Refs) :
  gameMode props <> TargetManager.pulse ->
  snd (useFrame props memo t d refs) = None /\
  lifeRef (fst (useFrame props memo t d refs)) = lifeRef refs /\
  hasTimedOut (fst (useFrame props memo t d refs)) = hasTimedOut refs /\
  option_map scale (meshRef (fst (useFrame props memo t d refs)))
  = option_map scale (meshRef refs).
Proof.
  intros Hmode. unfold useFrame. destruct (meshRef refs) as [m|] eqn:Hm.
  - destruct (gameMode props) eqn:E; try (now elim Hmode);
      cbn [fst snd lifeRef hasTimedOut meshRef option_map];
      rewrite strafe_scale; repeat split.
  - cbn [fst snd]. rewrite Hm. repeat split.
Qed.

Lemma run_not_pulse (props : Props) (memo : Memo) (frames : list (R * R)) :
  gameMode props <> TargetManager.pulse ->
  forall refs k out,
    nth_error (run props memo frames refs) k = Some out ->
    snd out = None /\
    lifeRef (fst out) = lifeRef refs /\
    hasTimedOut (fst out) = hasTimedOut refs /\
    option_map scale (meshRef (fst out)) = option_map scale (meshRef refs).
Proof.
  intros Hmode. induction frames as [|[t d] rest IH]; intros refs k out Hk.
  - destruct k; discriminate.
  - cbn [run] in Hk.
    destruct (useFrame_not_pulse props memo t d refs Hmode) as (H1 & H2 & H3 & H4).
    destruct k as [|k]; cbn [nth_error] in Hk.
    + inversion Hk; subst out. now repeat split.
    + destruct (IH _ _ _ Hk) as (G1 & G2 & G3 & G4).
      rewrite G2, G3, G4. now repeat split.
Qed.

Lemma run_unmounted (props : Props) (memo : Memo) (frames : list (R * R)) :
  forall refs k out,
    meshRef refs = None ->
    nth_error (run props memo frames refs) k = Some out ->
    out = (refs, None).
Proof.
  induction frames as [|[t d] rest IH]; intros refs k out Hm Hk.
  - destruct k; discriminate.
  - cbn [run] in Hk.
    assert (E : useFrame props memo t d refs = (refs, None))
      by (unfold useFrame; now rewrite Hm).
    rewrite E in Hk. cbn [fst] in Hk.
    destruct k as [|k]; cbn [nth_error] in Hk.
    + now inversion Hk.
    + eapply IH; eauto.
Qed.

(** Only pulse targets time out: in the modes normal, random_size and
    strafing no frame ever calls the timeout callback, and the frames leave
    the life clock, the flag and the scale of the mesh as they are; and in
    any mode, pulse included, a target whose mesh is not mounted is left
    untouched by its frames and never times out. *)
Theorem only_mounted_pulse_targets_time_out
  (props : Props) (memo : Memo) (frames : list (R * R)) (refs : Refs)
  (k : nat) (out : Refs * option R) :
  nth_error (run props memo frames refs) k = Some out ->
  (gameMode props <> TargetManager.pulse ->
   snd out = None /\
   lifeRef (fst out) = lifeRef refs /\
   hasTimedOut (fst out) = hasTimedOut refs /\
   option_map scale (meshRef (fst out)) = option_map scale (meshRef refs)) /\
  (meshRef refs = None -> out = (refs, None)).
Proof.
  intros Hk. split.
  - intros Hmode. exact (run_not_pulse props memo frames Hmode refs k out Hk).
  - intros Hm. exact (run_unmounted props memo frames refs k out Hm Hk).
Qed.

End TargetModes.

Section TargetModesExample.
Import JS TargetComponent Examples MoreExamples.

(** A target of mode normal played over three frames, and a pulse target
    with no mesh. *)
Lemma only_mounted_pulse_targets_time_out_witness :
  gameMode normalProps <> TargetManager.pulse /\
  meshRef unmounted = None /\
  (exists out,
     nth_error (run normalProps (fst (useMemos normalProps halfEnv)) threeFrames mounted) 2
     = Some out /\
     snd out = None /\ lifeRef (fst out) = 0 /\ hasTimedOut (fst out) = false /\
     option_map scale (meshRef (fst out)) = Some (Three.mkV 1 1 1)) /\
  nth_error (run pulseProps (fst (useMemos pulseProps halfEnv)) threeFrames unmounted) 2
  = Some (unmounted, None).
Proof.
  assert (Hmode : gameMode normalProps <> TargetManager.pulse) by discriminate.
  split; [exact Hmode|]. split; [reflexivity|]. split.
  - destruct (nth_error (run normalProps (fst (useMemos normalProps halfEnv))
                             threeFrames mounted) 2) as [out|] eqn:E.
    + exists out. split; [reflexivity|].
      exact (proj1 (only_mounted_pulse_targets_time_out
                      normalProps (fst (useMemos normalProps halfEnv)) threeFrames
                      mounted 2 out E) Hmode).
    + exfalso. apply nth_error_None in E. rewrite run_length in E.
      unfold threeFrames in E. cbn [List.length] in E. lia.
  - destruct (nth_error (run pulseProps (fst (useMemos pulseProps halfEnv))
                             threeFrames unmounted) 2) as [out|] eqn:E.
    + f_equal.
      exact (proj2 (only_mounted_pulse_targets_time_out
                      pulseProps (fst (useMemos pulseProps halfEnv)) threeFrames
                      unmounted 2 out E) eq_refl).
    + exfalso. apply nth_error_None in E. rewrite run_length in E.
      unfold threeFrames in E. cbn [List.length] in E. lia.
Defined.

End TargetModesExample.

(** ** Strafing targets stay in the room *)

Section Strafing.
Import JS TargetComponent.

Lemma useMemos_strafing (props : Props) (e : Env) :
  gameMode props = TargetManager.strafing ->
  movementParams (fst (useMemos props e))
  = Some (mkParams (rand e (cursor e) * 0.5 + 0.5)
                   (rand e (cursor e + 1) * PI * 2)
                   (rand e (cursor e + 1 + 1) * 3 + 2)) /\
  initialX (fst (useMemos props e)) = TargetManager.px (position props).
Proof.
  intros H. unfold useMemos. rewrite H. split; reflexivity.
Qed.

Lemma useFrame_strafing (props : Props) (memo : Memo) (mp : MovementParams)
  (t d : R) (m : Mesh) (l : R) (h : bool) :
  gameMode props = TargetManager.strafing ->
  movementParams memo = Some mp ->
  useFrame props memo t d (mkRefs (Some m) l h) =
  (mkRefs (Some (mkMesh (scale m)
                        (initialX memo + sin (t * speed mp + offset mp) * amplitude mp)))
          l h,
   None).
Proof.
  intros Hmode Hmp. unfold useFrame, strafe. cbn [meshRef lifeRef hasTimedOut].
  now rewrite Hmode, Hmp.
Qed.

Lemma run_strafing (props : Props) (memo : Memo) (mp : MovementParams)
  (frames : list (R * R)) :
  gameMode props = TargetManager.strafing ->
  movementParams memo = Some mp ->
  forall m l h k out,
    nth_error (run props memo frames (mkRefs (Some m) l h)) k = Some out ->
    exists t,
      out = (mkRefs (Some (mkMesh (scale m)
                                  (initialX memo
                                   + sin (t * speed mp + offset mp) * amplitude mp)))
                    l h,
             None).
Proof.
  intros Hmode Hmp. induction frames as [|[t d] rest IH]; intros m l h k out Hk.
  - destruct k; discriminate.
  - cbn [run] in Hk. rewrite (useFrame_strafing _ _ mp _ _ _ _ _ Hmode Hmp) in Hk.
    cbn [fst] in Hk. destruct k as [|k]; cbn [nth_error] in Hk.
    + inversion Hk. now exists t.
    + destruct (IH _ _ _ _ _ Hk) as [t' Ht']. exists t'. exact Ht'.
Qed.

(** A strafing target spawned at a generated position swings around the x
    it was spawned at, by less than its amplitude, which is drawn in [2, 5)
    (its speed in [0.5, 1), its phase in [0, 2 pi)); so at every frame its
    sphere, of radius 0.5 at scale 1, is between the left and the right wall
    of the room, whatever the elapsed time, and no frame signals a
    timeout. *)
Theorem strafing_target_stays_in_the_room
  (existing : list TargetManager.Target) (e e' : Env) (targetId : R) (callback : bool)
  (m : Mesh) (l : R) (h : bool) (frames : list (R * R))
  (k : nat) (out : Refs * option R) :
  unit_interval e -> unit_interval e' ->
  let p := fst (TargetManager.generateRandomPosition existing e) in
  let props := mkProps p targetId TargetManager.strafing callback in
  let memo := fst (useMemos props e') in
  nth_error (run props memo frames (mountEffect props memo (mkRefs (Some m) l h))) k
  = Some out ->
  exists mp x,
    movementParams memo = Some mp /\
    0.5 <= speed mp < 1 /\ 0 <= offset mp < 2 * PI /\ 2 <= amplitude mp < 5 /\
    fst out = mkRefs (Some (mkMesh (Three.mkV 1 1 1) x)) l h /\
    snd out = None /\
    Rabs (x - TargetManager.px p) <= amplitude mp /\
    Scene.leftWallX < x - Scene.sphereRadius /\
    x + Scene.sphereRadius < Scene.rightWallX.
Proof.
  intros He He' p props memo Hk.
  destruct (useMemos_strafing props e' eq_refl) as [Hmp Hx0].
  fold memo in Hmp, Hx0.
  assert (Hmount : mountEffect props memo (mkRefs (Some m) l h)
                   = mkRefs (Some (setScale 1 m)) l h) by reflexivity.
  rewrite Hmount in Hk.
  destruct (run_strafing props memo _ frames eq_refl Hmp _ _ _ _ _ Hk) as [t Hout].
  pose proof (He' (cursor e')) as H1. pose proof (He' (cursor e' + 1)%nat) as H2.
  pose proof (He' (cursor e' + 1 + 1)%nat) as H3.
  pose proof (TargetManager.px p) as _.
  destruct (generated_position_is_in_the_spawn_area existing e He) as (Hpx & _ & _).
  fold p in Hpx.
  eexists. eexists. split; [exact Hmp|].
  cbn [speed offset amplitude].
  split; [lra|]. split; [pose proof PI_RGT_0; nra|]. split; [lra|].
  rewrite Hout. cbn [fst snd setScale scale]. split; [reflexivity|].
  split; [reflexivity|].
  rewrite Hx0. cbn [position props amplitude speed offset].
  set (a := rand e' (cursor e' + 1 + 1) * 3 + 2) in *.
  set (s := sin _).
  assert (Hs : -1 <= s <= 1) by apply SIN_bound.
  assert (Ha : 2 <= a < 5) by (unfold a; lra).
  assert (Hswing : - a <= s * a <= a) by (split; nra).
  replace (TargetManager.px p + s * a - TargetManager.px p) with (s * a) by ring.
  split; [apply Rabs_le; exact Hswing|].
  unfold Scene.leftWallX, Scene.rightWallX, Scene.roomWidth, Scene.sphereRadius.
  split; lra.
Qed.

End Strafing.

Section StrafingExample.
Import JS TargetComponent Examples.

(** A strafing target spawned and set up at [halfEnv], at its second
    frame. *)
Lemma strafing_target_stays_in_the_room_witness :
  unit_interval halfEnv /\
  exists out mp x,
    nth_error
      (run (mkProps (fst (TargetManager.generateRandomPosition [] halfEnv)) 5
                    TargetManager.strafing true)
           (fst (useMemos
                   (mkProps (fst (TargetManager.generateRandomPosition [] halfEnv)) 5
                            TargetManager.strafing true)
                   halfEnv))
           threeFrames
           (mountEffect
              (mkProps (fst (TargetManager.generateRandomPosition [] halfEnv)) 5
                       TargetManager.strafing true)
              (fst (useMemos
                      (mkProps (fst (TargetManager.generateRandomPosition [] halfEnv)) 5
                               TargetManager.strafing true)
                      halfEnv))
              (mkRefs (Some sphere) 0 false)))
      1
    = Some out /\
    2 <= amplitude mp < 5 /\
    fst out = mkRefs (Some (mkMesh (Three.mkV 1 1 1) x)) 0 false /\
    snd out = None /\
    Scene.leftWallX < x - Scene.sphereRadius /\
    x + Scene.sphereRadius < Scene.rightWallX.
Proof.
  split; [exact halfEnv_unit_interval|].
  destruct (nth_error
              (run (mkProps (fst (TargetManager.generateRandomPosition [] halfEnv)) 5
                            TargetManager.strafing true)
                   (fst (useMemos
                           (mkProps (fst (TargetManager.generateRandomPosition [] halfEnv))
                                    5 TargetManager.strafing true)
                           halfEnv))
                   threeFrames
                   (mountEffect
                      (mkProps (fst (TargetManager.generateRandomPosition [] halfEnv)) 5
                               TargetManager.strafing true)
                      (fst (useMemos
                              (mkProps (fst (TargetManager.generateRandomPosition
                                               [] halfEnv))
                                       5 TargetManager.strafing true)
                              halfEnv))
                      (mkRefs (Some sphere) 0 false)))
              1) as [out|] eqn:E.
  - destruct (strafing_target_stays_in_the_room
                [] halfEnv halfEnv 5 true sphere 0 false threeFrames 1 out
                halfEnv_unit_interval halfEnv_unit_interval E)
      as (mp & x & _ & _ & _ & Ha & Hout & Hsig & _ & Hl & Hr).
    exists out, mp, x. repeat split; try assumption; apply Ha.
  - exfalso. apply nth_error_None in E. rewrite run_length in E.
    unfold threeFrames in E. cbn [List.length] in E. lia.
Defined.

End StrafingExample.

(** ** How long a pulse target lives *)

Section PulseLifetime.
Import JS TargetComponent.

Lemma lifeClock_scale (speed : R) (frames : list (R * R)) :
  lifeClock speed frames = speed * lifeClock 1 frames.
Proof.
  induction frames as [|[t d] rest IH]; cbn [lifeClock]; [ring|].
  rewrite IH. ring.
Qed.

Lemma lifeAt_elapsed (speed : R) (frames : list (R * R)) (k : nat) :
  lifeAt speed frames k = speed * elapsedAt frames k.
Proof. unfold elapsedAt, lifeAt. apply lifeClock_scale. Qed.

Lemma elapsed_prefix (frames : list (R * R)) :
  Forall (fun f => 0 <= snd f) frames ->
  forall j k, (j <= k)%nat ->
              0 <= lifeClock 1 (firstn j frames) <= lifeClock 1 (firstn k frames).
Proof.
  induction 1 as [|[t d] rest Hd _ IH]; intros j k Hjk.
  - rewrite !firstn_nil. cbn [lifeClock]. lra.
  - cbn [snd] in Hd. destruct j as [|j]; destruct k as [|k]; try lia;
      cbn [firstn lifeClock].
    + lra.
    + destruct (IH 0%nat k ltac:(lia)) as [_ H]. cbn [firstn lifeClock] in H. lra.
    + destruct (IH j k ltac:(lia)). lra.
Qed.

(** A pulse target lives between 2 pi and pi / 0.3 seconds of frame time
    (6.28 to 10.47): with frames of non-negative [delta], as long as the
    frame time spent is 2 pi or less no timeout is signalled, the flag is
    unset and the scale is in [0, 1.5]; and once the frame time spent is
    above pi / 0.3 the timeout has been signalled. *)
Theorem pulse_target_lifetime
  (props : Props) (m : Mesh) (l0 : R) (h0 : bool) (frames : list (R * R)) (e : Env)
  (k : nat) (out : Refs * option R) :
  gameMode props = TargetManager.pulse ->
  unit_interval e ->
  Forall (fun f => 0 <= snd f) frames ->
  let memo := fst (useMemos props e) in
  nth_error (run props memo frames (mountEffect props memo (mkRefs (Some m) l0 h0))) k
  = Some out ->
  (elapsedAt frames k <= 2 * PI ->
   snd out = None /\
   hasTimedOut (fst out) = false /\
   exists s, meshRef (fst out) = Some (setScale s m) /\
             option_map scale (meshRef (fst out)) = Some (Three.mkV s s s) /\
             0 <= s <= 1.5) /\
  (PI / 0.3 < elapsedAt frames k -> hasTimedOut (fst out) = true).
Proof.
  intros Hpulse He Hpos memo Hk.
  assert (Hmount : mountEffect props memo (mkRefs (Some m) l0 h0)
                   = mkRefs (Some (setScale 0 m)) 0 false).
  { unfold mountEffect. cbn [meshRef]. now rewrite Hpulse. }
  rewrite Hmount in Hk.
  assert (Hspeed : 0.3 <= pulseSpeed memo < 0.5).
  { unfold memo. rewrite (useMemos_pulseSpeed _ _ Hpulse).
    pose proof (He (cursor e)). lra. }
  destruct (run_pulse props memo Hpulse _ _ _ _ _ _ Hk)
    as (Hlife & Hmesh & Hsig & _ & Hfire).
  pose proof (run_pulse_flag props memo Hpulse _ _ _ _ _ _ Hk) as Hflag.
  specialize (Hfire eq_refl).
  rewrite Rplus_0_l in Hlife, Hmesh, Hfire.
  rewrite lifeAt_elapsed in Hlife, Hmesh, Hfire.
  assert (Hmono : forall j, (j <= k)%nat ->
                            0 <= elapsedAt frames j <= elapsedAt frames k).
  { intros j Hj. unfold elapsedAt, lifeAt. apply elapsed_prefix; [exact Hpos|lia]. }
  split.
  - intros Hshort.
    assert (Hnot : forall j, (j <= k)%nat ->
                             ~ PI < 0 + lifeAt (pulseSpeed memo) frames j).
    { intros j Hj. rewrite Rplus_0_l, lifeAt_elapsed.
      specialize (Hmono j Hj). nra. }
    split.
    { destruct (snd out) eqn:Es; [|reflexivity].
      exfalso. assert (Hs : Some r <> None) by discriminate.
      apply Hfire in Hs. destruct Hs as (_ & Hlt & _).
      apply (Hnot k (Nat.le_refl k)). rewrite Rplus_0_l, lifeAt_elapsed. exact Hlt. }
    split.
    { apply not_true_is_false. intros Eh.
      apply Hflag in Eh. destruct Eh as [Eh|(j & Hj & Hlt)]; [discriminate|].
      exact (Hnot j Hj Hlt). }
    exists (sin (pulseSpeed memo * elapsedAt frames k) * 1.5).
    split.
    { rewrite Hmesh. unfold setScale. reflexivity. }
    split.
    { rewrite Hmesh. reflexivity. }
    specialize (Hmono k (Nat.le_refl k)).
    assert (H0 : 0 <= pulseSpeed memo * elapsedAt frames k) by nra.
    assert (H1 : pulseSpeed memo * elapsedAt frames k <= PI) by nra.
    pose proof (sin_ge_0 _ H0 H1). pose proof (SIN_bound (pulseSpeed memo * elapsedAt frames k)).
    lra.
  - intros Hlong. apply Hflag. right. exists k. split; [lia|].
    rewrite Rplus_0_l, lifeAt_elapsed.
    assert (PI < 0.3 * elapsedAt frames k).
    { apply (Rmult_lt_compat_l 0.3) in Hlong; [|lra].
      replace (0.3 * (PI / 0.3)) with PI in Hlong by (field; lra). exact Hlong. }
    specialize (Hmono k (Nat.le_refl k)). nra.
Qed.

End PulseLifetime.

Section PulseLifetimeExample.
Import JS TargetComponent Examples.

Lemma threeFrames_forward : Forall (fun f => 0 <= snd f) threeFrames.
Proof. unfold threeFrames. repeat constructor; cbn [snd]; lra. Qed.

(** The target 9 over [threeFrames]: 5 seconds of frame time after the
    first frame, 15 after the second. *)
Lemma pulse_target_lifetime_witness :
  gameMode pulseProps = TargetManager.pulse /\
  unit_interval halfEnv /\
  Forall (fun f => 0 <= snd f) threeFrames /\
  elapsedAt threeFrames 0 <= 2 * PI /\
  PI / 0.3 < elapsedAt threeFrames 1 /\
  (exists out,
     nth_error (run pulseProps (fst (useMemos pulseProps halfEnv)) threeFrames
                    (mountEffect pulseProps (fst (useMemos pulseProps halfEnv))
                                 (mkRefs (Some sphere) 0 false))) 0 = Some out /\
     snd out = None /\ hasTimedOut (fst out) = false) /\
  (exists out,
     nth_error (run pulseProps (fst (useMemos pulseProps halfEnv)) threeFrames
                    (mountEffect pulseProps (fst (useMemos pulseProps halfEnv))
                                 (mkRefs (Some sphere) 0 false))) 1 = Some out /\
     hasTimedOut (fst out) = true).
Proof.
  assert (H0 : elapsedAt threeFrames 0 <= 2 * PI).
  { unfold elapsedAt, lifeAt, threeFrames; cbn [firstn lifeClock].
    pose proof PI_above_3. lra. }
  assert (H1 : PI / 0.3 < elapsedAt threeFrames 1).
  { unfold elapsedAt, lifeAt, threeFrames; cbn [firstn lifeClock].
    pose proof PI_4. lra. }
  split; [reflexivity|]. split; [exact halfEnv_unit_interval|].
  split; [exact threeFrames_forward|]. split; [exact H0|]. split; [exact H1|].
  split.
  - destruct (nth_error (run pulseProps (fst (useMemos pulseProps halfEnv)) threeFrames
                             (mountEffect pulseProps (fst (useMemos pulseProps halfEnv))
                                          (mkRefs (Some sphere) 0 false))) 0)
      as [out|] eqn:E.
    + exists out. split; [reflexivity|].
      destruct (pulse_target_lifetime pulseProps sphere 0 false threeFrames halfEnv 0 out
                  eq_refl halfEnv_unit_interval threeFrames_forward E) as [Hshort _].
      destruct (Hshort H0) as (Hs & Hf & _). now split.
    + exfalso. apply nth_error_None in E. rewrite run_length in E.
      unfold threeFrames in E. cbn [List.length] in E. lia.
  - destruct (nth_error (run pulseProps (fst (useMemos pulseProps halfEnv)) threeFrames
                             (mountEffect pulseProps (fst (useMemos pulseProps halfEnv))
                                          (mkRefs (Some sphere) 0 false))) 1)
      as [out|] eqn:E.
    + exists out. split; [reflexivity|].
      destruct (pulse_target_lifetime pulseProps sphere 0 false threeFrames halfEnv 1 out
                  eq_refl halfEnv_unit_interval threeFrames_forward E) as [_ Hlong].
      exact (Hlong H1).
    + exfalso. apply nth_error_None in E. rewrite run_length in E.
      unfold threeFrames in E. cbn [List.length] in E. lia.
Defined.

End PulseLifetimeExample.

(** ** The size of the collection through hits and timeouts *)

Section CollectionSize.
Import JS TargetManager.

Lemma filter_split_length {A : Type} (f : A -> bool) (l : list A) :
  (List.length (filter f l) + List.length (filter (fun x => negb (f x)) l)
   = List.length l)%nat.
Proof.
  induction l as [|a l IH]; [reflexivity|].
  cbn [filter]. destruct (f a); cbn [negb List.length]; lia.
Qed.

Lemma isLive_filter (targetId : R) (prev : list Target) :
  isLive targetId prev = true ->
  (1 <= List.length (filter (fun t => eqb (id t) targetId) prev))%nat.
Proof.
  unfold isLive. intros H. apply existsb_exists in H. destruct H as (t & Hin & Ht).
  assert (Hf : In t (filter (fun t => eqb (id t) targetId) prev))
    by (apply filter_In; now split).
  destruct (filter _ prev); [destruct Hf|cbn [List.length]; lia].
Qed.

(** A hit or a timeout never makes the collection larger: called with a
    live id it takes out every target that has this id and adds one, so the
    size goes from n to n + 1 - (number of targets with the id), and stays
    below n when several targets share the id; the targets with another id
    all stay. *)
Theorem hits_never_grow_the_collection (prev : list Target) (targetId : R) (e : Env) :
  let next := fst (handleTargetHit targetId prev e) in
  (List.length next <= List.length prev)%nat /\
  fst (handleTargetTimeout targetId prev e) = next /\
  (isLive targetId prev = true ->
   (List.length next + List.length (filter (fun t => eqb (id t) targetId) prev)
    = S (List.length prev))%nat) /\
  (forall t, In t prev -> id t <> targetId -> In t next).
Proof.
  intros next. unfold next.
  change (handleTargetTimeout targetId prev e) with (handleTargetHit targetId prev e).
  destruct (isLive targetId prev) eqn:Hlive.
  - rewrite (handleTargetHit_live _ _ _ Hlive). cbn [fst].
    pose proof (filter_split_length (fun t => eqb (id t) targetId) prev) as Hsplit.
    pose proof (isLive_filter _ _ Hlive) as Hone.
    cbv beta in Hsplit. unfold withoutId.
    rewrite !length_app. cbn [List.length].
    split; [lia|]. split; [reflexivity|]. split; [intros _; lia|].
    intros t Hin Hid. apply in_or_app. left. apply filter_In. split; [exact Hin|].
    apply negb_true_iff. now apply eqb_false.
  - rewrite (handleTargetHit_stale _ _ _ Hlive). cbn [fst].
    split; [lia|]. split; [reflexivity|]. split; [discriminate|]. now intros.
Qed.

(** The id 1 of [twins] is hit: both targets with the id go, two targets
    are left. *)
Lemma hits_never_grow_the_collection_witness :
  isLive 1 MoreExamples.twins = true /\
  List.length (filter (fun t => eqb (id t) 1) MoreExamples.twins) = 2%nat /\
  List.length (fst (handleTargetHit 1 MoreExamples.twins Examples.halfEnv)) = 2%nat.
Proof.
  assert (Hlive : isLive 1 MoreExamples.twins = true).
  { apply isLive_true. unfold MoreExamples.twins; cbn [map id In]. auto. }
  assert (Htwo : List.length (filter (fun t => eqb (id t) 1) MoreExamples.twins) = 2%nat).
  { unfold MoreExamples.twins. cbn [filter id]. rewrite eqb_refl.
    assert (E : eqb 2 1 = false) by (apply eqb_false; lra). now rewrite E. }
  destruct (hits_never_grow_the_collection MoreExamples.twins 1 Examples.halfEnv)
    as (_ & _ & Hlaw & _).
  specialize (Hlaw Hlive). rewrite Htwo in Hlaw.
  split; [exact Hlive|]. split; [exact Htwo|].
  unfold MoreExamples.twins in Hlaw at 2. cbn [List.length] in Hlaw. lia.
Defined.

End CollectionSize.

(** ** Separation through replacements and staggered spawns *)

Section SeparationKept.
Import JS TargetManager.

Lemma separated_cons (a : Target) (l : list Target) :
  separated (a :: l) <->
  (forall b, In b l -> MIN_DISTANCE <= distance (position a) (position b)) /\
  separated l.
Proof.
  split.
  - intros H. split.
    + intros b Hb. apply In_nth_error in Hb. destruct Hb as [j Hj].
      apply (H 0%nat (S j) a b); [lia|reflexivity|exact Hj].
    + intros i j x y Hij Hx Hy. apply (H (S i) (S j) x y); [lia|exact Hx|exact Hy].
  - intros [Ha Hl] i j x y Hij Hx Hy.
    destruct i as [|i]; destruct j as [|j]; cbn [nth_error] in Hx, Hy; try lia.
    + inversion Hx; subst x. apply Ha. eapply nth_error_In; eauto.
    + inversion Hy; subst y. rewrite distance_sym. apply Ha.
      eapply nth_error_In; eauto.
    + apply (Hl i j x y); [lia|exact Hx|exact Hy].
Qed.

Lemma separated_filter (f : Target -> bool) (l : list Target) :
  separated l -> separated (filter f l).
Proof.
  induction l as [|a l IH]; intros H; cbn [filter]; [exact H|].
  apply separated_cons in H. destruct H as [Ha Hl].
  destruct (f a); [|now apply IH].
  apply separated_cons. split; [|now apply IH].
  intros b Hb. apply filter_In in Hb. now apply Ha.
Qed.

Lemma append_accepted_separated (prev : list Target) (e : Env) (newId : R) :
  separated prev -> accepted prev e ->
  separated (prev ++ [mkTarget newId (fst (generateRandomPosition prev e))]).
Proof.
  intros Hsep Hacc.
  destruct (accepted_inv _ _ Hacc) as (p & e' & _ & Hgen & Hfar).
  rewrite Hgen. cbn [fst]. apply separated_snoc; [exact Hsep|].
  now apply tooClose_false.
Qed.

(** Separation is kept by every way a target is added: when the live
    targets are pairwise 2.5 apart or more and the call of the generator is
    accepted, they still are after a hit, after a timeout, after a staggered
    spawn of mode pulse and after [spawnTarget]. *)
Theorem separation_is_kept
  (prev : list Target) (targetId : R) (i : nat) (e : Env) :
  separated prev ->
  (isLive targetId prev = true ->
   accepted (withoutId targetId prev) (skip 1 e) ->
   separated (fst (handleTargetHit targetId prev e)) /\
   separated (fst (handleTargetTimeout targetId prev e))) /\
  (accepted prev (skip 1 e) ->
   separated (fst (staggeredSpawn i prev e)) /\
   separated (fst (spawnTarget prev e))).
Proof.
  intros Hsep. split.
  - intros Hlive Hacc.
    change (handleTargetTimeout targetId) with (handleTargetHit targetId).
    rewrite (handleTargetHit_live _ _ _ Hlive). cbn [fst].
    split; apply append_accepted_separated; try exact Hacc;
      apply separated_filter; exact Hsep.
  - intros Hacc. rewrite staggeredSpawn_eq. cbn [fst].
    split; [now apply append_accepted_separated|].
    unfold spawnTarget, bind, Date_now, Math_random, ret.
    pose proof (append_accepted_separated prev (skip 1 e)
                  (IZR (clock e) + rand e (cursor e)) Hsep Hacc) as H.
    destruct (generateRandomPosition prev (skip 1 e)) as [p e']. exact H.
Qed.

End SeparationKept.

Section SeparationKeptExample.
Import JS TargetManager Examples.

Lemma far_apart (a b : Position) :
  6.25 <= (px a - px b) * (px a - px b) + (py a - py b) * (py a - py b)
          + (pz a - pz b) * (pz a - pz b) ->
  MIN_DISTANCE <= distance a b.
Proof. intros H. unfold distance. now apply sqrt_ge_MIN_DISTANCE. Qed.

Lemma trio_separated : separated trio.
Proof.
  unfold trio. apply separated_cons. split.
  - intros b [<-|[<-|[]]]; apply far_apart; cbn [position px py pz]; lra.
  - apply separated_cons. split.
    + intros b [<-|[]]. apply far_apart; cbn [position px py pz]; lra.
    + apply separated_cons. split; [intros b []|apply separated_nil].
Qed.

Lemma trio_without_3 :
  withoutId 3 trio = [mkTarget 1 (mkPos (-3) 1.5 8); mkTarget 2 (mkPos 0 4 8)].
Proof.
  unfold withoutId, trio. cbn [filter id].
  assert (E1 : eqb 1 3 = false) by (apply eqb_false; lra).
  assert (E2 : eqb 2 3 = false) by (apply eqb_false; lra).
  now rewrite E1, E2, eqb_refl.
Qed.

(** The target 3 of [trio] is hit and its replacement accepted at
    (2, 1.5, 8); a staggered spawn next to the first target of [trio] is
    accepted at (0, 4, 8). *)
Lemma separation_is_kept_witness :
  separated trio /\
  isLive 3 trio = true /\
  accepted (withoutId 3 trio) (skip 1 (skip 6 spreadEnv)) /\
  separated (fst (handleTargetHit 3 trio (skip 6 spreadEnv))) /\
  separated [mkTarget 1 (mkPos (-3) 1.5 8)] /\
  accepted [mkTarget 1 (mkPos (-3) 1.5 8)] (skip 1 (skip 3 spreadEnv)) /\
  separated (fst (staggeredSpawn 1 [mkTarget 1 (mkPos (-3) 1.5 8)] (skip 3 spreadEnv))).
Proof.
  assert (Hlive : isLive 3 trio = true).
  { apply isLive_true. unfold trio; cbn [map id In]. auto. }
  assert (Hacc : accepted (withoutId 3 trio) (skip 1 (skip 6 spreadEnv))).
  { unfold accepted. rewrite trio_without_3, spread_step_3. discriminate. }
  assert (Hone : separated [mkTarget 1 (mkPos (-3) 1.5 8)]).
  { apply separated_cons. split; [intros b []|apply separated_nil]. }
  assert (Hacc1 : accepted [mkTarget 1 (mkPos (-3) 1.5 8)] (skip 1 (skip 3 spreadEnv))).
  { unfold accepted. rewrite spread_step_2. discriminate. }
  destruct (separation_is_kept trio 3 0 (skip 6 spreadEnv) trio_separated)
    as [Hhit _].
  destruct (separation_is_kept [mkTarget 1 (mkPos (-3) 1.5 8)] 0 1
                               (skip 3 spreadEnv) Hone) as [_ Hspawn].
  split; [exact trio_separated|]. split; [exact Hlive|]. split; [exact Hacc|].
  split; [exact (proj1 (Hhit Hlive Hacc))|]. split; [exact Hone|].
  split; [exact Hacc1|]. exact (proj1 (Hspawn Hacc1)).
Defined.

End SeparationKeptExample.

(** ** Mouse look *)

Section MouseLook.
Import ThreeMath Controls.

Lemma clamp_range (x : R) : - PI_2 <= Rmax (- PI_2) (Rmin PI_2 x) <= PI_2.
Proof.
  assert (0 < PI_2) by (unfold PI_2; pose proof PI_RGT_0; lra).
  unfold Rmax, Rmin.
  destruct (Rle_dec PI_2 x); destruct (Rle_dec (- PI_2) _); lra.
Qed.

Lemma clamp_inside (x : R) :
  - PI_2 <= x <= PI_2 -> Rmax (- PI_2) (Rmin PI_2 x) = x.
Proof.
  intros H. unfold Rmax, Rmin.
  destruct (Rle_dec PI_2 x); destruct (Rle_dec (- PI_2) _); lra.
Qed.

(** Mouse look: the handler does nothing unless the pointer is locked and
    the menu closed; otherwise the yaw turns by the horizontal movement times
    sensitivity times 0.0022, the roll is kept, and the pitch turns likewise
    but never leaves [-pi/2, pi/2], whatever angle it is read at and however
    large the movement; inside this range the pitch is not altered by the
    clamp. *)
Theorem mouse_look_is_clamped
  (isLocked isMenuOpen : bool) (sensitivity movementX movementY : R)
  (fromQuaternion : Euler) :
  (handleMouseMove isLocked isMenuOpen sensitivity movementX movementY fromQuaternion
   = None <-> isLocked = false \/ isMenuOpen = true) /\
  (forall e,
     handleMouseMove isLocked isMenuOpen sensitivity movementX movementY fromQuaternion
     = Some e ->
     - (PI / 2) <= ex e <= PI / 2 /\
     ey e = ey fromQuaternion - movementX * sensitivity * 0.0022 /\
     ez e = ez fromQuaternion /\
     (- (PI / 2) <= ex fromQuaternion - movementY * sensitivity * 0.0022 <= PI / 2 ->
      ex e = ex fromQuaternion - movementY * sensitivity * 0.0022)).
Proof.
  unfold handleMouseMove. split.
  - destruct isLocked, isMenuOpen; cbn [negb orb]; split; intros H;
      try reflexivity; try discriminate; auto; destruct H; discriminate.
  - intros e H. destruct (negb isLocked || isMenuOpen)%bool; [discriminate|].
    inversion H; subst e; clear H. cbn [ex ey ez].
    fold PI_2. unfold SENSITIVITY_MULTIPLIER.
    split; [apply clamp_range|]. split; [reflexivity|]. split; [reflexivity|].
    apply clamp_inside.
Qed.

(** The view at pitch 1.5 is pulled up by 200 pixels at sensitivity 1, and
    ends at pi / 2. *)
Lemma mouse_look_is_clamped_witness :
  handleMouseMove true false 1 0 (-200) (mkEuler 1.5 PI 0)
  = Some (mkEuler (Rmax (- PI_2) (Rmin PI_2 (1.5 - -200 * 1 * 0.0022)))
                  (PI - 0 * 1 * 0.0022) 0) /\
  - (PI / 2) <= Rmax (- PI_2) (Rmin PI_2 (1.5 - -200 * 1 * 0.0022)) <= PI / 2 /\
  handleMouseMove true false 1 10 (-20) (mkEuler 0 PI 0)
  = Some (mkEuler (Rmax (- PI_2) (Rmin PI_2 (0 - -20 * 1 * 0.0022)))
                  (PI - 10 * 1 * 0.0022) 0) /\
  Rmax (- PI_2) (Rmin PI_2 (0 - -20 * 1 * 0.0022)) = 0 - -20 * 1 * 0.0022.
Proof.
  destruct (mouse_look_is_clamped true false 1 0 (-200) (mkEuler 1.5 PI 0))
    as [_ H1].
  destruct (mouse_look_is_clamped true false 1 10 (-20) (mkEuler 0 PI 0))
    as [_ H2].
  destruct (H1 _ eq_refl) as (Hrange & _).
  destruct (H2 _ eq_refl) as (_ & _ & _ & Hin).
  split; [reflexivity|]. split; [exact Hrange|]. split; [reflexivity|].
  apply Hin. cbn [ex]. pose proof PI_above_3. lra.
Defined.

End MouseLook.

(** ** The sensitivity typed in the settings *)

Section Sensitivity.
Import ThreeMath Controls.

Lemma numberInputChange_range (parsed : option R) (sensitivity : R) :
  0.1 <= sensitivity <= 5.0 ->
  0.1 <= SettingsMenu.numberInputChange parsed sensitivity <= 5.0.
Proof.
  intros H. unfold SettingsMenu.numberInputChange.
  destruct parsed as [value|]; [|exact H].
  destruct (JS.ltb value 0.1) eqn:E1; cbn [negb andb]; [exact H|].
  destruct (JS.ltb 5.0 value) eqn:E2; cbn [negb]; [exact H|].
  apply ltb_false in E1, E2. lra.
Qed.

(** Whatever is typed in the number input of the settings, in whatever
    order, the sensitivity, 1.0 at the start, stays within [0.1, 5.0]: a text
    that is not a number or a number out of this range leaves it as it is;
    so a mouse move turns the yaw by at most 0.011 rad for each pixel. *)
Theorem typed_sensitivity_stays_in_range
  (typed : list (option R)) (movementX movementY : R) (fromQuaternion : Euler) :
  let sensitivity :=
    fold_left (fun s parsed => SettingsMenu.numberInputChange parsed s) typed 1.0 in
  0.1 <= sensitivity <= 5.0 /\
  match handleMouseMove true false sensitivity movementX movementY fromQuaternion with
  | Some e => Rabs (ey e - ey fromQuaternion) <= 0.011 * Rabs movementX
  | None => False
  end.
Proof.
  intros sensitivity.
  assert (Hs : 0.1 <= sensitivity <= 5.0).
  { unfold sensitivity. generalize 1.0 (conj (ltac:(lra) : 0.1 <= 1.0)
                                             (ltac:(lra) : 1.0 <= 5.0)).
    induction typed as [|parsed rest IH]; intros s0 H0; cbn [fold_left].
    - exact H0.
    - apply IH. now apply numberInputChange_range. }
  split; [exact Hs|].
  unfold handleMouseMove. cbn [negb orb ey]. unfold SENSITIVITY_MULTIPLIER.
  replace (ey fromQuaternion - movementX * sensitivity * 0.0022 - ey fromQuaternion)
    with (- (sensitivity * 0.0022) * movementX) by ring.
  rewrite Rabs_mult, Rabs_Ropp, Rabs_pos_eq by nra.
  pose proof (Rabs_pos movementX). nra.
Qed.

End Sensitivity.

(** ** From the mouse down to the score *)

Section Click.
Import JS Controls.

Lemma handleShoot_notified (ray : Three.Ray) (intersects : list Player.Intersection) :
  (Game.hitsTarget intersects = true ->
   exists targetId,
     Player.notified (Player.handleShoot true ray intersects) = Some targetId) /\
  (Game.hitsTarget intersects = false ->
   Player.notified (Player.handleShoot true ray intersects) = None).
Proof.
  unfold Game.hitsTarget, Player.handleShoot.
  destruct (filter Player.keep intersects) as [|firstHit rest].
  - split; [discriminate|reflexivity].
  - destruct (Player.isTarget (Player.object firstHit)); split;
      try discriminate; try reflexivity.
    intros _. eexists. reflexivity.
Qed.

Lemma handleMouseDown_shot (isMenuOpen isLocked : bool) (button now : Z)
  (weapon : option Weapon.State) (ray : Three.Ray)
  (intersects : list Player.Intersection) :
  shot (handleMouseDown isMenuOpen isLocked button now weapon true ray intersects)
  = if Game.canFire isMenuOpen isLocked button weapon
    then Some (Player.handleShoot true ray intersects) else None.
Proof.
  unfold handleMouseDown, Game.canFire.
  destruct isMenuOpen; [reflexivity|]. cbn [negb andb].
  destruct (button =? 0)%Z; [|reflexivity]. cbn [negb andb].
  destruct isLocked; [|reflexivity]. cbn [andb].
  destruct weapon as [w|]; [|reflexivity].
  unfold Weapon.handleFire. destruct (Weapon.meshRef w); reflexivity.
Qed.

(** A mouse down resolves a shot exactly when the menu is closed, the
    button is the left one, the pointer is locked and the weapon is mounted;
    it adds 1 to the score, and plays the hit sound once, when moreover the
    first intersection kept by the filter is on a target; in every other
    case the score, the live targets and the random source are left as they
    are. *)
Theorem a_click_scores_only_in_play
  (isMenuOpen isLocked : bool) (button now : Z) (weapon : option Weapon.State)
  (ray : Three.Ray) (intersects : list Player.Intersection)
  (app : App.State) (e : Env) :
  let r := Game.click isMenuOpen isLocked button now weapon ray intersects app e in
  shot (snd (fst r))
  = (if Game.canFire isMenuOpen isLocked button weapon
     then Some (Player.handleShoot true ray intersects) else None) /\
  (if Game.canFire isMenuOpen isLocked button weapon && Game.hitsTarget intersects
   then App.score (fst (fst r)) = (App.score app + 1)%Z /\
        App.hitSounds (fst (fst r)) = S (App.hitSounds app)
   else fst (fst r) = app /\ snd r = e).
Proof.
  intros r. unfold r, Game.click.
  pose proof (handleMouseDown_shot isMenuOpen isLocked button now weapon ray intersects)
    as Hshot.
  destruct (handleShoot_notified ray intersects) as [Hhit Hmiss].
  set (o := handleMouseDown isMenuOpen isLocked button now weapon true ray intersects)
    in *.
  rewrite Hshot.
  destruct (Game.canFire isMenuOpen isLocked button weapon); cbn [andb].
  - destruct (Game.hitsTarget intersects).
    + destruct (Hhit eq_refl) as [targetId Hid]. rewrite Hid.
      unfold bind, App.handleTargetHit.
      destruct (App.targetManagerRef app) as [prev|].
      * unfold bind. destruct (TargetManager.handleTargetHit targetId prev e).
        cbn [ret fst snd App.score App.hitSounds]. now rewrite Hshot.
      * cbn [ret fst snd App.score App.hitSounds]. now rewrite Hshot.
    + rewrite (Hmiss eq_refl). cbn [ret fst snd]. now rewrite Hshot.
  - cbn [ret fst snd]. now rewrite Hshot.
Qed.

End Click.

(** ** The lasers of the player *)

Section LaserBeams.
Import Controls.

Lemma runLaserTimers_spec (t : Z) (timers : list (Z * Z)) :
  forall prev,
    snd (runLaserTimers t timers prev)
    = filter (fun tm => negb (fst tm <=? t)%Z) timers /\
    (forall b,
       In b (fst (runLaserTimers t timers prev)) <->
       In b prev /\
       forall due laserId, In (due, laserId) timers -> (due <= t)%Z -> laserId <> id b).
Proof.
  induction timers as [|[due laserId] rest IH]; intros prev.
  - cbn. split; [reflexivity|]. intros b. split; [intros H; split; [exact H|]|tauto].
    intros ? ? [].
  - cbn [runLaserTimers filter fst]. destruct (Z.leb_spec due t) as [Hdue|Hlate];
      cbn [negb].
    + destruct (IH (removeLaser laserId prev)) as [Hq Hin]. split; [exact Hq|].
      intros b. rewrite Hin. unfold removeLaser. rewrite filter_In. split.
      * intros [[Hb Hid] Hrest]. split; [exact Hb|].
        intros d l [Heq|Hin'] Hd; [|now apply (Hrest d l)].
        inversion Heq; subst d l. apply negb_true_iff, Z.eqb_neq in Hid.
        congruence.
      * intros [Hb Hall]. split; [split; [exact Hb|]|].
        -- apply negb_true_iff, Z.eqb_neq. intros Heq.
           apply (Hall due laserId); [now left|exact Hdue|now symmetry].
        -- intros d l Hin' Hd. apply (Hall d l); [now right|exact Hd].
    + destruct (IH prev) as [Hq Hin]. cbn [fst snd]. split; [now rewrite Hq|].
      intros b. rewrite Hin. split; intros [Hb Hall]; (split; [exact Hb|]).
      * intros d l [Heq|Hin'] Hd; [inversion Heq; subst; lia|now apply (Hall d l)].
      * intros d l Hin' Hd. apply (Hall d l); [now right|exact Hd].
Qed.

(** At time [now]: each laser has its timer pending, and each timer is due
    100 after the shot it belongs to, within 100 from now. *)
Let laserInv (now : Z) (s : Lasers) : Prop :=
  (forall b, In b (lasers s) -> In ((id b + 100)%Z, id b) (laserTimers s)) /\
  (forall due laserId,
     In (due, laserId) (laserTimers s) ->
     (now < due <= now + 100)%Z /\ due = (laserId + 100)%Z).

Lemma advanceLasers_inv (now t : Z) (s : Lasers) :
  (now <= t)%Z -> laserInv now s -> laserInv t (advanceLasers t s).
Proof.
  intros Ht [Hbeam Htimer]. unfold laserInv, advanceLasers. cbn [lasers laserTimers].
  destruct (runLaserTimers_spec t (laserTimers s) (lasers s)) as [Hq Hin].
  rewrite Hq. split.
  - intros b Hb. apply Hin in Hb. destruct Hb as [Hb Hnot].
    apply filter_In. split; [now apply Hbeam|]. cbn [fst].
    apply negb_true_iff, Z.leb_gt.
    destruct (Z.le_gt_cases (id b + 100) t) as [Hfired|Hlate]; [|lia].
    exfalso. exact (Hnot _ _ (Hbeam b Hb) Hfired eq_refl).
  - intros due laserId Hin'. apply filter_In in Hin'. destruct Hin' as [Hin' Hlate].
    cbn [fst] in Hlate. apply negb_true_iff, Z.leb_gt in Hlate.
    destruct (Htimer _ _ Hin'). split; lia.
Qed.

Lemma addLaser_inv (t : Z) (a b : Three.Vector3) (s : Lasers) :
  laserInv t s -> laserInv t (addLaser t a b s).
Proof.
  intros [Hbeam Htimer]. unfold laserInv, addLaser. cbn [lasers laserTimers]. split.
  - intros x Hx. apply in_app_or in Hx. apply in_or_app.
    destruct Hx as [Hx|[<-|[]]]; [left; now apply Hbeam|right; now left].
  - intros due laserId Hin. apply in_app_or in Hin.
    destruct Hin as [Hin|[Heq|[]]]; [now apply Htimer|].
    inversion Heq; subst. split; lia.
Qed.

Lemma shoot_inv (shots : list (Z * (Three.Vector3 * Three.Vector3))) :
  forall now s,
    shotsInOrder now shots -> laserInv now s ->
    laserInv (lastShot now shots) (shoot shots s).
Proof.
  induction shots as [|[t [a b]] rest IH]; intros now s Hord H;
    cbn [shoot lastShot].
  - exact H.
  - destruct Hord as [Ht Hrest]. apply (IH t); [exact Hrest|].
    apply addLaser_inv. apply (advanceLasers_inv now); assumption.
Qed.

(** No laser is shown for 100 ms or more: after any shots, taken in the
    order of their times, every laser in the list was shot less than 100
    before the last shot, and 100 after the last shot the list is empty and
    no timer is left. *)
Theorem lasers_last_less_than_100ms
  (shots : list (Z * (Three.Vector3 * Three.Vector3))) (t0 : Z) :
  shotsInOrder t0 shots ->
  let s := shoot shots (mkLasers [] []) in
  let now := lastShot t0 shots in
  (forall b, In b (lasers s) -> (now - 100 < id b <= now)%Z) /\
  (forall t, (now + 100 <= t)%Z -> advanceLasers t s = mkLasers [] []).
Proof.
  intros Hord s now.
  assert (H0 : laserInv t0 (mkLasers [] [])).
  { split; [intros b []|intros due laserId []]. }
  pose proof (shoot_inv shots t0 _ Hord H0) as [Hbeam Htimer].
  fold s now in Hbeam, Htimer. split.
  - intros b Hb. destruct (Htimer _ _ (Hbeam b Hb)). lia.
  - intros t Ht. unfold advanceLasers.
    destruct (runLaserTimers_spec t (laserTimers s) (lasers s)) as [Hq Hin].
    rewrite Hq. f_equal.
    + destruct (fst (runLaserTimers t (laserTimers s) (lasers s))) as [|b rest] eqn:E;
        [reflexivity|].
      exfalso. assert (Hb : In b (b :: rest)) by now left.
      apply Hin in Hb. destruct Hb as [Hb Hnot].
      destruct (Htimer _ _ (Hbeam b Hb)).
      apply (Hnot _ _ (Hbeam b Hb)); [lia|reflexivity].
    + destruct (filter _ (laserTimers s)) as [|[due laserId] rest] eqn:E; [reflexivity|].
      exfalso.
      assert (Hd : In (due, laserId)
                      (filter (fun tm => negb (fst tm <=? t)%Z) (laserTimers s)))
        by (rewrite E; now left).
      apply filter_In in Hd. destruct Hd as [Hd Hlate]. cbn [fst] in Hlate.
      apply negb_true_iff, Z.leb_gt in Hlate. destruct (Htimer _ _ Hd). lia.
Qed.

(** Shots at 0, 50 and 120 along [aim]: at 120 the laser of the first is
    gone, and at 220 none is left. *)
Lemma lasers_last_less_than_100ms_witness :
  shotsInOrder 0 [(0, (Three.origin Examples.aim, Three.at_ Examples.aim 100));
                  (50, (Three.origin Examples.aim, Three.at_ Examples.aim 100));
                  (120, (Three.origin Examples.aim, Three.at_ Examples.aim 100))]%Z /\
  map id (lasers (shoot [(0, (Three.origin Examples.aim, Three.at_ Examples.aim 100));
                         (50, (Three.origin Examples.aim, Three.at_ Examples.aim 100));
                         (120, (Three.origin Examples.aim, Three.at_ Examples.aim 100))]%Z
                        (mkLasers [] [])))
  = [50; 120]%Z /\
  advanceLasers 220
    (shoot [(0, (Three.origin Examples.aim, Three.at_ Examples.aim 100));
            (50, (Three.origin Examples.aim, Three.at_ Examples.aim 100));
            (120, (Three.origin Examples.aim, Three.at_ Examples.aim 100))]%Z
           (mkLasers [] []))
  = mkLasers [] [].
Proof.
  assert (Hord : shotsInOrder 0
                   [(0, (Three.origin Examples.aim, Three.at_ Examples.aim 100));
                    (50, (Three.origin Examples.aim, Three.at_ Examples.aim 100));
                    (120, (Three.origin Examples.aim, Three.at_ Examples.aim 100))]%Z)
    by (cbn [shotsInOrder]; lia).
  destruct (lasers_last_less_than_100ms _ 0%Z Hord) as [_ Hgone].
  split; [exact Hord|]. split; [reflexivity|].
  apply Hgone. cbn [lastShot]. lia.
Defined.

End LaserBeams.

(** ** The fading of a laser *)

Section LaserFade.

Lemma progress_below_1 (startTime now : Z) :
  JS.ltb (IZR (now - startTime) / Laser.duration) 1.0 = true <->
  (now < startTime + 100)%Z.
Proof.
  rewrite ltb_true. unfold Laser.duration. split; intros H.
  - assert (H' : IZR (now - startTime) < IZR 100) by lra.
    apply lt_IZR in H'. lia.
  - assert (H' : IZR (now - startTime) < IZR 100) by (apply IZR_lt; lia).
    lra.
Qed.

(** A laser fades and then asks to be removed: at a frame less than 100 ms
    after it was mounted the opacity written is 1 - elapsed / 100, in (0, 1],
    and it does not go up from a frame to a later one; from 100 ms on nothing
    is written any more and [onComplete], when provided, is called at every
    frame; with no material mounted the frame does nothing. *)
Theorem laser_fades_then_completes
  (material onComplete : bool) (startTime now later : Z) :
  (startTime <= now <= later)%Z ->
  (snd (Laser.useFrame material onComplete startTime now) = true <->
   material = true /\ onComplete = true /\ (startTime + 100 <= now)%Z) /\
  (fst (Laser.useFrame material onComplete startTime now) = None <->
   material = false \/ (startTime + 100 <= now)%Z) /\
  (forall opacity,
     fst (Laser.useFrame material onComplete startTime now) = Some opacity ->
     opacity = 1 - IZR (now - startTime) / 100 /\
     0 < opacity <= 1 /\
     forall opacity',
       fst (Laser.useFrame material onComplete startTime later) = Some opacity' ->
       opacity' <= opacity).
Proof.
  intros [Hstart Hlater]. unfold Laser.useFrame.
  pose proof (progress_below_1 startTime now) as Hnow.
  pose proof (progress_below_1 startTime later) as Hthen.
  destruct material; cbn [negb].
  - destruct (JS.ltb (IZR (now - startTime) / Laser.duration) 1.0) eqn:E; cbn [negb fst snd].
    + assert (Hn : (now < startTime + 100)%Z) by now apply Hnow.
      split; [split; [discriminate|intros (_ & _ & H); lia]|].
      split; [split; [discriminate|intros [H|H]; [discriminate|lia]]|].
      intros opacity Hop. inversion Hop; subst opacity; clear Hop.
      unfold Laser.duration.
      assert (H0 : 0 <= IZR (now - startTime)) by (apply IZR_le; lia).
      assert (H1 : IZR (now - startTime) < 100) by (apply IZR_lt; lia).
      split; [lra|]. split; [lra|].
      intros opacity' Hop'.
      destruct (JS.ltb (IZR (later - startTime) / 100) 1.0); cbn [negb fst] in Hop';
        [|discriminate].
      inversion Hop'; subst opacity'.
      assert (IZR (now - startTime) <= IZR (later - startTime)) by (apply IZR_le; lia).
      lra.
    + assert (Hn : ~ (now < startTime + 100)%Z)
        by (intros H; apply Hnow in H; discriminate).
      split.
      * split; [intros ->; repeat split; lia|now intros (_ & -> & _)].
      * split; [split; [intros _; right; lia|reflexivity]|discriminate].
  - cbn [fst snd]. split; [split; [discriminate|now intros (H & _)]|].
    split; [split; [now left|reflexivity]|discriminate].
Qed.

(** A laser mounted at 1000: at 1040 its opacity is 0.6, at 1100 it
    completes. *)
Lemma laser_fades_then_completes_witness :
  (1000 <= 1040 <= 1100)%Z /\
  fst (Laser.useFrame true true 1000 1040) = Some (1.0 - IZR (1040 - 1000) / Laser.duration) /\
  0 < 1.0 - IZR (1040 - 1000) / Laser.duration <= 1 /\
  snd (Laser.useFrame true true 1000 1100) = true.
Proof.
  assert (Hord : (1000 <= 1040 <= 1100)%Z) by lia.
  assert (Hlast : (1000 <= 1100 <= 1100)%Z) by lia.
  assert (E : fst (Laser.useFrame true true 1000 1040)
              = Some (1.0 - IZR (1040 - 1000) / Laser.duration)).
  { unfold Laser.useFrame. cbn [negb].
    assert (H : JS.ltb (IZR (1040 - 1000) / Laser.duration) 1.0 = true)
      by (apply progress_below_1; lia).
    now rewrite H. }
  destruct (laser_fades_then_completes true true 1000 1040 1100 Hord)
    as (_ & _ & Hop).
  destruct (laser_fades_then_completes true true 1000 1100 1100 Hlast)
    as (Hdone & _).
  split; [exact Hord|]. split; [exact E|].
  split; [exact (proj1 (proj2 (Hop _ E)))|].
  apply Hdone. repeat split. lia.
Defined.

End LaserFade.

(** ** The menus *)

Section MenuStates.
Import Menus.

Lemma step_exclusive (s : State) (pev : Page * Event) :
  (isMenuOpen s && isGameMenuOpen s)%bool = false ->
  (isMenuOpen (step s pev) && isGameMenuOpen (step s pev))%bool = false.
Proof.
  destruct pev as [page ev]. destruct s as [m g i mode].
  unfold step, handle, afterRender. cbn [fst snd isMenuOpen isGameMenuOpen].
  intros H. destruct ev as [key| | |mode'].
  - unfold escapeKeyDown, tabKeyDown.
    destruct (String.eqb_spec key "Escape") as [->|_];
      [|destruct (String.eqb key "Tab")];
      destruct m; destruct g; try discriminate H; cbn; reflexivity.
  - unfold handlePointerLockChange.
    destruct i; destruct (pointerLocked page); destruct m; destruct g;
      try discriminate H; cbn; reflexivity.
  - unfold resumeClicked.
    destruct m; destruct g; try discriminate H; cbn; reflexivity.
  - unfold modeSelected.
    destruct m; destruct g; try discriminate H; cbn; reflexivity.
Qed.

Lemma step_gameMode (s : State) (pev : Page * Event) :
  gameMode (step s pev)
  = match snd pev with ModeSelected mode => mode | _ => gameMode s end.
Proof.
  destruct pev as [page ev]. unfold step, afterRender. cbn [fst snd].
  destruct (negb _ && _)%bool; cbn [fst gameMode];
    destruct ev; cbn [handle fst gameMode]; try reflexivity;
    unfold handlePointerLockChange;
    destruct (ignoreNextUnlock s); try reflexivity;
    destruct (negb _ && _ && _)%bool; reflexivity.
Qed.

Lemma play_invariants (evs : list (Page * Event)) :
  forall s,
    (isMenuOpen s && isGameMenuOpen s)%bool = false ->
    (isMenuOpen (play evs s) && isGameMenuOpen (play evs s))%bool = false /\
    gameMode (play evs s) = lastMode (gameMode s) evs.
Proof.
  unfold play. induction evs as [|[page ev] rest IH]; intros s H;
    cbn [fold_left lastMode].
  - now split.
  - destruct (IH _ (step_exclusive s (page, ev) H)) as [H1 H2].
    split; [exact H1|]. rewrite H2, step_gameMode. cbn [snd].
    destruct ev; reflexivity.
Qed.

(** The settings menu and the game menu are never open together, whatever
    keys are pressed, whatever buttons are clicked and however the pointer
    lock changes, in whatever order; the game mode is the one selected last,
    normal before any selection; and in every state reached the Escape key
    does nothing while the game menu is open, the Tab key nothing while the
    settings are open, and any other key nothing at all. *)
Theorem menus_are_never_both_open
  (evs : list (Page * Event)) (page : Page) (key : string) :
  let s := play evs initial in
  (isMenuOpen s && isGameMenuOpen s)%bool = false /\
  gameMode s = lastMode TargetManager.normal evs /\
  (isGameMenuOpen s = true ->
   handle page s (KeyDown "Escape") = (s, []) /\ step s (page, KeyDown "Escape") = s) /\
  (isMenuOpen s = true ->
   handle page s (KeyDown "Tab") = (s, []) /\ step s (page, KeyDown "Tab") = s) /\
  (String.eqb key "Escape" = false -> String.eqb key "Tab" = false ->
   handle page s (KeyDown key) = (s, []) /\ step s (page, KeyDown key) = s).
Proof.
  intros s. destruct (play_invariants evs initial eq_refl) as [Hex Hmode].
  fold s in Hex, Hmode. split; [exact Hex|]. split; [exact Hmode|].
  destruct s as [m g i mode]. cbn [isMenuOpen isGameMenuOpen] in *.
  unfold step, handle, afterRender, escapeKeyDown, tabKeyDown.
  cbn [fst snd isMenuOpen isGameMenuOpen ignoreNextUnlock gameMode].
  split; [|split].
  - intros ->. destruct m; [discriminate Hex|].
    cbn. destruct i; split; reflexivity.
  - intros ->. destruct g; [discriminate Hex|].
    cbn. destruct i; split; reflexivity.
  - intros -> ->. cbn. destruct m, g, i; try discriminate Hex; split; reflexivity.
Qed.

End MenuStates.

Section MenuStatesExample.
Import Menus MoreExamples.

(** Tab opens the game menu, where Escape does nothing; a mode is selected;
    Escape then opens the settings, where Tab does nothing. *)
Lemma menus_are_never_both_open_witness :
  isGameMenuOpen (play [(inPlay, KeyDown "Tab")] initial) = true /\
  step (play [(inPlay, KeyDown "Tab")] initial) (pointerFree, KeyDown "Escape")
  = play [(inPlay, KeyDown "Tab")] initial /\
  isMenuOpen (play [(inPlay, KeyDown "Tab");
                    (pointerFree, ModeSelected TargetManager.pulse);
                    (inPlay, KeyDown "Escape")] initial) = true /\
  gameMode (play [(inPlay, KeyDown "Tab");
                  (pointerFree, ModeSelected TargetManager.pulse);
                  (inPlay, KeyDown "Escape")] initial) = TargetManager.pulse /\
  step (play [(inPlay, KeyDown "Tab");
              (pointerFree, ModeSelected TargetManager.pulse);
              (inPlay, KeyDown "Escape")] initial) (pointerFree, KeyDown "Tab")
  = play [(inPlay, KeyDown "Tab");
          (pointerFree, ModeSelected TargetManager.pulse);
          (inPlay, KeyDown "Escape")] initial.
Proof.
  destruct (menus_are_never_both_open [(inPlay, KeyDown "Tab")] pointerFree "a")
    as (_ & _ & Hesc & _).
  destruct (menus_are_never_both_open
              [(inPlay, KeyDown "Tab");
               (pointerFree, ModeSelected TargetManager.pulse);
               (inPlay, KeyDown "Escape")] pointerFree "a")
    as (_ & Hmode & _ & Htab & _).
  split; [reflexivity|]. split; [exact (proj2 (Hesc eq_refl))|].
  split; [reflexivity|]. split; [exact Hmode|]. exact (proj2 (Htab eq_refl)).
Defined.

End MenuStatesExample.

(** ** The sounds *)

Section Sounds.
Import AudioSynth.

Lemma getAudioContext_spec (b : Browser) (a : Audio) :
  (audioContext a = true <-> constructed a = 1%nat) ->
  (constructed a <= 1)%nat ->
  let r := getAudioContext b a in
  (audioContext (fst r) = true <-> constructed (fst r) = 1%nat) /\
  (constructed (fst r) <= 1)%nat /\
  voices (fst r) = voices a /\
  snd r = audioContext (fst r) /\
  (supported b = true -> snd r = true) /\
  (supported b = false -> audioContext a = false ->
   snd r = false /\ warnings (fst r) = S (warnings a)
   /\ constructed (fst r) = constructed a) /\
  (audioContext a = true -> constructed (fst r) = constructed a) /\
  (snd r = false -> audioContext a = false).
Proof.
  intros Hiff Hle. unfold getAudioContext, resumeIfSuspended.
  destruct (audioContext a) eqn:Ha.
  - destruct (suspended b); cbn [fst snd audioContext constructed voices warnings];
      rewrite ?Ha; repeat split; auto; try apply Hiff; try discriminate.
  - assert (H0 : constructed a = 0%nat).
    { destruct (constructed a) as [|[|n]]; [reflexivity| |lia].
      destruct Hiff as [_ H]. specialize (H eq_refl). discriminate. }
    destruct (supported b); destruct (suspended b);
      cbn [fst snd audioContext constructed voices warnings]; rewrite ?H0;
      repeat split; auto; try discriminate; try lia.
Qed.

Lemma wellFormed_shoot (now : R) :
  wellFormed (mkVoice "square"
                      [setValueAtTime 2000 now]
                      [setValueAtTime 0 now;
                       linearRampToValueAtTime 0.1 (now + 0.001);
                       exponentialRampToValueAtTime 0.01 (now + 0.02);
                       linearRampToValueAtTime 0 (now + 0.05)]
                      now (now + 0.05)).
Proof.
  unfold wellFormed. cbn [gain frequency startAt stopAt].
  split; [eexists; reflexivity|].
  split; [exists [setValueAtTime 0 now; linearRampToValueAtTime 0.1 (now + 0.001);
                  exponentialRampToValueAtTime 0.01 (now + 0.02)]; reflexivity|].
  split; [repeat constructor; cbn [time value rampIsValid]; lra|].
  split; [repeat constructor|lra].
Qed.

Lemma wellFormed_pop (now : R) :
  wellFormed (mkVoice "sine"
                      [setValueAtTime 1200 now;
                       exponentialRampToValueAtTime 150 (now + 0.03)]
                      [setValueAtTime 0 now;
                       linearRampToValueAtTime 0.5 (now + 0.001);
                       exponentialRampToValueAtTime 0.01 (now + 0.03);
                       linearRampToValueAtTime 0 (now + 0.05)]
                      now (now + 0.05)).
Proof.
  unfold wellFormed. cbn [gain frequency startAt stopAt].
  split; [eexists; reflexivity|].
  split; [exists [setValueAtTime 0 now; linearRampToValueAtTime 0.5 (now + 0.001);
                  exponentialRampToValueAtTime 0.01 (now + 0.03)]; reflexivity|].
  split; [repeat constructor; cbn [time value rampIsValid]; lra|].
  split; [repeat constructor; cbn [rampIsValid]; lra|lra].
Qed.

Lemma wellFormed_click (now : R) :
  wellFormed (mkVoice "square"
                      [setValueAtTime 3000 now]
                      [setValueAtTime 0 now;
                       linearRampToValueAtTime 0.15 (now + 0.0005);
                       exponentialRampToValueAtTime 0.01 (now + 0.01);
                       linearRampToValueAtTime 0 (now + 0.02)]
                      now (now + 0.02)).
Proof.
  unfold wellFormed. cbn [gain frequency startAt stopAt].
  split; [eexists; reflexivity|].
  split; [exists [setValueAtTime 0 now; linearRampToValueAtTime 0.15 (now + 0.0005);
                  exponentialRampToValueAtTime 0.01 (now + 0.01)]; reflexivity|].
  split; [repeat constructor; cbn [time value rampIsValid]; lra|].
  split; [repeat constructor|lra].
Qed.

(** What holds of the module after any calls. *)
Let audioInv (a : Audio) : Prop :=
  (audioContext a = true <-> constructed a = 1%nat) /\
  (constructed a <= 1)%nat /\
  Forall wellFormed (voices a) /\
  (audioContext a = false -> voices a = []).

Lemma play1_inv (a : Audio) (call : Browser * Sound) :
  audioInv a -> audioInv (play1 a call).
Proof.
  intros (Hiff & Hle & Hwf & Hnone). destruct call as [b sound].
  destruct (getAudioContext_spec b a Hiff Hle)
    as (Hiff' & Hle' & Hv & Hctx & _ & _ & _ & Hwas).
  unfold play1. cbn [fst snd].
  destruct sound; [unfold playShootSound|unfold playHitSound];
    destruct (getAudioContext b a) as [a1 ctx]; cbn [fst snd] in *;
    destruct ctx; unfold audioInv, schedule;
    cbn [audioContext constructed voices].
  - split; [exact Hiff'|]. split; [exact Hle'|]. rewrite Hv.
    split; [|intros H; congruence].
    apply Forall_app. split; [exact Hwf|]. constructor; [apply wellFormed_shoot|constructor].
  - split; [exact Hiff'|]. split; [exact Hle'|]. rewrite Hv.
    split; [exact Hwf|]. intros _. apply Hnone. now apply Hwas.
  - split; [exact Hiff'|]. split; [exact Hle'|]. rewrite Hv.
    split; [|intros H; congruence].
    apply Forall_app. split.
    + apply Forall_app. split; [exact Hwf|]. constructor; [apply wellFormed_pop|constructor].
    + constructor; [apply wellFormed_click|constructor].
  - split; [exact Hiff'|]. split; [exact Hle'|]. rewrite Hv.
    split; [exact Hwf|]. intros _. apply Hnone. now apply Hwas.
Qed.

Lemma play_inv (calls : list (Browser * Sound)) :
  forall a, audioInv a -> audioInv (play calls a).
Proof.
  unfold play. induction calls as [|call rest IH]; intros a H; cbn [fold_left].
  - exact H.
  - apply IH, play1_inv, H.
Qed.

Lemma play_unsupported (calls : list (Browser * Sound)) :
  forall a,
    audioContext a = false ->
    Forall (fun call => supported (fst call) = false) calls ->
    play calls a
    = mkAudio false (constructed a) (warnings a + List.length calls)
              (resumed a) (voices a).
Proof.
  unfold play. induction calls as [|[b sound] rest IH]; intros a Ha Hall;
    cbn [fold_left List.length].
  - destruct a. cbn in *. subst. f_equal. lia.
  - inversion Hall as [|? ? Hb Hrest]; subst. cbn [fst] in Hb.
    assert (E : play1 a (b, sound)
                = mkAudio false (constructed a) (S (warnings a)) (resumed a) (voices a)).
    { unfold play1, playShootSound, playHitSound, getAudioContext. cbn [fst snd].
      rewrite Ha, Hb. now destruct sound. }
    rewrite E, IH by (try exact Hrest; reflexivity).
    cbn [constructed warnings resumed voices]. f_equal. lia.
Qed.

Lemma play_with_context (calls : list (Browser * Sound)) :
  forall a,
    audioContext a = true ->
    audioContext (play calls a) = true /\
    constructed (play calls a) = constructed a /\
    warnings (play calls a) = warnings a /\
    List.length (voices (play calls a))
    = (List.length (voices a) + voiceCount calls)%nat.
Proof.
  unfold play. induction calls as [|[b sound] rest IH]; intros a Ha;
    cbn [fold_left voiceCount].
  - repeat split; auto.
  - assert (E : audioContext (play1 a (b, sound)) = true /\
                constructed (play1 a (b, sound)) = constructed a /\
                warnings (play1 a (b, sound)) = warnings a /\
                List.length (voices (play1 a (b, sound)))
                = (List.length (voices a)
                   + match sound with Shoot => 1 | Hit => 2 end)%nat).
    { unfold play1, playShootSound, playHitSound, getAudioContext, resumeIfSuspended,
        schedule. cbn [fst snd]. rewrite Ha.
      destruct sound; destruct (suspended b);
        cbn [audioContext constructed warnings voices]; rewrite ?length_app;
        cbn [List.length]; repeat split; auto; lia. }
    destruct E as (E1 & E2 & E3 & E4). destruct (IH _ E1) as (H1 & H2 & H3 & H4).
    rewrite H2, H3, H4, E2, E3, E4. repeat split; auto. destruct sound; lia.
Qed.

(** The audio context is a singleton, and the sounds degrade to nothing:
    after any calls of [playShootSound] and [playHitSound], one context has
    been constructed at most, and it is set exactly when one has been;
    every voice scheduled is silent at its start and at its stop, 50 ms
    apart at most, with valid ramps; while the browser supports no audio, no
    voice is scheduled, each call logs one warning and resumes nothing; and
    once the first call has found a context, no warning is logged and every
    call schedules its voices, one for a shot and two for a hit. *)
Theorem audio_context_is_created_once (calls : list (Browser * Sound)) :
  (constructed (play calls initial) <= 1)%nat /\
  (audioContext (play calls initial) = true
   <-> constructed (play calls initial) = 1%nat) /\
  Forall wellFormed (voices (play calls initial)) /\
  (Forall (fun call => supported (fst call) = false) calls ->
   play calls initial = mkAudio false 0 (List.length calls) 0 []) /\
  (forall b sound rest,
     calls = (b, sound) :: rest -> supported b = true ->
     constructed (play calls initial) = 1%nat /\
     warnings (play calls initial) = 0%nat /\
     List.length (voices (play calls initial)) = voiceCount calls).
Proof.
  set (a := play calls initial).
  assert (H0 : audioInv initial).
  { unfold audioInv, initial; cbn [audioContext constructed voices].
    repeat split; try discriminate; auto. }
  destruct (play_inv calls initial H0) as (Hiff & Hle & Hwf & _).
  fold a in Hiff, Hle, Hwf.
  split; [exact Hle|]. split; [exact Hiff|]. split; [exact Hwf|]. split.
  - intros Hall. unfold a. now rewrite (play_unsupported calls initial eq_refl Hall).
  - intros b sound rest -> Hb. unfold a, play. cbn [fold_left].
    assert (E : audioContext (play1 initial (b, sound)) = true /\
                constructed (play1 initial (b, sound)) = 1%nat /\
                warnings (play1 initial (b, sound)) = 0%nat /\
                List.length (voices (play1 initial (b, sound)))
                = match sound with Shoot => 1%nat | Hit => 2%nat end).
    { unfold play1, playShootSound, playHitSound, getAudioContext, resumeIfSuspended,
        schedule, initial. cbn [fst snd audioContext]. rewrite Hb.
      destruct sound; destruct (suspended b);
        cbn [audioContext constructed warnings voices app List.length];
        repeat split; reflexivity. }
    destruct E as (E1 & E2 & E3 & E4).
    destruct (play_with_context rest _ E1) as (_ & H2 & H3 & H4).
    unfold play in H2, H3, H4. rewrite H2, H3, H4, E2, E3, E4.
    cbn [voiceCount]. repeat split; auto. destruct sound; lia.
Qed.

Lemma audio_context_is_created_once_witness :
  play [(mkBrowser false false 0, Shoot); (mkBrowser false false 0, Hit)] initial
  = mkAudio false 0 2 0 [] /\
  (constructed (play [(mkBrowser true true 0, Hit); (mkBrowser false false 0, Shoot)]
                     initial) = 1%nat /\
   warnings (play [(mkBrowser true true 0, Hit); (mkBrowser false false 0, Shoot)]
                  initial) = 0%nat /\
   List.length (voices (play [(mkBrowser true true 0, Hit);
                              (mkBrowser false false 0, Shoot)] initial)) = 3%nat).
Proof.
  split.
  - destruct (audio_context_is_created_once
                [(mkBrowser false false 0, Shoot); (mkBrowser false false 0, Hit)])
      as (_ & _ & _ & H & _).
    apply H. repeat constructor.
  - destruct (audio_context_is_created_once
                [(mkBrowser true true 0, Hit); (mkBrowser false false 0, Shoot)])
      as (_ & _ & _ & _ & H).
    exact (H (mkBrowser true true 0) Hit [(mkBrowser false false 0, Shoot)]
             eq_refl eq_refl).
Defined.

End Sounds.
